(** * chatgpt-archive: the ingestion pipeline

    A shallow embedding of [ingest/parser.py], [ingest/hashing.py],
    [ingest/db.py], [ingest/run_ingest.py] and the chat page of
    [static_gen/chat_renderer.py], and the properties of the
    normalization, content-hashing and synchronisation steps.

    Layout:
    - [PyStr]    Python [str] values (sequences of code points) and the
                 string methods the pipeline calls;
    - [Sha256]   [hashlib.sha256(...).hexdigest()];
    - [Json]     the values produced by [json.load], [dict] operations and
                 [json.dumps];
    - [Hashing]  [ingest/hashing.py];
    - [Parser]   [ingest/parser.py];
    - [Store]    [ingest/db.py] and the two tables it talks to;
    - [Ingest]   [ingest/run_ingest.py];
    - [RawExport], [StaticGen]  the helpers of [ingest/hashing.py] outside
                 the pipeline, and [static_gen/chat_renderer.py];
    - the theorems. *)

From Stdlib Require Import String Ascii Bool Arith NArith ZArith QArith.
From Stdlib Require Import DecimalString.
From Stdlib Require Import List Lia Permutation Sorted.
Import ListNotations.
Close Scope Q_scope.
Local Open Scope list_scope.

Set Implicit Arguments.

(* ================================================================== *)
(** * Python strings *)
(* ================================================================== *)

Module PyStr.

(** A Python [str] is a sequence of Unicode code points. *)
Definition pystr := list N.

(** ASCII literals of the source. *)
Definition lit (s : string) : pystr :=
  map N_of_ascii (list_ascii_of_string s).

Definition eqb (a b : pystr) : bool :=
  if list_eq_dec N.eq_dec a b then true else false.

(** [a < b] on [str]: lexicographic on code points. *)
Fixpoint ltb (a b : pystr) : bool :=
  match a, b with
  | [], [] => false
  | [], _ :: _ => true
  | _ :: _, [] => false
  | x :: a', y :: b' =>
      if (x <? y)%N then true
      else if (y <? x)%N then false
      else ltb a' b'
  end.

(** [str.isspace] on one code point (CPython's [_PyUnicode_IsWhitespace]). *)
Definition is_space (c : N) : bool :=
  ((9 <=? c) && (c <=? 13) || (28 <=? c) && (c <=? 32)
   || (c =? 133) || (c =? 160) || (c =? 5760)
   || (8192 <=? c) && (c <=? 8202)
   || (c =? 8232) || (c =? 8233) || (c =? 8239) || (c =? 8287)
   || (c =? 12288))%N.

Fixpoint lstrip (s : pystr) : pystr :=
  match s with
  | c :: s' => if is_space c then lstrip s' else s
  | [] => []
  end.

Definition rstrip (s : pystr) : pystr := rev (lstrip (rev s)).

(** [s.strip()] *)
Definition strip (s : pystr) : pystr := rstrip (lstrip s).

(** [sep.join(parts)] *)
Fixpoint join (sep : pystr) (parts : list pystr) : pystr :=
  match parts with
  | [] => []
  | [p] => p
  | p :: rest => p ++ sep ++ join sep rest
  end.

(** UTF-8 of one code point; surrogates cannot be encoded. *)
Definition utf8_char (c : N) : option (list N) :=
  (if c <? 128 then Some [c]
   else if c <? 2048 then Some [192 + c / 64; 128 + c mod 64]
   else if (55296 <=? c) && (c <=? 57343) then None
   else if c <? 65536 then
     Some [224 + c / 4096; 128 + (c / 64) mod 64; 128 + c mod 64]
   else
     Some [240 + c / 262144; 128 + (c / 4096) mod 64;
           128 + (c / 64) mod 64; 128 + c mod 64])%N.

(** [s.encode("utf-8")] *)
Fixpoint encode_utf8 (s : pystr) : option (list N) :=
  match s with
  | [] => Some []
  | c :: s' =>
      match utf8_char c, encode_utf8 s' with
      | Some bs, Some rest => Some (bs ++ rest)
      | _, _ => None
      end
  end.

End PyStr.

Abbreviation pystr := PyStr.pystr.
Notation "'py' s" := (PyStr.lit s%string) (at level 9, s at level 0, only parsing).

(* ================================================================== *)
(** * SHA-256 (FIPS 180-4), as [hashlib.sha256(data).hexdigest()] *)
(* ================================================================== *)

Module Sha256.
Local Open Scope N_scope.

Definition mask32 : N := 4294967295.
Definition add32 (x y : N) : N := N.land (x + y) mask32.
Definition rotr (n x : N) : N :=
  N.lor (N.shiftr x n) (N.land (N.shiftl x (32 - n)) mask32).
Definition not32 (x : N) : N := N.lxor x mask32.

Definition ch (x y z : N) := N.lxor (N.land x y) (N.land (not32 x) z).
Definition maj (x y z : N) :=
  N.lxor (N.lxor (N.land x y) (N.land x z)) (N.land y z).
Definition bsig0 x := N.lxor (N.lxor (rotr 2 x) (rotr 13 x)) (rotr 22 x).
Definition bsig1 x := N.lxor (N.lxor (rotr 6 x) (rotr 11 x)) (rotr 25 x).
Definition ssig0 x := N.lxor (N.lxor (rotr 7 x) (rotr 18 x)) (N.shiftr x 3).
Definition ssig1 x := N.lxor (N.lxor (rotr 17 x) (rotr 19 x)) (N.shiftr x 10).

(** The constants are defined as FIPS 180-4 defines them: the first 32
    bits of the fractional parts of the cube roots (round constants) and
    of the square roots (initial state) of the first primes. *)
Definition is_prime (n : N) : bool :=
  (1 <? n)
  && forallb (fun d => negb (n mod N.of_nat d =? 0))
             (seq 2 (N.to_nat n - 2)).

Definition primes_below (bound : nat) : list N :=
  filter is_prime (map N.of_nat (seq 0 bound)).

(** The largest [r] below [2^bits] with [pow r <= x], bit by bit. *)
Fixpoint integer_root (pow : N -> N) (x : N) (bits : nat) (r : N) : N :=
  match bits with
  | O => r
  | S b =>
      let r' := N.lor r (N.shiftl 1 (N.of_nat b)) in
      if pow r' <=? x then integer_root pow x b r'
      else integer_root pow x b r
  end.

Definition fractional_bits (pow : N -> N) (scale : N) (p : N) : N :=
  N.land (integer_root pow (N.shiftl p scale) 40 0) mask32.

Definition round_constants : list N :=
  Eval vm_compute in
    map (fractional_bits (fun r => r * r * r) 96) (primes_below 312).

Definition state := (N * N * N * N * N * N * N * N)%type.

Definition initial_state : state :=
  Eval vm_compute in
    match map (fractional_bits (fun r => r * r) 64) (primes_below 20) with
    | [a; b; c; d; e; f; g; h] => (a, b, c, d, e, f, g, h)
    | _ => (0, 0, 0, 0, 0, 0, 0, 0)
    end.

(** Padding: a [0x80] byte, zeros up to 56 mod 64, the bit length on 8
    bytes, big endian. *)
Definition be_bytes (width : nat) (v : N) : list N :=
  map (fun i => N.land (N.shiftr v (8 * N.of_nat i)) 255)
      (rev (seq 0 width)).

Definition pad (data : list N) : list N :=
  let len := N.of_nat (length data) in
  let zeros := N.to_nat ((119 - len mod 64) mod 64) in
  data ++ [128] ++ repeat 0 zeros ++ be_bytes 8 (8 * len).

(** Big-endian 32-bit words of a byte sequence. *)
Fixpoint words (fuel : nat) (bs : list N) : list N :=
  match fuel, bs with
  | S fuel', b0 :: b1 :: b2 :: b3 :: rest =>
      (b0 * 16777216 + b1 * 65536 + b2 * 256 + b3) :: words fuel' rest
  | _, _ => []
  end.

(** The message schedule: [w] holds the words computed so far, newest
    first. *)
Fixpoint schedule (n : nat) (w : list N) : list N :=
  match n with
  | O => w
  | S n' =>
      let next :=
        add32 (add32 (ssig1 (nth 1 w 0)) (nth 6 w 0))
              (add32 (ssig0 (nth 14 w 0)) (nth 15 w 0)) in
      schedule n' (next :: w)
  end.

Definition round (s : state) (kw : N * N) : state :=
  let '(a, b, c, d, e, f, g, h) := s in
  let t1 := add32 (add32 (add32 h (bsig1 e)) (add32 (ch e f g) (fst kw)))
                  (snd kw) in
  let t2 := add32 (bsig0 a) (maj a b c) in
  (add32 t1 t2, a, b, c, add32 d t1, e, f, g).

Definition compress (s : state) (block : list N) : state :=
  let w := rev (schedule 48 (rev block)) in
  let '(a, b, c, d, e, f, g, h) := s in
  let '(a', b', c', d', e', f', g', h') :=
    fold_left round (combine round_constants w) s in
  (add32 a a', add32 b b', add32 c c', add32 d d',
   add32 e e', add32 f f', add32 g g', add32 h h').

Fixpoint blocks (fuel : nat) (ws : list N) : list (list N) :=
  match fuel with
  | O => []
  | S fuel' =>
      match ws with
      | [] => []
      | _ => firstn 16 ws :: blocks fuel' (skipn 16 ws)
      end
  end.

Definition digest_words (data : list N) : list N :=
  let ws := let p := pad data in words (length p) p in
  let '(a, b, c, d, e, f, g, h) :=
    fold_left compress (blocks (length ws) ws) initial_state in
  [a; b; c; d; e; f; g; h].

Definition hex_digit (n : N) : N :=
  if n <? 10 then 48 + n else 87 + n.

Definition hex_byte (b : N) : list N := [hex_digit (b / 16); hex_digit (b mod 16)].

(** The lowercase hexadecimal digest, 64 characters. *)
Definition hexdigest (data : list N) : pystr :=
  flat_map hex_byte (flat_map (be_bytes 4) (digest_words data)).

End Sha256.

(* ================================================================== *)
(** * Generic helpers *)
(* ================================================================== *)

(** A stable sort by key: Python's [sorted(items)] and
    [list.sort(key=...)] are stable, so elements with equal keys keep
    their input order.  [lt] is the [<] of the keys. *)
Section StableSort.
Variables (A K : Type) (key : A -> K) (lt : K -> K -> bool).

Fixpoint insert_by (x : A) (l : list A) : list A :=
  match l with
  | [] => [x]
  | y :: l' =>
      if lt (key y) (key x) then y :: insert_by x l' else x :: y :: l'
  end.

Definition sort_by (l : list A) : list A := fold_right insert_by [] l.
End StableSort.

(** Results of code that may raise. *)
Inductive exn :=
| AttributeError      (* [x.get] on a value that is not a dict *)
| TypeError           (* [len] or slicing of a value that has none *)
| UnicodeEncodeError  (* [str.encode] on a lone surrogate *)
| FileNotFoundError   (* no conversations.json under the export directory *)
| JSONDecodeError     (* the file is not JSON *)
| StorageError.       (* psycopg2 raised *)

Inductive result (A : Type) :=
| Ok (a : A)
| Raise (e : exn).
Arguments Ok {A} a.
Arguments Raise {A} e.

Definition rbind {A B} (r : result A) (k : A -> result B) : result B :=
  match r with
  | Ok a => k a
  | Raise e => Raise e
  end.

Fixpoint rmap {A B} (f : A -> result B) (l : list A) : result (list B) :=
  match l with
  | [] => Ok []
  | x :: l' =>
      rbind (f x) (fun y => rbind (rmap f l') (fun ys => Ok (y :: ys)))
  end.

(* ================================================================== *)
(** * JSON values, [dict] operations and [json.dumps] *)
(* ================================================================== *)

(** A Python [float].  A finite one is the rational it denotes.
    [json.load] also yields the negative zero (for [-0.0]), the two
    infinities (for the literals [Infinity] and [-Infinity], and for a
    number out of range such as [1e400]) and NaN (for the literal
    [NaN]). *)
Inductive pyfloat :=
| Finite (q : Q)
| NegZero
| Infinity (negative : bool)
| NaN.

(** What [json.load] returns.  A [dict] keeps its insertion order and has
    pairwise distinct keys. *)
#[local] Unset Elimination Schemes.
Inductive json :=
| JNull
| JBool (b : bool)
| JInt (z : Z)
| JFloat (x : pyfloat)
| JStr (s : pystr)
| JList (l : list json)
| JObj (d : list (pystr * json)).
#[local] Set Elimination Schemes.

Abbreviation dict := (list (pystr * json)).

Section JsonInd.
Variable P : json -> Prop.
Hypothesis Hnull : P JNull.
Hypothesis Hbool : forall b, P (JBool b).
Hypothesis Hint : forall z, P (JInt z).
Hypothesis Hfloat : forall q, P (JFloat q).
Hypothesis Hstr : forall s, P (JStr s).
Hypothesis Hlist : forall l, Forall P l -> P (JList l).
Hypothesis Hobj : forall d, Forall (fun kv => P (snd kv)) d -> P (JObj d).

Fixpoint json_ind (j : json) : P j :=
  match j with
  | JNull => Hnull
  | JBool b => Hbool b
  | JInt z => Hint z
  | JFloat q => Hfloat q
  | JStr s => Hstr s
  | JList l =>
      Hlist ((fix go (l : list json) : Forall P l :=
                match l with
                | [] => Forall_nil _
                | x :: l' => Forall_cons _ (json_ind x) (go l')
                end) l)
  | JObj d =>
      Hobj ((fix go (d : dict) : Forall (fun kv => P (snd kv)) d :=
               match d with
               | [] => Forall_nil _
               | kv :: d' => Forall_cons _ (json_ind (snd kv)) (go d')
               end) d)
  end.
End JsonInd.

Module Dict.

(** [d.get(k)]: the value at [k], [None] when the key is absent. *)
Fixpoint get (d : dict) (k : pystr) : json :=
  match d with
  | [] => JNull
  | (k', v) :: d' => if PyStr.eqb k' k then v else get d' k
  end.

(** [k in d] *)
Fixpoint contains (d : dict) (k : pystr) : bool :=
  match d with
  | [] => false
  | (k', _) :: d' => PyStr.eqb k' k || contains d' k
  end.

(** [d.pop(k, None)], on the copy. *)
Fixpoint pop (d : dict) (k : pystr) : dict :=
  match d with
  | [] => []
  | (k', v) :: d' => if PyStr.eqb k' k then pop d' k else (k', v) :: pop d' k
  end.

Definition keys (d : dict) : list pystr := map fst d.

End Dict.

(** [bool(x)] of a float: the two zeros are false; NaN and the infinities
    are true. *)
Definition float_truthy (x : pyfloat) : bool :=
  match x with
  | Finite q => negb (Qeq_bool q 0)
  | NegZero => false
  | Infinity _ => true
  | NaN => true
  end.

(** Truth value of an object: [None], [False], zero, and the empty
    string, list and dict are false. *)
Definition truthy (j : json) : bool :=
  match j with
  | JNull => false
  | JBool b => b
  | JInt z => negb (z =? 0)%Z
  | JFloat x => float_truthy x
  | JStr s => match s with [] => false | _ => true end
  | JList l => match l with [] => false | _ => true end
  | JObj d => match d with [] => false | _ => true end
  end.

(** [a or b] *)
Definition py_or (a b : json) : json := if truthy a then a else b.

(** A dict as [json.load] builds it: keys pairwise distinct, at every
    level. *)
#[local] Unset Elimination Schemes.
Inductive well_formed : json -> Prop :=
| wf_null : well_formed JNull
| wf_bool b : well_formed (JBool b)
| wf_int z : well_formed (JInt z)
| wf_float q : well_formed (JFloat q)
| wf_str s : well_formed (JStr s)
| wf_list l : Forall well_formed l -> well_formed (JList l)
| wf_obj d :
    NoDup (Dict.keys d) ->
    Forall (fun kv => well_formed (snd kv)) d ->
    well_formed (JObj d).
#[local] Set Elimination Schemes.

Module JsonDumps.

Definition hex4 (c : N) : pystr :=
  [Sha256.hex_digit (c / 4096); Sha256.hex_digit ((c / 256) mod 16);
   Sha256.hex_digit ((c / 16) mod 16); Sha256.hex_digit (c mod 16)]%N.

(** [ESCAPE_DCT] of [json.encoder]: the replacements applied with
    [ensure_ascii=False]; every other character is kept. *)
Definition escape_char (c : N) : pystr :=
  if (c =? 34)%N then [92; 34]%N
  else if (c =? 92)%N then [92; 92]%N
  else if (c =? 10)%N then py "\n"
  else if (c =? 13)%N then py "\r"
  else if (c =? 9)%N then py "\t"
  else if (c =? 8)%N then py "\b"
  else if (c =? 12)%N then py "\f"
  else if (c <? 32)%N then py "\u" ++ hex4 c
  else [c].

(** [py_encode_basestring] *)
Definition encode_basestring (s : pystr) : pystr :=
  [34%N] ++ flat_map escape_char s ++ [34%N].

Definition int_repr (z : Z) : pystr :=
  PyStr.lit (DecimalString.NilZero.string_of_int (Z.to_int z)).

Section Dumps.
(** [float.__repr__], the shortest decimal that reads back as the same
    float; only that it is a function of the float is used. *)
Variable float_repr : pyfloat -> pystr.
Variable sort_keys : bool.
Variables item_separator key_separator : pystr.

(** [floatstr] of [json.encoder], with the default [allow_nan=True]: the
    three values that JSON has no literal for are written as JavaScript
    has them. *)
Definition floatstr (x : pyfloat) : pystr :=
  match x with
  | NaN => py "NaN"
  | Infinity false => py "Infinity"
  | Infinity true => py "-Infinity"
  | _ => float_repr x
  end.

Definition order_items (items : list (pystr * pystr))
  : list (pystr * pystr) :=
  if sort_keys then sort_by fst PyStr.ltb items else items.

Definition dump_item (kv : pystr * pystr) : pystr :=
  encode_basestring (fst kv) ++ key_separator ++ snd kv.

(** [json.dumps(obj, sort_keys=..., separators=(item, key),
    ensure_ascii=False)].  The items of a dict are ordered by key; the
    order looks at the keys only (they are distinct), so the values are
    rendered before the items are put in order. *)
Fixpoint dumps (j : json) : pystr :=
  match j with
  | JNull => py "null"
  | JBool true => py "true"
  | JBool false => py "false"
  | JInt z => int_repr z
  | JFloat x => floatstr x
  | JStr s => encode_basestring s
  | JList l => py "[" ++ PyStr.join item_separator (map dumps l) ++ py "]"
  | JObj d =>
      py "{"
      ++ PyStr.join item_separator
           (map dump_item
                (order_items (map (fun kv => (fst kv, dumps (snd kv))) d)))
      ++ py "}"
  end.
End Dumps.

End JsonDumps.

(* ================================================================== *)
(** * ingest/hashing.py *)
(* ================================================================== *)

Module Hashing.

Section WithFloatRepr.
Variable float_repr : pyfloat -> pystr.

(** [json.dumps(obj, sort_keys=True, separators=(",", ":"),
    ensure_ascii=False)] *)
Definition _canonical_json (obj : json) : pystr :=
  JsonDumps.dumps float_repr true (py ",") (py ":") obj.

(** [hashlib.sha256(text.encode("utf-8")).hexdigest()] *)
Definition _sha256_from_string (text : pystr) : result pystr :=
  match PyStr.encode_utf8 text with
  | Some data => Ok (Sha256.hexdigest data)
  | None => Raise UnicodeEncodeError
  end.

Definition VOLATILE_MESSAGE_KEYS : list pystr :=
  [py "id"; py "create_time"; py "update_time"; py "timestamp";
   py "rating"; py "metadata"].

(** A shallow copy of the message without the volatile keys; a value
    that is not a dict is returned as it is. *)
Definition strip_volatile_fields (message : json) : json :=
  match message with
  | JObj d => JObj (fold_left Dict.pop VOLATILE_MESSAGE_KEYS d)
  | _ => message
  end.

Definition hash_message (raw_message : json) : result pystr :=
  let cleaned := strip_volatile_fields raw_message in
  let canonical := _canonical_json cleaned in
  _sha256_from_string canonical.

(** The structure [hash_chat] serializes.  [extra_fields] is [JNull]
    for the default [None]; [if extra_fields:] tests its truth value. *)
Definition chat_payload (title : json) (messages : list json)
           (extra_fields : json) : json :=
  let cleaned_messages := map strip_volatile_fields messages in
  let payload :=
    [(py "title", title); (py "messages", JList cleaned_messages)] in
  if truthy extra_fields
  then JObj (payload ++ [(py "extra", extra_fields)])
  else JObj payload.

Definition hash_chat (title : json) (messages : list json)
           (extra_fields : json) : result pystr :=
  let canonical := _canonical_json (chat_payload title messages extra_fields) in
  _sha256_from_string canonical.
End WithFloatRepr.

End Hashing.

(* ================================================================== *)
(** * ingest/parser.py *)
(* ================================================================== *)

Module Parser.

(** A normalized message, [{"role": ..., "content": ..., "raw_json": ...}]. *)
Record message := {
  msg_role : json;
  msg_content : pystr;
  msg_raw_json : json
}.

(** A normalized chat, the dict [normalize_chat] returns. *)
Record chat := {
  chat_id : json;
  title : json;
  create_time : json;
  update_time : json;
  model : json;
  messages : list message;
  raw_json : json
}.

(** The parsed document is the argument: [json.load] has run.  The last
    case logs a warning. *)
Definition load_conversations_json (data : json) : json :=
  match data with
  | JObj d =>
      if Dict.contains d (py "conversations")
      then Dict.get d (py "conversations")
      else JList []
  | JList _ => data
  | _ => JList []
  end.

Definition extract_message_role (raw_msg : json) : result json :=
  match raw_msg with
  | JObj m =>
      let fallback := py_or (Dict.get m (py "role")) (JStr (py "assistant")) in
      match Dict.get m (py "author") with
      | JObj author =>
          match Dict.get author (py "role") with
          | JStr role => Ok (JStr role)
          | _ => Ok fallback
          end
      | _ => Ok fallback
      end
  | _ => Raise AttributeError
  end.

Definition is_str (j : json) : bool :=
  match j with JStr _ => true | _ => false end.

(** [[p for p in parts if isinstance(p, str)]] *)
Fixpoint str_parts (parts : list json) : list pystr :=
  match parts with
  | [] => []
  | JStr p :: rest => p :: str_parts rest
  | _ :: rest => str_parts rest
  end.

Definition newline : pystr := [10%N].

Definition extract_message_content (raw_msg : json) : result pystr :=
  match raw_msg with
  | JObj m =>
      match Dict.get m (py "content") with
      | JObj c =>
          match Dict.get c (py "parts") with
          | JList parts => Ok (PyStr.strip (PyStr.join newline (str_parts parts)))
          | _ =>
              match Dict.contains c (py "text"), Dict.get c (py "text") with
              | true, JStr text => Ok (PyStr.strip text)
              | _, _ => Ok []
              end
          end
      | JStr c => Ok (PyStr.strip c)
      | _ => Ok []
      end
  | _ => Raise AttributeError
  end.

(** The body of both loops: role, content and the message itself. *)
Definition normalize_message (msg : json) : result message :=
  rbind (extract_message_role msg) (fun role =>
  rbind (extract_message_content msg) (fun content =>
  Ok {| msg_role := role; msg_content := content; msg_raw_json := msg |})).

(** The loop over [mapping.values()]. *)
Fixpoint collect_mapping (nodes : list json) : result (list message) :=
  match nodes with
  | [] => Ok []
  | JObj node :: rest =>
      let msg := Dict.get node (py "message") in
      if negb (truthy msg) then collect_mapping rest
      else
        rbind (normalize_message msg) (fun m =>
        rbind (collect_mapping rest) (fun ms => Ok (m :: ms)))
  | _ :: _ => Raise AttributeError
  end.

(** [ts if isinstance(ts, (int, float)) else 0]; [bool] is a subclass of
    [int].  An [int] is the number it denotes: Python compares an [int]
    and a [float] by value.  The messages that reach the sort are dicts,
    see [collect_mapping_raw_dict]. *)
Definition msg_sort_key (m : message) : pyfloat :=
  match msg_raw_json m with
  | JObj raw =>
      match Dict.get raw (py "create_time") with
      | JInt z => Finite (inject_Z z)
      | JFloat x => x
      | JBool b => Finite (if b then 1 else 0)
      | _ => Finite 0
      end
  | _ => Finite 0
  end.

Definition Qltb (a b : Q) : bool := negb (Qle_bool b a).

Definition is_nan (x : pyfloat) : bool :=
  match x with NaN => true | _ => false end.

(** The number a finite key denotes. *)
Definition finite_value (x : pyfloat) : Q :=
  match x with Finite q => q | _ => 0 end.

(** [a < b] on two keys.  Every comparison with NaN is false. *)
Definition float_ltb (a b : pyfloat) : bool :=
  match a, b with
  | NaN, _ | _, NaN => false
  | Infinity na, Infinity nb => na && negb nb
  | Infinity na, _ => na
  | _, Infinity nb => negb nb
  | _, _ => Qltb (finite_value a) (finite_value b)
  end.

(** What [list.sort] makes of keys that [<] does not order: the place it
    gives to the element at position [i] of a list with these keys. *)
Definition sort_order := list pyfloat -> nat -> nat.

Section WithSortOrder.
Variable nan_order : sort_order.

(** [messages.sort(key=msg_sort_key)].  The sort is stable and compares
    the keys with [<]: when no key is NaN the messages come out in the
    order of their keys, those of one key in their input order.  With a
    NaN among the keys [<] is not an order and the language does not say
    how the list is arranged; it is some permutation, the one that
    [nan_order] gives for these keys. *)
Definition sort_messages (messages : list message) : list message :=
  let keys := map msg_sort_key messages in
  if existsb is_nan keys
  then map snd
           (sort_by fst Nat.ltb
                    (combine (map (nan_order keys) (seq 0 (length messages)))
                             messages))
  else sort_by msg_sort_key float_ltb messages.

Definition extract_messages_from_chat (raw_chat : json)
  : result (list message) :=
  match raw_chat with
  | JObj chat =>
      match Dict.get chat (py "mapping") with
      | JObj mapping =>
          rbind (collect_mapping (map snd mapping)) (fun messages =>
          Ok (sort_messages messages))
      | _ =>
          match Dict.get chat (py "messages") with
          | JList raw_messages => rmap normalize_message raw_messages
          | _ => Ok []
          end
      end
  | _ => Raise AttributeError
  end.

Definition normalize_chat (raw_chat : json) : result chat :=
  match raw_chat with
  | JObj c =>
      rbind (extract_messages_from_chat raw_chat) (fun messages =>
      Ok {| chat_id := Dict.get c (py "id");
            title := py_or (Dict.get c (py "title")) (JStr (py "Untitled Chat"));
            create_time := Dict.get c (py "create_time");
            update_time := Dict.get c (py "update_time");
            model := Dict.get c (py "model");
            messages := messages;
            raw_json := raw_chat |})
  | _ => Raise AttributeError
  end.
End WithSortOrder.

End Parser.

(* ================================================================== *)
(** * ingest/db.py and the two tables *)
(* ================================================================== *)

Module Store.

(** The columns [upsert_chat] writes besides the key. *)
Record chat_fields := {
  f_title : json;
  f_create_time : json;
  f_update_time : json;
  f_model : json;
  f_hash : pystr;
  f_content_text : pystr;
  f_raw_json : pystr
}.

(** Modelled from the spec: the table declarations are not part of the
    sources.  A row of [chats] is the database-assigned [id], the export's
    [chat_id] (the external id, a string or null) and the columns above;
    its projection [(id, chat_id, hash)] is the StoredChatSummary. *)
Record chat_row := {
  row_id : Z;
  row_chat_id : json;
  row_fields : chat_fields
}.

(** A row of [messages]; [created_at] is always inserted as NULL. *)
Record message_row := {
  m_chat_id : Z;
  m_message_index : nat;
  m_role : json;
  m_content : pystr;
  m_raw_json : pystr
}.

(** The five statements the pipeline sends. *)
Inductive statement :=
| SelectChat (chat_id : json)
| InsertChat (chat_id : json) (fields : chat_fields)
| UpdateChat (fields : chat_fields) (id : Z)
| DeleteMessages (chat_db_id : Z)
| InsertMessage (row : message_row).

Definition is_write (s : statement) : bool :=
  match s with SelectChat _ => false | _ => true end.

Definition writes_messages (s : statement) : bool :=
  match s with DeleteMessages _ | InsertMessage _ => true | _ => false end.

(** The committed state: both tables in insertion order, the next value
    of the [id] sequence, and the statements committed so far. *)
Record db := {
  chats : list chat_row;
  messages : list message_row;
  next_id : Z;
  journal : list statement
}.

(** Equality of two [double precision] values in PostgreSQL: the zeros
    are equal, and NaN is equal to itself. *)
Definition sql_float_eq (a b : pyfloat) : bool :=
  match a, b with
  | NaN, NaN => true
  | Infinity na, Infinity nb => Bool.eqb na nb
  | Finite _, Finite _ | Finite _, NegZero | NegZero, Finite _
  | NegZero, NegZero =>
      Qeq_bool (Parser.finite_value a) (Parser.finite_value b)
  | _, _ => false
  end.

(** Modelled from the spec: [chat_id = %s] of the lookup.  SQL equality
    is never true on NULL; on two values of one scalar type it is their
    equality. *)
Definition sql_eq (column param : json) : bool :=
  match column, param with
  | JStr a, JStr b => PyStr.eqb a b
  | JInt a, JInt b => (a =? b)%Z
  | JBool a, JBool b => Bool.eqb a b
  | JFloat a, JFloat b => sql_float_eq a b
  | _, _ => false
  end.

(** [SELECT id, hash FROM chats WHERE chat_id = %s], then [fetchone()]. *)
Definition select_chat (d : db) (chat_id : json) : option chat_row :=
  find (fun r => sql_eq (row_chat_id r) chat_id) (chats d).

Definition messages_of (d : db) (chat_db_id : Z) : list message_row :=
  filter (fun m => (m_chat_id m =? chat_db_id)%Z) (messages d).

(** The effect of one committed statement on the tables. *)
Definition apply (s : statement) (d : db) : db :=
  match s with
  | SelectChat _ =>
      {| chats := chats d; messages := messages d; next_id := next_id d;
         journal := journal d ++ [s] |}
  | InsertChat chat_id fields =>
      {| chats := chats d ++ [{| row_id := next_id d; row_chat_id := chat_id;
                                 row_fields := fields |}];
         messages := messages d;
         next_id := (next_id d + 1)%Z;
         journal := journal d ++ [s] |}
  | UpdateChat fields id =>
      {| chats := map (fun r =>
                         if (row_id r =? id)%Z
                         then {| row_id := row_id r;
                                 row_chat_id := row_chat_id r;
                                 row_fields := fields |}
                         else r) (chats d);
         messages := messages d;
         next_id := next_id d;
         journal := journal d ++ [s] |}
  | DeleteMessages chat_db_id =>
      {| chats := chats d;
         messages := filter (fun m => negb (m_chat_id m =? chat_db_id)%Z)
                            (messages d);
         next_id := next_id d;
         journal := journal d ++ [s] |}
  | InsertMessage row =>
      {| chats := chats d;
         messages := messages d ++ [row];
         next_id := next_id d;
         journal := journal d ++ [s] |}
  end.

(** The storage backend may fail: [budget] is the number of round trips
    that succeed before psycopg2 raises, [None] when it never does. *)
Record world := {
  store : db;
  budget : option nat
}.

(** A computation that talks to the database: the result or the
    exception, and the world it leaves. *)
Definition M (A : Type) := world -> result A * world.

Definition ret {A} (a : A) : M A := fun w => (Ok a, w).

Definition raise {A} (e : exn) : M A := fun w => (Raise e, w).

Definition bind {A B} (m : M A) (k : A -> M B) : M B :=
  fun w =>
    match m w with
    | (Ok a, w') => k a w'
    | (Raise e, w') => (Raise e, w')
    end.

Definition lift {A} (r : result A) : M A :=
  match r with
  | Ok a => ret a
  | Raise e => raise e
  end.

(** [with transaction() as cur: cur.execute(...)]: one connection and one
    transaction for this statement alone, committed when the block is
    left, rolled back when the statement raised.  [read] is what the
    cursor returns, computed on the state before the statement. *)
Definition transaction {A} (s : statement) (read : db -> A) : M A :=
  fun w =>
    match budget w with
    | Some O => (Raise StorageError, w)
    | Some (S n) =>
        (Ok (read (store w)),
         {| store := apply s (store w); budget := Some n |})
    | None =>
        (Ok (read (store w)),
         {| store := apply s (store w); budget := None |})
    end.

(** [execute(query, params)] *)
Definition execute (s : statement) : M unit :=
  transaction s (fun _ => tt).

(** [fetch_one("SELECT id, hash FROM chats WHERE chat_id = %s", ...)] *)
Definition fetch_one_chat (chat_id : json) : M (option chat_row) :=
  transaction (SelectChat chat_id) (fun d => select_chat d chat_id).

(** [fetch_one("INSERT INTO chats (...) VALUES (...) RETURNING id", ...)] *)
Definition fetch_one_insert (chat_id : json) (fields : chat_fields) : M Z :=
  transaction (InsertChat chat_id fields) next_id.

End Store.

Notation "x <- m ;; k" := (Store.bind m (fun x => k))
  (at level 61, m at next level, right associativity).
Notation "m ;;; k" := (Store.bind m (fun _ => k))
  (at level 61, right associativity).

(* ================================================================== *)
(** * ingest/run_ingest.py *)
(* ================================================================== *)

Module Ingest.
Import Store.

(** The result of the glob for one [conversations.json]: what [json.load]
    makes of it. *)
Inductive file :=
| NotJson
| Document (data : json).

(** What the loop counts for a chat. *)
Inductive outcome := New | Updated | Unchanged.

Record counts := {
  new_count : nat;
  updated_count : nat;
  unchanged_count : nat
}.

Definition count (o : outcome) (c : counts) : counts :=
  match o with
  | New => {| new_count := S (new_count c);
              updated_count := updated_count c;
              unchanged_count := unchanged_count c |}
  | Updated => {| new_count := new_count c;
                  updated_count := S (updated_count c);
                  unchanged_count := unchanged_count c |}
  | Unchanged => {| new_count := new_count c;
                    updated_count := updated_count c;
                    unchanged_count := S (unchanged_count c) |}
  end.

(** The normalized dicts as JSON values, in the key order of the source. *)
Definition message_json (m : Parser.message) : json :=
  JObj [(py "role", Parser.msg_role m);
        (py "content", JStr (Parser.msg_content m));
        (py "raw_json", Parser.msg_raw_json m)].

Definition chat_json (c : Parser.chat) : json :=
  JObj [(py "chat_id", Parser.chat_id c);
        (py "title", Parser.title c);
        (py "create_time", Parser.create_time c);
        (py "update_time", Parser.update_time c);
        (py "model", Parser.model c);
        (py "messages", JList (map message_json (Parser.messages c)));
        (py "raw_json", Parser.raw_json c)].

Definition flatten_content (messages : list Parser.message) : pystr :=
  let parts :=
    flat_map (fun msg =>
                let text := Parser.msg_content msg in
                match PyStr.strip text with
                | [] => []
                | stripped => [stripped]
                end) messages in
  PyStr.strip (PyStr.join Parser.newline parts).

(** [normalized['title'][:60]] of the three log lines: a string or a list
    can be sliced, the other values cannot. *)
Definition title_prefix (title : json) : result json :=
  match title with
  | JStr s => Ok (JStr (firstn 60 s))
  | JList l => Ok (JList (firstn 60 l))
  | _ => Raise TypeError
  end.

(** [candidates[0]] of the glob, or [FileNotFoundError]. *)
Definition find_conversations_json (export_dir : list file) : result file :=
  match export_dir with
  | [] => Raise FileNotFoundError
  | first :: _ => Ok first
  end.

(** [json.load(f)] *)
Definition json_load (f : file) : result json :=
  match f with
  | NotJson => Raise JSONDecodeError
  | Document data => Ok data
  end.

(** [len(raw_chats)] and [for raw_chat in raw_chats]: a list yields its
    items, a dict its keys, a string its characters; the other values
    have no length. *)
Definition iterate (raw_chats : json) : result (list json) :=
  match raw_chats with
  | JList l => Ok l
  | JObj d => Ok (map (fun kv => JStr (fst kv)) d)
  | JStr s => Ok (map (fun c => JStr [c]) s)
  | _ => Raise TypeError
  end.

Section WithFloatRepr.
Variable float_repr : pyfloat -> pystr.
Variable nan_order : Parser.sort_order.

(** [json.dumps(obj, ensure_ascii=False)] *)
Definition json_dumps (obj : json) : pystr :=
  JsonDumps.dumps float_repr false (py ", ") (py ": ") obj.

Definition chat_columns (normalized : Parser.chat) (chat_hash : pystr)
  : chat_fields :=
  {| f_title := Parser.title normalized;
     f_create_time := py_or (Parser.create_time normalized) (JInt 0);
     f_update_time := py_or (Parser.update_time normalized) (JInt 0);
     f_model := Parser.model normalized;
     f_hash := chat_hash;
     f_content_text := flatten_content (Parser.messages normalized);
     f_raw_json := json_dumps (chat_json normalized) |}.

Definition upsert_chat (normalized : Parser.chat) (chat_hash : pystr)
  : M Z :=
  existing <- fetch_one_chat (Parser.chat_id normalized) ;;
  let fields := chat_columns normalized chat_hash in
  match existing with
  | None =>
      lift (title_prefix (Parser.title normalized)) ;;;
      fetch_one_insert (Parser.chat_id normalized) fields
  | Some row =>
      let existing_hash := f_hash (row_fields row) in
      if PyStr.eqb existing_hash chat_hash then
        lift (title_prefix (Parser.title normalized)) ;;;
        ret (row_id row)
      else
        lift (title_prefix (Parser.title normalized)) ;;;
        let chat_db_id := row_id row in
        execute (UpdateChat fields chat_db_id) ;;;
        execute (DeleteMessages chat_db_id) ;;;
        ret chat_db_id
  end.

Definition message_row_of (chat_db_id : Z) (index : nat)
           (msg : Parser.message) : message_row :=
  {| m_chat_id := chat_db_id;
     m_message_index := index;
     m_role := Parser.msg_role msg;
     m_content := Parser.msg_content msg;
     m_raw_json := json_dumps (Parser.msg_raw_json msg) |}.

(** [for index, msg in enumerate(messages): execute(...)], from
    [index] on. *)
Fixpoint insert_messages_from (index : nat) (chat_db_id : Z)
         (messages : list Parser.message) : M unit :=
  match messages with
  | [] => ret tt
  | msg :: rest =>
      execute (InsertMessage (message_row_of chat_db_id index msg)) ;;;
      insert_messages_from (S index) chat_db_id rest
  end.

Definition insert_messages (chat_db_id : Z)
           (messages : list Parser.message) : M unit :=
  insert_messages_from 0 chat_db_id messages.

(** The second half of the loop body of [ingest_export]: the lookup,
    [upsert_chat], the count and the messages. *)
Definition sync_chat (normalized : Parser.chat) (chat_hash : pystr)
  : M outcome :=
  old_row <- fetch_one_chat (Parser.chat_id normalized) ;;
  chat_db_id <- upsert_chat normalized chat_hash ;;
  match old_row with
  | None =>
      insert_messages chat_db_id (Parser.messages normalized) ;;;
      ret New
  | Some row =>
      if negb (PyStr.eqb (f_hash (row_fields row)) chat_hash) then
        insert_messages chat_db_id (Parser.messages normalized) ;;;
        ret Updated
      else ret Unchanged
  end.

(** The fingerprint the loop computes for a normalized chat. *)
Definition chat_fingerprint (normalized : Parser.chat) : result pystr :=
  Hashing.hash_chat float_repr
    (Parser.title normalized)
    (map message_json (Parser.messages normalized))
    (JObj [(py "model", Parser.model normalized)]).

(** One iteration of the loop of [ingest_export]. *)
Definition ingest_chat (raw_chat : json) : M outcome :=
  normalized <- lift (Parser.normalize_chat nan_order raw_chat) ;;
  chat_hash <- lift (chat_fingerprint normalized) ;;
  sync_chat normalized chat_hash.

Fixpoint ingest_chats (raw_chats : list json) (c : counts) : M counts :=
  match raw_chats with
  | [] => ret c
  | raw_chat :: rest =>
      o <- ingest_chat raw_chat ;;
      ingest_chats rest (count o c)
  end.

Definition zero_counts : counts :=
  {| new_count := 0; updated_count := 0; unchanged_count := 0 |}.

(** [ingest_export(export_path)]; the three counts it logs are the
    result. *)
Definition ingest_export (export_dir : list file) : M counts :=
  conversations_path <- lift (find_conversations_json export_dir) ;;
  data <- lift (json_load conversations_path) ;;
  let raw_chats := Parser.load_conversations_json data in
  items <- lift (iterate raw_chats) ;;
  ingest_chats items zero_counts.
End WithFloatRepr.

End Ingest.


(* ================================================================== *)
(** * ingest/hashing.py: the helpers outside the pipeline *)
(* ================================================================== *)

Module RawExport.

(** [d.get(k, default)]: the default only when the key is absent. *)
Definition get_or (d : dict) (k : pystr) (default : json) : json :=
  if Dict.contains d k then Dict.get d k else default.

(** [hashlib.sha256(data).hexdigest()] *)
Definition _sha256_from_bytes (data : list N) : pystr :=
  Sha256.hexdigest data.

Section WithFloatRepr.
Variable float_repr : pyfloat -> pystr.

(** [hash_chat] walks [messages] with a comprehension: a list yields its
    items, a dict its keys, a string its characters, and the other values
    cannot be iterated. *)
Definition hash_raw_chat_export (raw_chat : json) : result pystr :=
  match raw_chat with
  | JObj c =>
      let title := get_or c (py "title") (JStr (py "<untitled>")) in
      let messages := get_or c (py "messages") (JList []) in
      let extra :=
        JObj [(py "model", Dict.get c (py "model"));
              (py "project_id", Dict.get c (py "project_id"))] in
      rbind (Ingest.iterate messages) (fun ms =>
      Hashing.hash_chat float_repr title ms extra)
  | _ => Raise AttributeError
  end.
End WithFloatRepr.

End RawExport.

(* ================================================================== *)
(** * static_gen/chat_renderer.py *)
(* ================================================================== *)

Module StaticGen.
Import Store.

(** [s.startswith(prefix)] *)
Fixpoint starts_with (prefix s : pystr) : bool :=
  match prefix, s with
  | [], _ => true
  | _ :: _, [] => false
  | p :: prefix', c :: s' => (p =? c)%N && starts_with prefix' s'
  end.

(** [s.replace(old, new)] for a non-empty [old]: the occurrences are
    found from left to right and do not overlap.  [skip] counts the
    characters of the occurrence just replaced that are still to drop. *)
Fixpoint replace_from (skip : nat) (old new s : pystr) : pystr :=
  match s with
  | [] => []
  | c :: s' =>
      match skip with
      | S k => replace_from k old new s'
      | O =>
          if starts_with old s
          then new ++ replace_from (length old - 1) old new s'
          else c :: replace_from 0 old new s'
      end
  end.

(** [s.replace(old, new)]; an empty [old] matches before every character
    and at the end. *)
Definition replace (old new s : pystr) : pystr :=
  match old with
  | [] => new ++ flat_map (fun c => c :: new) s
  | _ :: _ => replace_from 0 old new s
  end.

Definition nl2br (text : pystr) : pystr :=
  match text with
  | [] => []
  | _ :: _ =>
      let escaped :=
        replace (py ">") (py "&gt;")
          (replace (py "<") (py "&lt;")
             (replace (py "&") (py "&amp;") text)) in
      replace Parser.newline (py "<br>" ++ Parser.newline) escaped
  end.

(** A [SELECT] through [fetch_one] or [fetch_all]: one round trip in a
    transaction of its own; the tables stay as they are.  The journal
    lists the statements of the ingestion, not the reads of the pages. *)
Definition query {A} (read : db -> A) : M A :=
  fun w =>
    match budget w with
    | Some O => (Raise StorageError, w)
    | Some (S n) =>
        (Ok (read (store w)), {| store := store w; budget := Some n |})
    | None => (Ok (read (store w)), w)
    end.

(** [SELECT id, chat_id, title, create_time, update_time, model FROM chats
    WHERE id = %s], then [fetchone()]. *)
Definition select_chat_by_id (chat_db_id : Z) (d : db) : option chat_row :=
  find (fun r => (row_id r =? chat_db_id)%Z) (chats d).

(** [SELECT message_index, role, content FROM messages WHERE chat_id = %s
    ORDER BY message_index], then [fetchall()].  Rows of one index come in
    the order of the table. *)
Definition select_messages (chat_db_id : Z) (d : db) : list message_row :=
  sort_by m_message_index Nat.ltb (messages_of d chat_db_id).

(** An entry of [messages], and the arguments of [template.render]:
    [title] and the [chat] dict, [messages], [css_prefix]. *)
Record page_message := {
  pm_role : json;
  pm_content : pystr
}.

Record chat_page := {
  page_id : Z;
  page_chat_id : json;
  page_title : json;
  page_create_time : json;
  page_update_time : json;
  page_model : json;
  page_messages : list page_message;
  page_css_prefix : pystr
}.

(** What [render_chat_page] raises: its own [ValueError], or what the
    storage raised. *)
Inductive raised :=
| ValueError
| Raised (e : exn).

(** [render_chat_page] up to the call of [template.render]: [inl page]
    says that the call is reached, with [page] as its arguments.  The
    lookup of the template, its rendering by Jinja and the write of
    [output_root/chat/<chat_id>.html] come after it and can still raise;
    they are not part of this definition. *)
Definition render_chat_page (chat_db_id : Z)
  : world -> (chat_page + raised) * world :=
  fun w =>
    match query (select_chat_by_id chat_db_id) w with
    | (Raise e, w1) => (inr (Raised e), w1)
    | (Ok None, w1) => (inr ValueError, w1)
    | (Ok (Some chat_row), w1) =>
        match query (select_messages chat_db_id) w1 with
        | (Raise e, w2) => (inr (Raised e), w2)
        | (Ok msg_rows, w2) =>
            let messages :=
              map (fun m => {| pm_role := m_role m;
                               pm_content := nl2br (m_content m) |})
                  msg_rows in
            (inl {| page_id := row_id chat_row;
                    page_chat_id := row_chat_id chat_row;
                    page_title := f_title (row_fields chat_row);
                    page_create_time := f_create_time (row_fields chat_row);
                    page_update_time := f_update_time (row_fields chat_row);
                    page_model := f_model (row_fields chat_row);
                    page_messages := messages;
                    page_css_prefix := py "../" |},
             w2)
        end
    end.

End StaticGen.


(* ================================================================== *)
(** * Definitions used to state the properties *)
(* ================================================================== *)

Module Spec.

(** The two roots of an export document the loader recognizes: a list,
    or an object that has the key [conversations]. *)
Definition recognized_root (data : json) : bool :=
  match data with
  | JList _ => true
  | JObj d => Dict.contains d (py "conversations")
  | _ => false
  end.

Definition is_obj (j : json) : bool :=
  match j with JObj _ => true | _ => false end.

Definition is_list (j : json) : bool :=
  match j with JList _ => true | _ => false end.

(** A node of the mapping that the loop can read: an object whose
    [message] is an object or a false value (the node is then skipped). *)
Definition node_ok (node : json) : bool :=
  match node with
  | JObj n =>
      let msg := Dict.get n (py "message") in
      is_obj msg || negb (truthy msg)
  | _ => false
  end.

(** The [message] of a node, as the loop reads it. *)
Definition node_message (node : json) : json :=
  match node with
  | JObj n => Dict.get n (py "message")
  | _ => JNull
  end.

(** The timestamp the sort reads from a message, when it is a number
    ([bool] counts as one, being a subclass of [int]). *)
Definition timestamp (raw : json) : option pyfloat :=
  match raw with
  | JObj r =>
      match Dict.get r (py "create_time") with
      | JInt z => Some (Finite (inject_Z z))
      | JFloat x => Some x
      | JBool b => Some (Finite (if b then 1 else 0))
      | _ => None
      end
  | _ => None
  end.

(** [a <= b] as numbers.  NaN is below nothing and above nothing. *)
Definition float_le (a b : pyfloat) : Prop :=
  match a, b with
  | NaN, _ | _, NaN => False
  | Infinity true, _ => True
  | _, Infinity true => False
  | _, Infinity false => True
  | Infinity false, _ => False
  | _, _ => (Parser.finite_value a <= Parser.finite_value b)%Q
  end.

(** [a == b] as numbers: the two zeros are equal, NaN equals nothing. *)
Definition float_eqb (a b : pyfloat) : bool :=
  match a, b with
  | NaN, _ | _, NaN => false
  | Infinity na, Infinity nb => Bool.eqb na nb
  | Infinity _, _ | _, Infinity _ => false
  | _, _ => Qeq_bool (Parser.finite_value a) (Parser.finite_value b)
  end.

(** The key of the messages without a numeric timestamp. *)
Definition zero : pyfloat := Finite 0.

(** No timestamp that the sort reads is NaN. *)
Definition no_nan (messages : list Parser.message) : Prop :=
  Forall (fun m => Parser.is_nan (Parser.msg_sort_key m) = false) messages.

(** Logical equality of two JSON values: the same keys and values at
    every nesting level, the items of an object in any order (lists keep
    their order). *)
#[local] Unset Elimination Schemes.
Inductive json_equiv : json -> json -> Prop :=
| equiv_null : json_equiv JNull JNull
| equiv_bool b : json_equiv (JBool b) (JBool b)
| equiv_int z : json_equiv (JInt z) (JInt z)
| equiv_float q : json_equiv (JFloat q) (JFloat q)
| equiv_str s : json_equiv (JStr s) (JStr s)
| equiv_list l1 l2 :
    Forall2 json_equiv l1 l2 -> json_equiv (JList l1) (JList l2)
| equiv_obj d1 d d2 :
    Permutation d1 d ->
    Forall2 (fun a b => fst a = fst b /\ json_equiv (snd a) (snd b)) d d2 ->
    json_equiv (JObj d1) (JObj d2).
#[local] Set Elimination Schemes.

End Spec.

(** What the sync step does, as the specification words it. *)
Module SyncSpec.
Import Store Ingest.

(** The state after a sequence of committed statements. *)
Definition run (stmts : list statement) (d : db) : db :=
  fold_left (fun d s => apply s d) stmts d.

(** A computation that sends [stmts], one transaction each, and returns
    [a]: with a budget of [k] round trips it commits the first [k]
    statements and raises at the next one; nothing is rolled back. *)
Definition committed {A} (stmts : list statement) (a : A) (d : db)
           (b : option nat) : result A * world :=
  match b with
  | None => (Ok a, {| store := run stmts d; budget := None |})
  | Some k =>
      if k <? length stmts
      then (Raise StorageError,
            {| store := run (firstn k stmts) d; budget := Some 0 |})
      else (Ok a,
            {| store := run stmts d; budget := Some (k - length stmts) |})
  end.

Definition commits {A} (m : M A) (d : db) (stmts : list statement) (a : A)
  : Prop :=
  forall b, m {| store := d; budget := b |} = committed stmts a d b.

(** The primary key: the [id]s of [chats] are pairwise distinct and below
    the next value of the sequence. *)
Definition wf_db (d : db) : Prop :=
  NoDup (map row_id (chats d))
  /\ Forall (fun r => (row_id r < next_id d)%Z) (chats d).

(** The fingerprint stored for an external id, if the lookup finds a row. *)
Definition stored_hash (d : db) (chat_id : json) : option pystr :=
  option_map (fun r => f_hash (row_fields r)) (select_chat d chat_id).

(** The external id of a raw chat record. *)
Definition external_id (raw_chat : json) : json :=
  match raw_chat with
  | JObj c => Dict.get c (py "id")
  | _ => JNull
  end.

(** The records the loop of [ingest_export] visits. *)
Definition export_chats (export_dir : list file) : list json :=
  match export_dir with
  | Document data :: _ =>
      match iterate (Parser.load_conversations_json data) with
      | Ok items => items
      | Raise _ => []
      end
  | _ => []
  end.

Definition lookups (chat_id : json) : list statement :=
  [SelectChat chat_id; SelectChat chat_id].

(** The statements of a run in which every chat is Unchanged. *)
Definition all_lookups (items : list json) : list statement :=
  flat_map (fun raw => lookups (external_id raw)) items.

Definition add_unchanged (k : nat) (c : counts) : counts :=
  {| new_count := new_count c;
     updated_count := updated_count c;
     unchanged_count := k + unchanged_count c |}.

Section WithFloatRepr.
Variable float_repr : pyfloat -> pystr.
Variable nan_order : Parser.sort_order.

(** The rows of the messages of a chat, with their positions from
    [index] on. *)
Fixpoint message_rows_from (index : nat) (chat_db_id : Z)
         (messages : list Parser.message) : list message_row :=
  match messages with
  | [] => []
  | msg :: rest =>
      message_row_of float_repr chat_db_id index msg
      :: message_rows_from (S index) chat_db_id rest
  end.

Definition message_rows (chat_db_id : Z) (messages : list Parser.message)
  : list message_row :=
  message_rows_from 0 chat_db_id messages.

(** New when the lookup finds no row, Unchanged when it finds one with
    the same fingerprint, Updated otherwise. *)
Definition sync_outcome (d : db) (n : Parser.chat) (h : pystr) : outcome :=
  match select_chat d (Parser.chat_id n) with
  | None => New
  | Some row =>
      if PyStr.eqb (f_hash (row_fields row)) h then Unchanged else Updated
  end.

(** The statements of the three cases, after the two lookups. *)
Definition sync_statements (d : db) (n : Parser.chat) (h : pystr)
  : list statement :=
  lookups (Parser.chat_id n)
  ++ match select_chat d (Parser.chat_id n) with
     | None =>
         InsertChat (Parser.chat_id n) (chat_columns float_repr n h)
         :: map InsertMessage (message_rows (next_id d) (Parser.messages n))
     | Some row =>
         if PyStr.eqb (f_hash (row_fields row)) h then []
         else
           UpdateChat (chat_columns float_repr n h) (row_id row)
           :: DeleteMessages (row_id row)
           :: map InsertMessage
                  (message_rows (row_id row) (Parser.messages n))
     end.

(** A raw chat whose fingerprint is the one stored for its id. *)
Definition synced (d : db) (raw_chat : json) : Prop :=
  exists n h p,
    Parser.normalize_chat nan_order raw_chat = Ok n
    /\ chat_fingerprint float_repr n = Ok h
    /\ title_prefix (Parser.title n) = Ok p
    /\ stored_hash d (Parser.chat_id n) = Some h.
End WithFloatRepr.

End SyncSpec.

(** Sample values, used where a property is shown on a concrete input. *)
Module Examples.

Definition no_floats : pyfloat -> pystr := fun _ => py "0.0".

(** A sort that leaves a list with a NaN key as it is. *)
Definition keep_order : Parser.sort_order := fun _ i => i.

(** [{"role": "user", "content": "hi"}] and the same with the keys the
    other way round. *)
Definition msg_rc : json :=
  JObj [(py "role", JStr (py "user")); (py "content", JStr (py "hi"))].
Definition msg_cr : json :=
  JObj [(py "content", JStr (py "hi")); (py "role", JStr (py "user"))].

Definition extra_model : json := JObj [(py "model", JStr (py "gpt-4"))].

(** A raw message with the identifier [id], and a mapping-shape chat
    around it: two exports of one chat whose message got a new id. *)
Definition raw_message (id : string) : dict :=
  [(py "id", JStr (PyStr.lit id));
   (py "author", JObj [(py "role", JStr (py "user"))]);
   (py "content", JObj [(py "parts", JList [JStr (py "hello")])])].

Definition raw_chat (id : string) : json :=
  JObj [(py "id", JStr (py "c1"));
        (py "title", JStr (py "T"));
        (py "mapping",
         JObj [(py "n1", JObj [(py "message", JObj (raw_message id))])])].

(** A normalized chat with the external id [c1] and one message, and a
    store that holds an earlier version of it under the internal id 1. *)
Definition one_message (text : string) : Parser.message :=
  {| Parser.msg_role := JStr (py "user");
     Parser.msg_content := PyStr.lit text;
     Parser.msg_raw_json := JObj [(py "content", JStr (PyStr.lit text))] |}.

Definition chat_c1 (text : string) : Parser.chat :=
  {| Parser.chat_id := JStr (py "c1");
     Parser.title := JStr (py "T");
     Parser.create_time := JNull;
     Parser.update_time := JNull;
     Parser.model := JNull;
     Parser.messages := [one_message text];
     Parser.raw_json :=
       JObj [(py "id", JStr (py "c1")); (py "title", JStr (py "T"));
             (py "messages",
              JList [JObj [(py "content", JStr (PyStr.lit text))]])] |}.

Definition stored_c1 : Store.db :=
  {| Store.chats :=
       [{| Store.row_id := 1;
           Store.row_chat_id := JStr (py "c1");
           Store.row_fields :=
             Ingest.chat_columns no_floats (chat_c1 "old text") (py "old") |}];
     Store.messages :=
       [Ingest.message_row_of no_floats 1 0 (one_message "old text")];
     Store.next_id := 2;
     Store.journal := [] |}.

Definition empty_db : Store.db :=
  {| Store.chats := []; Store.messages := []; Store.next_id := 1;
     Store.journal := [] |}.

(** A flat-list chat with the external id [id] and one message. *)
Definition flat_chat (id text : string) : json :=
  JObj [(py "id", JStr (PyStr.lit id));
        (py "title", JStr (py "T"));
        (py "messages",
         JList [JObj [(py "role", JStr (py "user"));
                      (py "content", JStr (PyStr.lit text))]])].

(** An export in which two records carry the same external id, and one
    in which the ids differ. *)
Definition export_same_id : list Ingest.file :=
  [Ingest.Document (JList [flat_chat "c1" "a"; flat_chat "c1" "b"])].

Definition export_two_ids : list Ingest.file :=
  [Ingest.Document (JList [flat_chat "c1" "a"; flat_chat "c2" "b"])].

(** A mapping whose messages carry the timestamps 100, 50, 75 and none. *)
Definition timed_message (ts : json) (text : string) : json :=
  JObj [(py "create_time", ts); (py "content", JStr (PyStr.lit text))].

Definition timed_mapping : dict :=
  [(py "n1", JObj [(py "message", timed_message (JInt 100) "c")]);
   (py "n2", JObj [(py "message", timed_message (JInt 50) "a")]);
   (py "n3", JObj [(py "message", timed_message (JInt 75) "b")]);
   (py "n4", JObj [(py "message", timed_message JNull "z")])].

Definition timed_chat : dict := [(py "mapping", JObj timed_mapping)].

Definition timed_normalized (ts : json) (text : string) : Parser.message :=
  {| Parser.msg_role := JStr (py "assistant");
     Parser.msg_content := PyStr.lit text;
     Parser.msg_raw_json := timed_message ts text |}.

Definition timed_sorted : list Parser.message :=
  [timed_normalized JNull "z"; timed_normalized (JInt 50) "a";
   timed_normalized (JInt 75) "b"; timed_normalized (JInt 100) "c"].

(** A mapping whose first message has no timestamp and whose second has
    the timestamp -5, and one with the timestamps 100, NaN and 50. *)
Definition negative_chat : dict :=
  [(py "mapping",
    JObj [(py "n1", JObj [(py "message", timed_message JNull "none")]);
          (py "n2", JObj [(py "message", timed_message (JInt (-5)) "neg")])])].

Definition nan_chat : dict :=
  [(py "mapping",
    JObj [(py "n1", JObj [(py "message", timed_message (JInt 100) "c")]);
          (py "n2", JObj [(py "message", timed_message (JFloat NaN) "x")]);
          (py "n3", JObj [(py "message", timed_message (JInt 50) "a")])])].

End Examples.

Module Facts.

(** A key that [strip_volatile_fields] removes. *)
Definition volatile (k : pystr) : bool :=
  existsb (PyStr.eqb k) Hashing.VOLATILE_MESSAGE_KEYS.

(** The items of a message that are hashed. *)
Definition stable_items (d : dict) : dict :=
  filter (fun kv => negb (volatile (fst kv))) d.

(** A code point that UTF-8 cannot encode: a surrogate. *)
Definition is_surrogate (c : N) : bool :=
  ((55296 <=? c) && (c <=? 57343))%N.

(** A lowercase hexadecimal digit. *)
Definition is_hex (c : N) : bool :=
  ((48 <=? c) && (c <=? 57) || (97 <=? c) && (c <=? 102))%N.

(** The character [c] occurs in a string of the value, a key or a string
    value at any depth. *)
Fixpoint has_char (c : N) (j : json) : bool :=
  match j with
  | JStr s => existsb (N.eqb c) s
  | JList l => existsb (has_char c) l
  | JObj d =>
      existsb (fun kv => existsb (N.eqb c) (fst kv) || has_char c (snd kv)) d
  | _ => false
  end.

(** A string without leading or trailing whitespace. *)
Definition stripped (s : pystr) : Prop := PyStr.strip s = s.

(** The non-empty trimmed contents, what [flatten_content] joins. *)
Definition content_parts (messages : list Parser.message) : list pystr :=
  filter (fun p => match p with [] => false | _ :: _ => true end)
         (map (fun m => PyStr.strip (Parser.msg_content m)) messages).

Import Store Ingest SyncSpec StaticGen.

(** The number of chats counted. *)
Definition total (c : counts) : nat :=
  new_count c + updated_count c + unchanged_count c.

(** What a computation may do to the world: commit some statements, one
    round trip each, within the budget. *)
Definition sends {A} (m : M A) : Prop :=
  forall w r w',
    m w = (r, w') ->
    exists stmts,
      store w' = run stmts (store w)
      /\ match budget w with
         | None => budget w' = None
         | Some k => length stmts <= k /\ budget w' = Some (k - length stmts)
         end.

(** The key columns of a row of [chats]. *)
Definition row_key (r : chat_row) : Z * json := (row_id r, row_chat_id r).

(** A title that cannot be sliced: a number ([bool] included). *)
Definition is_number (j : json) : bool :=
  match j with
  | JInt _ | JFloat _ | JBool _ => true
  | _ => false
  end.

(** What [nl2br] makes of one character. *)
Definition html_char (c : N) : pystr :=
  if (c =? 38)%N then py "&amp;"
  else if (c =? 60)%N then py "&lt;"
  else if (c =? 62)%N then py "&gt;"
  else if (c =? 10)%N then py "<br>" ++ Parser.newline
  else [c].

(** The only markup of an escaped text: the line break and the three
    entities. *)
Definition tokens : list pystr :=
  [py "<br>"; py "&amp;"; py "&lt;"; py "&gt;"].

Definition is_markup (c : N) : bool :=
  ((c =? 38) || (c =? 60) || (c =? 62))%N.

(** Every [&], [<] and [>] of [s] belongs to one of the [tokens].  [skip]
    counts the characters of the current token still to pass. *)
Fixpoint well_escaped_from (skip : nat) (s : pystr) : bool :=
  match s with
  | [] => true
  | c :: s' =>
      match skip with
      | S k => well_escaped_from k s'
      | O =>
          match find (fun t => starts_with t s) tokens with
          | Some t => well_escaped_from (length t - 1) s'
          | None => negb (is_markup c) && well_escaped_from 0 s'
          end
      end
  end.

Definition well_escaped (s : pystr) : bool := well_escaped_from 0 s.



(** A chat row with the internal id [id] exists. *)
Definition has_chat (d : db) (id : Z) : Prop :=
  In id (map row_id (chats d)).


(** No message row refers to an id that the sequence has not issued. *)
Definition wf_messages (d : db) : Prop :=
  Forall (fun m => (m_chat_id m < next_id d)%Z) (messages d).

(** Every message row belongs to a chat row. *)
Definition no_orphans (d : db) : Prop :=
  Forall (fun m => has_chat d (m_chat_id m)) (messages d).

(** A specification of a computation: from [P], a returned value and the
    store satisfy [Q]; when it raises, no message row is left without
    its chat. *)
Definition hoare {A} (P : db -> Prop) (m : M A) (Q : A -> db -> Prop)
  : Prop :=
  forall w r w',
    P (store w) -> m w = (r, w') ->
    match r with
    | Ok a => Q a (store w')
    | Raise _ => no_orphans (store w')
    end.

(** The keys of a raw chat that the fingerprint is computed from. *)
Definition fingerprint_keys : list pystr :=
  [py "title"; py "model"; py "mapping"; py "messages"].

End Facts.


Module Cases.

(** A chat whose title holds a lone surrogate (U+D83D), as [json.load]
    reads it from an escape that has lost its second half. *)
Definition broken_title : json :=
  JObj [(py "id", JStr (py "c9")); (py "title", JStr [55357%N])].

Definition broken_title_normalized : Parser.chat :=
  {| Parser.chat_id := JStr (py "c9");
     Parser.title := JStr [55357%N];
     Parser.create_time := JNull;
     Parser.update_time := JNull;
     Parser.model := JNull;
     Parser.messages := [];
     Parser.raw_json := broken_title |}.

(** A normalized chat with the external id [id] and the title [title],
    without messages. *)
Definition bare_chat (id title : json) : Parser.chat :=
  {| Parser.chat_id := id;
     Parser.title := title;
     Parser.create_time := JNull;
     Parser.update_time := JNull;
     Parser.model := JNull;
     Parser.messages := [];
     Parser.raw_json := JObj [] |}.

Definition fresh (b : option nat) : Store.world :=
  {| Store.store := Examples.empty_db; Store.budget := b |}.

(** A record without [id], and one whose title is a number. *)
Definition no_id_chat : json :=
  JObj [(py "title", JStr (py "T"));
        (py "messages",
         JList [JObj [(py "role", JStr (py "user"));
                      (py "content", JStr (py "hi"))]])].

Definition numeric_title_chat : json :=
  JObj [(py "id", JStr (py "c1")); (py "title", JInt 5)].

End Cases.

(* ================================================================== *)
(** * Properties *)
(* ================================================================== *)

(** ** Strings and dicts *)

Lemma eqb_eq (a b : pystr) : PyStr.eqb a b = true <-> a = b.
Proof.
  unfold PyStr.eqb. destruct (list_eq_dec N.eq_dec a b); split; congruence.
Qed.

Lemma eqb_refl (a : pystr) : PyStr.eqb a a = true.
Proof. now apply eqb_eq. Qed.

Lemma eqb_neq (a b : pystr) : PyStr.eqb a b = false <-> a <> b.
Proof.
  unfold PyStr.eqb. destruct (list_eq_dec N.eq_dec a b); split; congruence.
Qed.



(** ** SHA-256 test vectors (FIPS 180-4, appendix B) *)

Example sha256_abc :
  Sha256.hexdigest (py "abc")
  = py "ba7816bf8f01cfea414140de5dae2223b00361a396177a9cb410ff61f20015ad".
Proof. vm_compute. reflexivity. Qed.

Example sha256_empty :
  Sha256.hexdigest []
  = py "e3b0c44298fc1c149afbf4c8996fb92427ae41e4649b934ca495991b7852b855".
Proof. vm_compute. reflexivity. Qed.

Example sha256_two_blocks :
  Sha256.hexdigest (py "abcdbcdecdefdefgefghfghighijhijkijkljklmklmnlmnomnopnopq")
  = py "248d6a61d20638b8e5c026930c3e6039a33ce45964ff2167f6ecedd419db06c1".
Proof. vm_compute. reflexivity. Qed.

(** ** Content extraction *)


(** ** Normalization never raises on well-shaped records *)

Lemma extract_message_role_total (m : dict) :
  exists role, Parser.extract_message_role (JObj m) = Ok role.
Proof.
  unfold Parser.extract_message_role.
  destruct (Dict.get m (py "author")) as [| | | | | |author]; eauto.
  destruct (Dict.get author (py "role")); eauto.
Qed.

Lemma extract_message_content_total (m : dict) :
  exists text, Parser.extract_message_content (JObj m) = Ok text.
Proof.
  unfold Parser.extract_message_content.
  destruct (Dict.get m (py "content")) as [| | | | |l|o]; eauto.
  destruct (Dict.get o (py "parts")); eauto;
    destruct (Dict.contains o (py "text"));
    destruct (Dict.get o (py "text")); eauto.
Qed.

Lemma normalize_message_total (m : dict) :
  exists msg, Parser.normalize_message (JObj m) = Ok msg
              /\ Parser.msg_raw_json msg = JObj m.
Proof.
  unfold Parser.normalize_message.
  destruct (extract_message_role_total m) as [role ->].
  destruct (extract_message_content_total m) as [text ->].
  simpl. eauto.
Qed.

Lemma normalize_message_raw (msg : json) (m : Parser.message) :
  Parser.normalize_message msg = Ok m ->
  Parser.msg_raw_json m = msg /\ Spec.is_obj msg = true.
Proof.
  unfold Parser.normalize_message. intros H.
  destruct msg; try discriminate.
  destruct (Parser.extract_message_role (JObj d)); try discriminate.
  destruct (Parser.extract_message_content (JObj d)); try discriminate.
  simpl in H. injection H as <-. auto.
Qed.

Lemma collect_mapping_total (nodes : list json) :
  forallb Spec.node_ok nodes = true ->
  exists ms, Parser.collect_mapping nodes = Ok ms.
Proof.
  induction nodes as [|node nodes IH]; simpl; intros H; [eauto|].
  apply andb_true_iff in H as [Hn Hrest].
  destruct (IH Hrest) as [ms Hms].
  destruct node as [| | | | | |n]; try discriminate.
  simpl in Hn.
  destruct (truthy (Dict.get n (py "message"))) eqn:Ht; simpl; [|eauto].
  rewrite orb_false_r in Hn.
  destruct (Dict.get n (py "message")) as [| | | | | |m]; try discriminate.
  destruct (normalize_message_total m) as [msg [-> _]].
  rewrite Hms. simpl. eauto.
Qed.

Lemma rmap_normalize_total (l : list json) :
  forallb Spec.is_obj l = true ->
  exists ms, rmap Parser.normalize_message l = Ok ms.
Proof.
  induction l as [|x l IH]; simpl; intros H; [eauto|].
  apply andb_true_iff in H as [Hx Hl].
  destruct (IH Hl) as [ms Hms].
  destruct x; try discriminate.
  destruct (normalize_message_total d) as [msg [-> _]].
  rewrite Hms. simpl. eauto.
Qed.

(** C6, as the code has it.  [normalize_chat] returns a normalized chat
    for every record (an object) whose mapping nodes are objects carrying
    an object or a false value as [message], or, without a mapping, whose
    listed messages are objects; a record of neither shape gives zero
    messages.  The shapes of author, role and content never matter. *)
Theorem C6_normalize_chat_returns (nan_order : Parser.sort_order) (c : dict) :
  (forall mapping,
      Dict.get c (py "mapping") = JObj mapping ->
      forallb Spec.node_ok (map snd mapping) = true) ->
  (forall l,
      Spec.is_obj (Dict.get c (py "mapping")) = false ->
      Dict.get c (py "messages") = JList l ->
      forallb Spec.is_obj l = true) ->
  exists n,
    Parser.normalize_chat nan_order (JObj c) = Ok n
    /\ Parser.raw_json n = JObj c
    /\ (Spec.is_obj (Dict.get c (py "mapping")) = false ->
        Spec.is_list (Dict.get c (py "messages")) = false ->
        Parser.messages n = []).
Proof.
  intros Hmap Hlist.
  unfold Parser.normalize_chat, Parser.extract_messages_from_chat.
  destruct (Dict.get c (py "mapping")) as [| | | | | |mapping] eqn:Em.
  7: { destruct (collect_mapping_total _ (Hmap mapping eq_refl)) as [ms ->].
       simpl. eexists. repeat split. discriminate. }
  all: destruct (Dict.get c (py "messages")) as [| | | | |msgs|] eqn:El;
    try (simpl; eexists; repeat split; fail).
  all: destruct (rmap_normalize_total msgs (Hlist msgs eq_refl eq_refl))
    as [ms ->];
    simpl; eexists; repeat split; discriminate.
Qed.

Lemma C6_normalize_chat_returns_witness :
  exists n,
    Parser.normalize_chat Examples.keep_order
      (JObj [(py "id", JStr (py "c1"));
             (py "mapping",
              JObj [(py "root", JObj [(py "message", JNull)]);
                    (py "n1",
                     JObj [(py "message",
                           JObj [(py "author", JInt 7);
                                 (py "content", JList [])])])])])
    = Ok n
    /\ Parser.raw_json n
       = JObj [(py "id", JStr (py "c1"));
               (py "mapping",
                JObj [(py "root", JObj [(py "message", JNull)]);
                      (py "n1",
                       JObj [(py "message",
                             JObj [(py "author", JInt 7);
                                   (py "content", JList [])])])])]
    /\ (Spec.is_obj
          (Dict.get
             [(py "id", JStr (py "c1"));
              (py "mapping",
               JObj [(py "root", JObj [(py "message", JNull)]);
                     (py "n1",
                      JObj [(py "message",
                            JObj [(py "author", JInt 7);
                                  (py "content", JList [])])])])]
             (py "mapping")) = false ->
        Spec.is_list
          (Dict.get
             [(py "id", JStr (py "c1"));
              (py "mapping",
               JObj [(py "root", JObj [(py "message", JNull)]);
                     (py "n1",
                      JObj [(py "message",
                            JObj [(py "author", JInt 7);
                                  (py "content", JList [])])])])]
             (py "messages")) = false ->
        Parser.messages n = []).
Proof.
  apply C6_normalize_chat_returns.
  - intros mapping H. vm_compute in H. injection H as <-. reflexivity.
  - intros l H. vm_compute in H. discriminate.
Defined.

(** C6 as stated fails: a mapping node that is not an object, a message
    entry of the flat list that is not an object, and a node whose message
    is a non-empty string all raise [AttributeError]. *)
Lemma C6_counterexample :
  (forall nan_order,
      Parser.normalize_chat nan_order
        (JObj [(py "id", JStr (py "c1"));
               (py "mapping", JObj [(py "n1", JNull)])])
      = Raise AttributeError)
  /\ (forall nan_order,
         Parser.normalize_chat nan_order
           (JObj [(py "id", JStr (py "c1"));
                  (py "messages", JList [JStr (py "hi")])])
         = Raise AttributeError)
  /\ (forall nan_order,
         Parser.normalize_chat nan_order
           (JObj [(py "id", JStr (py "c1"));
                  (py "mapping",
                   JObj [(py "n1", JObj [(py "message", JStr (py "hi"))])])])
         = Raise AttributeError).
Proof. repeat split. Qed.

(** ** The export document *)

(** C10, as the code has it.  The run fails when the glob finds no
    [conversations.json] or when the file is not JSON; when the file
    parses and its root is neither a list nor an object with the key
    [conversations], it completes with zero records and touches nothing. *)
Theorem C10_unrecognized_root_completes
        (float_repr : pyfloat -> pystr) (nan_order : Parser.sort_order) :
  (forall w, Ingest.ingest_export float_repr nan_order [] w
             = (Raise FileNotFoundError, w))
  /\ (forall rest w,
         Ingest.ingest_export float_repr nan_order (Ingest.NotJson :: rest) w
         = (Raise JSONDecodeError, w))
  /\ (forall data rest w,
         Spec.recognized_root data = false ->
         Ingest.ingest_export float_repr nan_order
           (Ingest.Document data :: rest) w
         = (Ok Ingest.zero_counts, w)).
Proof.
  repeat split.
  intros data rest w H.
  unfold Ingest.ingest_export, Store.bind, Store.lift. simpl.
  destruct data as [| | | | |l|d]; simpl in *; try reflexivity.
  - discriminate.
  - rewrite H. reflexivity.
Qed.

Lemma C10_unrecognized_root_completes_witness :
  Ingest.ingest_export (fun _ => []) (fun _ i => i)
    [Ingest.Document (JObj [(py "chats", JList [])])]
    {| Store.store := {| Store.chats := []; Store.messages := [];
                         Store.next_id := 1; Store.journal := [] |};
       Store.budget := None |}
  = (Ok Ingest.zero_counts,
     {| Store.store := {| Store.chats := []; Store.messages := [];
                          Store.next_id := 1; Store.journal := [] |};
        Store.budget := None |}).
Proof.
  apply (C10_unrecognized_root_completes (fun _ => []) (fun _ i => i)).
  reflexivity.
Defined.

(** C10 as stated fails: a document whose root is an object without the
    key [conversations] (or a number) is not recognized, and the run
    completes with zero records. *)
Lemma C10_counterexample :
  Spec.recognized_root (JObj [(py "chats", JList [])]) = false
  /\ Spec.recognized_root (JInt 5) = false
  /\ (forall float_repr nan_order w,
         Ingest.ingest_export float_repr nan_order
           [Ingest.Document (JObj [(py "chats", JList [])])] w
         = (Ok Ingest.zero_counts, w))
  /\ (forall float_repr nan_order w,
         Ingest.ingest_export float_repr nan_order [Ingest.Document (JInt 5)] w
         = (Ok Ingest.zero_counts, w)).
Proof. repeat split. Qed.


(** ** The stable sort *)

Section SortFacts.
Variables (A K : Type) (key : A -> K) (lt : K -> K -> bool).

Lemma insert_by_perm (x : A) (l : list A) :
  Permutation (x :: l) (insert_by key lt x l).
Proof.
  induction l as [|y l IH]; simpl; [reflexivity|].
  destruct (lt (key y) (key x)); [|reflexivity].
  rewrite perm_swap. now apply perm_skip.
Qed.

Lemma sort_by_perm (l : list A) : Permutation l (sort_by key lt l).
Proof.
  induction l as [|x l IH]; simpl; [reflexivity|].
  rewrite <- insert_by_perm. now apply perm_skip.
Qed.

(** [a] may stand before [b]. *)
Definition key_le (a b : A) : Prop := lt (key b) (key a) = false.

Hypothesis lt_asym : forall a b, lt a b = true -> lt b a = false.
Hypothesis le_trans :
  forall a b c, lt b a = false -> lt c b = false -> lt c a = false.

Lemma insert_by_sorted (x : A) (l : list A) :
  StronglySorted key_le l -> StronglySorted key_le (insert_by key lt x l).
Proof.
  induction 1 as [|y l Hs IH Hy]; simpl.
  - repeat constructor.
  - destruct (lt (key y) (key x)) eqn:E.
    + constructor; [exact IH|].
      rewrite <- insert_by_perm. constructor; [|exact Hy].
      now apply lt_asym.
    + constructor; [now constructor|].
      constructor; [exact E|].
      eapply Forall_impl; [|exact Hy].
      intros z Hz. unfold key_le in *. eapply le_trans; eassumption.
Qed.

Lemma sort_by_sorted (l : list A) : StronglySorted key_le (sort_by key lt l).
Proof.
  induction l as [|x l IH]; simpl; [constructor|].
  now apply insert_by_sorted.
Qed.

(** Stability: the elements of one class of equal keys keep their order. *)
Variable same : A -> bool.
Hypothesis same_not_lt :
  forall x y, same x = true -> same y = true -> lt (key y) (key x) = false.

Lemma insert_by_filter (x : A) (l : list A) :
  filter same (insert_by key lt x l)
  = if same x then x :: filter same l else filter same l.
Proof.
  induction l as [|y l IH]; simpl.
  - destruct (same x); reflexivity.
  - destruct (lt (key y) (key x)) eqn:E; simpl.
    + rewrite IH. destruct (same x) eqn:Ex; [|reflexivity].
      destruct (same y) eqn:Ey; [|reflexivity].
      rewrite (same_not_lt Ex Ey) in E. discriminate.
    + destruct (same x); reflexivity.
Qed.

Lemma sort_by_stable (l : list A) :
  filter same (sort_by key lt l) = filter same l.
Proof.
  induction l as [|x l IH]; simpl; [reflexivity|].
  rewrite insert_by_filter, IH. reflexivity.
Qed.
End SortFacts.

(** The same order, when [lt] orders only the keys that are [ok]. *)
Section SortOn.
Variables (A K : Type) (key : A -> K) (lt : K -> K -> bool) (ok : K -> Prop).
Hypothesis lt_asym : forall a b, lt a b = true -> lt b a = false.
Hypothesis le_trans_on :
  forall a b c, ok a -> ok b -> ok c ->
                lt b a = false -> lt c b = false -> lt c a = false.

Lemma insert_by_sorted_on (x : A) (l : list A) :
  ok (key x) -> Forall (fun y => ok (key y)) l ->
  StronglySorted (key_le key lt) l ->
  StronglySorted (key_le key lt) (insert_by key lt x l).
Proof.
  intros Hx Hok Hs. induction Hs as [|y l Hs IH Hy]; simpl.
  - repeat constructor.
  - inversion Hok as [|? ? Hoky Hokl]; subst.
    destruct (lt (key y) (key x)) eqn:E.
    + constructor; [now apply IH|].
      rewrite <- insert_by_perm. constructor; [|exact Hy].
      unfold key_le. now apply lt_asym.
    + constructor; [now constructor|].
      constructor; [exact E|].
      rewrite Forall_forall in *. intros z Hz.
      unfold key_le in *.
      apply (le_trans_on (a := key x) (b := key y) (c := key z)); auto.
Qed.

Lemma sort_by_sorted_on (l : list A) :
  Forall (fun y => ok (key y)) l ->
  StronglySorted (key_le key lt) (sort_by key lt l).
Proof.
  induction 1 as [|x l Hx Hl IH]; simpl; [constructor|].
  apply insert_by_sorted_on; auto.
  eapply Permutation_Forall; [apply sort_by_perm | exact Hl].
Qed.
End SortOn.

Lemma map_snd_combine (A B : Type) (l : list A) :
  forall l' : list B, length l = length l' -> map snd (combine l l') = l'.
Proof.
  induction l as [|x l IH]; intros [|y l'] H; simpl in *; try discriminate;
    [reflexivity|].
  f_equal. apply IH. now injection H.
Qed.

(** In an ordered list every element stands after those before it and
    before those after it. *)
Lemma StronglySorted_middle (A : Type) (R : A -> A -> Prop)
      (before after : list A) (m : A) :
  StronglySorted R (before ++ m :: after) ->
  Forall (fun x => R x m) before /\ Forall (R m) after.
Proof.
  induction before as [|x before IH]; simpl; intros H;
    inversion H as [|? ? Hs Hf]; subst.
  - split; [constructor | exact Hf].
  - destruct (IH Hs) as [Hb Ha]. split; [|exact Ha].
    constructor; [|exact Hb].
    rewrite Forall_forall in Hf. apply Hf, in_or_app. right. now left.
Qed.


(** ** Message order *)

Lemma Qltb_false (a b : Q) : Parser.Qltb b a = false <-> (a <= b)%Q.
Proof.
  unfold Parser.Qltb. rewrite negb_false_iff. apply Qle_bool_iff.
Qed.

Lemma Qltb_asym (a b : Q) :
  Parser.Qltb a b = true -> Parser.Qltb b a = false.
Proof.
  unfold Parser.Qltb. rewrite negb_true_iff, negb_false_iff.
  intros H. apply Qle_bool_iff.
  destruct (Qlt_le_dec a b) as [Hlt|Hle].
  - now apply Qlt_le_weak.
  - apply Qle_bool_iff in Hle. congruence.
Qed.

Lemma Qltb_le_trans (a b c : Q) :
  Parser.Qltb b a = false -> Parser.Qltb c b = false ->
  Parser.Qltb c a = false.
Proof.
  rewrite !Qltb_false. intros. now apply Qle_trans with b.
Qed.

Lemma Qeq_class_not_lt (k a b : Q) :
  Qeq_bool a k = true -> Qeq_bool b k = true -> Parser.Qltb b a = false.
Proof.
  intros Ha Hb. apply Qeq_bool_iff in Ha, Hb. apply Qltb_false.
  rewrite Ha, Hb. apply Qle_refl.
Qed.

(** The [<] of the keys, on keys that are not NaN, is the strict part of
    the order of the numbers. *)
Lemma float_ltb_false (a b : pyfloat) :
  Parser.is_nan a = false -> Parser.is_nan b = false ->
  Parser.float_ltb b a = false <-> Spec.float_le a b.
Proof.
  intros Ha Hb.
  destruct a as [p| |na|], b as [q| |nb|];
    try discriminate Ha; try discriminate Hb;
    simpl; try apply Qltb_false;
    try destruct na; try destruct nb; simpl; split; intros H; auto;
    try discriminate H; try contradiction.
Qed.

Lemma float_ltb_asym (a b : pyfloat) :
  Parser.float_ltb a b = true -> Parser.float_ltb b a = false.
Proof.
  destruct a as [p| |na|], b as [q| |nb|]; simpl;
    try apply Qltb_asym; try destruct na; try destruct nb; simpl; auto;
    discriminate.
Qed.

Lemma float_le_trans (a b c : pyfloat) :
  Spec.float_le a b -> Spec.float_le b c -> Spec.float_le a c.
Proof.
  destruct a as [p| |na|], b as [q| |nb|], c as [r| |nc|]; simpl;
    try tauto; try (intros; eapply Qle_trans; eassumption);
    try destruct na; try destruct nb; try destruct nc; simpl; tauto.
Qed.

Lemma float_ltb_le_trans (a b c : pyfloat) :
  Parser.is_nan a = false -> Parser.is_nan b = false ->
  Parser.is_nan c = false ->
  Parser.float_ltb b a = false -> Parser.float_ltb c b = false ->
  Parser.float_ltb c a = false.
Proof.
  intros Ha Hb Hc H1 H2.
  apply float_ltb_false in H1; auto. apply float_ltb_false in H2; auto.
  apply float_ltb_false; auto. now apply float_le_trans with b.
Qed.

Lemma float_eq_class_not_lt (k a b : pyfloat) :
  Spec.float_eqb a k = true -> Spec.float_eqb b k = true ->
  Parser.float_ltb b a = false.
Proof.
  destruct a as [p| |na|], b as [q| |nb|], k as [r| |nk|]; simpl;
    try apply Qeq_class_not_lt;
    try destruct na; try destruct nb; try destruct nk; simpl;
    intros H1 H2; auto; try discriminate H1; try discriminate H2.
Qed.

(** Whatever the keys, the sort arranges the messages it is given. *)
Lemma sort_messages_perm (nan_order : Parser.sort_order)
      (l : list Parser.message) :
  Permutation l (Parser.sort_messages nan_order l).
Proof.
  unfold Parser.sort_messages.
  destruct (existsb Parser.is_nan (map Parser.msg_sort_key l));
    [|apply sort_by_perm].
  rewrite <- (sort_by_perm fst Nat.ltb).
  rewrite map_snd_combine; [reflexivity|].
  now rewrite length_map, length_seq.
Qed.

(** A list of two or more messages with a NaN key is not ordered by key. *)
Lemma nan_never_ordered (l : list Parser.message) (m : Parser.message) :
  In m l -> Parser.msg_sort_key m = NaN -> 2 <= length l ->
  ~ StronglySorted
      (fun a b => Spec.float_le (Parser.msg_sort_key a)
                                (Parser.msg_sort_key b)) l.
Proof.
  intros Hin Hm Hlen Hs.
  destruct Hs as [|x l Hs Hx]; [contradiction|].
  destruct Hin as [->|Hin].
  - destruct l as [|y l]; [simpl in Hlen; lia|].
    inversion Hx as [|? ? Hy _]; subst. now rewrite Hm in Hy.
  - rewrite Forall_forall in Hx. specialize (Hx _ Hin).
    rewrite Hm in Hx. now destruct (Parser.msg_sort_key x) as [| |[]|].
Qed.

Lemma no_nan_existsb (l : list Parser.message) :
  Spec.no_nan l ->
  existsb Parser.is_nan (map Parser.msg_sort_key l) = false.
Proof.
  induction 1 as [|m l Hm _ IH]; simpl; [reflexivity|].
  now rewrite Hm, IH.
Qed.

Lemma sort_messages_ordered (nan_order : Parser.sort_order)
      (l : list Parser.message) :
  Spec.no_nan l ->
  Parser.sort_messages nan_order l
  = sort_by Parser.msg_sort_key Parser.float_ltb l.
Proof.
  intros H. unfold Parser.sort_messages. now rewrite no_nan_existsb.
Qed.

Lemma collect_mapping_raw (nodes : list json) (ms : list Parser.message) :
  Parser.collect_mapping nodes = Ok ms ->
  map Parser.msg_raw_json ms = filter truthy (map Spec.node_message nodes).
Proof.
  revert ms. induction nodes as [|node nodes IH]; simpl; intros ms H.
  - injection H as <-. reflexivity.
  - destruct node as [| | | | | |n]; try discriminate. simpl.
    destruct (truthy (Dict.get n (py "message"))) eqn:Ht; simpl in H.
    + destruct (Parser.normalize_message (Dict.get n (py "message")))
        as [m|] eqn:Em; try discriminate.
      destruct (Parser.collect_mapping nodes) as [ms'|]; try discriminate.
      simpl in H. injection H as <-. simpl.
      apply normalize_message_raw in Em as [-> _].
      now rewrite (IH ms' eq_refl).
    + auto.
Qed.

(** Every message that reaches the sort is a dict. *)
Lemma collect_mapping_raw_dict (nodes : list json) (ms : list Parser.message) :
  Parser.collect_mapping nodes = Ok ms ->
  Forall (fun m => Spec.is_obj (Parser.msg_raw_json m) = true) ms.
Proof.
  revert ms. induction nodes as [|node nodes IH]; simpl; intros ms H.
  - injection H as <-. constructor.
  - destruct node as [| | | | | |n]; try discriminate.
    destruct (truthy (Dict.get n (py "message"))); simpl in H; [|auto].
    destruct (Parser.normalize_message (Dict.get n (py "message")))
      as [m|] eqn:Em; try discriminate.
    destruct (Parser.collect_mapping nodes) as [ms'|]; try discriminate.
    simpl in H. injection H as <-.
    apply normalize_message_raw in Em as [Hraw Hobj].
    constructor; [now rewrite Hraw | now apply IH].
Qed.

Lemma rmap_normalize_raw (l : list json) (ms : list Parser.message) :
  rmap Parser.normalize_message l = Ok ms ->
  map Parser.msg_raw_json ms = l.
Proof.
  revert ms. induction l as [|x l IH]; simpl; intros ms H.
  - injection H as <-. reflexivity.
  - destruct (Parser.normalize_message x) as [m|] eqn:Em; try discriminate.
    destruct (rmap Parser.normalize_message l) as [ms'|]; try discriminate.
    simpl in H. injection H as <-. simpl.
    apply normalize_message_raw in Em as [-> _].
    now rewrite (IH ms' eq_refl).
Qed.

(** C7, as the code has it.  For a mapping-shape record the normalized
    messages are the messages of the nodes (those with a true [message],
    in the order of the mapping), rearranged by the sort.  When no
    timestamp is NaN they are ordered by the sort key ascending, and the
    messages of one key keep their encounter order; the key is the numeric
    [create_time] and 0 when there is none, so a message without timestamp
    stands after the messages with a negative timestamp and before those
    with a positive one.  For a flat-list record the messages are those of
    the list, in its order. *)
Theorem C7_message_order
        (nan_order : Parser.sort_order) (c : dict)
        (ms : list Parser.message) :
  Parser.extract_messages_from_chat nan_order (JObj c) = Ok ms ->
  (forall mapping,
      Dict.get c (py "mapping") = JObj mapping ->
      exists collected,
        Parser.collect_mapping (map snd mapping) = Ok collected
        /\ map Parser.msg_raw_json collected
           = filter truthy (map Spec.node_message (map snd mapping))
        /\ Permutation collected ms
        /\ (Spec.no_nan collected ->
            StronglySorted
              (fun a b => Spec.float_le (Parser.msg_sort_key a)
                                        (Parser.msg_sort_key b))
              ms
            /\ (forall k,
                   filter (fun m => Spec.float_eqb (Parser.msg_sort_key m) k)
                          ms
                   = filter (fun m =>
                               Spec.float_eqb (Parser.msg_sort_key m) k)
                            collected)
            /\ (forall before m after,
                   ms = before ++ m :: after ->
                   Spec.timestamp (Parser.msg_raw_json m) = None ->
                   Forall (fun x => Spec.float_le (Parser.msg_sort_key x)
                                                  Spec.zero) before
                   /\ Forall (fun x => Spec.float_le Spec.zero
                                                     (Parser.msg_sort_key x))
                             after)))
  /\ (forall l,
         Spec.is_obj (Dict.get c (py "mapping")) = false ->
         Dict.get c (py "messages") = JList l ->
         map Parser.msg_raw_json ms = l)
  /\ (forall m,
         Parser.msg_sort_key m
         = match Spec.timestamp (Parser.msg_raw_json m) with
           | Some t => t
           | None => Spec.zero
           end).
Proof.
  intros H. unfold Parser.extract_messages_from_chat in H.
  assert (Hkey : forall m,
             Parser.msg_sort_key m
             = match Spec.timestamp (Parser.msg_raw_json m) with
               | Some t => t
               | None => Spec.zero
               end).
  { intros m. unfold Parser.msg_sort_key, Spec.timestamp, Spec.zero.
    destruct (Parser.msg_raw_json m) as [| | | | | |r]; try reflexivity.
    destruct (Dict.get r (py "create_time")); reflexivity. }
  split; [|split; [|exact Hkey]].
  - intros mapping Em. rewrite Em in H.
    destruct (Parser.collect_mapping (map snd mapping)) as [collected|] eqn:Ec;
      try discriminate.
    simpl in H. injection H as <-.
    exists collected. split; [reflexivity|].
    split; [now apply collect_mapping_raw|].
    split; [apply sort_messages_perm|].
    intros Hnan. rewrite (sort_messages_ordered nan_order Hnan).
    assert (Hsorted :
              StronglySorted
                (fun a b => Spec.float_le (Parser.msg_sort_key a)
                                          (Parser.msg_sort_key b))
                (sort_by Parser.msg_sort_key Parser.float_ltb collected)).
    { assert (Hs : Spec.no_nan
                     (sort_by Parser.msg_sort_key Parser.float_ltb collected))
        by (eapply Permutation_Forall; [apply sort_by_perm | exact Hnan]).
      pose proof (sort_by_sorted_on Parser.msg_sort_key Parser.float_ltb
                    (fun k => Parser.is_nan k = false)
                    float_ltb_asym float_ltb_le_trans Hnan) as Hk.
      unfold Spec.no_nan in Hs.
      revert Hs Hk.
      generalize (sort_by Parser.msg_sort_key Parser.float_ltb collected).
      intros l Hs Hk. induction Hk as [|x l Hk IH Hx]; constructor.
      - apply IH. now inversion Hs.
      - inversion Hs as [|? ? Hxn Hl]; subst.
        rewrite Forall_forall in *. intros y Hy.
        apply float_ltb_false; auto. apply (Hx y Hy). }
    split; [exact Hsorted|]. split.
    + intros k. apply sort_by_stable.
      intros x y. apply float_eq_class_not_lt.
    + intros before m after E Hts. rewrite E in Hsorted.
      apply StronglySorted_middle in Hsorted as [Hb Ha].
      assert (Hm : Parser.msg_sort_key m = Spec.zero)
        by (rewrite Hkey, Hts; reflexivity).
      rewrite Hm in Hb, Ha. split; assumption.
  - intros l Hm El.
    destruct (Dict.get c (py "mapping")); try discriminate;
      rewrite El in H; now apply rmap_normalize_raw.
Qed.

Lemma C7_message_order_witness :
  exists collected,
    Parser.collect_mapping (map snd Examples.timed_mapping) = Ok collected
    /\ map Parser.msg_raw_json collected
       = filter truthy
           (map Spec.node_message (map snd Examples.timed_mapping))
    /\ Permutation collected Examples.timed_sorted
    /\ StronglySorted
         (fun a b => Spec.float_le (Parser.msg_sort_key a)
                                   (Parser.msg_sort_key b))
         Examples.timed_sorted.
Proof.
  destruct (proj1 (C7_message_order Examples.keep_order Examples.timed_chat
                     (ms := Examples.timed_sorted) eq_refl)
                  Examples.timed_mapping eq_refl)
    as [collected [Hc [Hraw [Hp Hs]]]].
  exists collected. split; [exact Hc|]. split; [exact Hraw|].
  split; [exact Hp|]. apply Hs.
  injection Hc as <-. repeat constructor.
Defined.

(** C7 as stated fails.  A message without timestamp does not sort first:
    one with a negative timestamp stands before it.  And with a NaN among
    the timestamps (a literal that [json.load] accepts) the messages are
    not ordered by timestamp, however the sort arranges them; a sort that
    leaves such a list as it is gives 100, NaN, 50. *)
Lemma C7_counterexample :
  (forall nan_order,
      Parser.extract_messages_from_chat nan_order
        (JObj Examples.negative_chat)
      = Ok [Examples.timed_normalized (JInt (-5)) "neg";
            Examples.timed_normalized JNull "none"])
  /\ Spec.timestamp
       (Parser.msg_raw_json (Examples.timed_normalized JNull "none")) = None
  /\ Parser.extract_messages_from_chat Examples.keep_order
       (JObj Examples.nan_chat)
     = Ok [Examples.timed_normalized (JInt 100) "c";
           Examples.timed_normalized (JFloat NaN) "x";
           Examples.timed_normalized (JInt 50) "a"]
  /\ (forall nan_order ms,
         Parser.extract_messages_from_chat nan_order (JObj Examples.nan_chat)
         = Ok ms ->
         ~ StronglySorted
             (fun a b => Spec.float_le (Parser.msg_sort_key a)
                                       (Parser.msg_sort_key b))
             ms).
Proof.
  split; [intros nan_order; reflexivity|].
  split; [reflexivity|]. split; [reflexivity|].
  intros nan_order ms H.
  unfold Parser.extract_messages_from_chat in H. simpl in H.
  injection H as <-.
  apply nan_never_ordered
    with (m := Examples.timed_normalized (JFloat NaN) "x").
  - eapply Permutation_in; [apply sort_messages_perm|].
    right. left. reflexivity.
  - reflexivity.
  - rewrite <- (Permutation_length (sort_messages_perm nan_order _)).
    simpl. lia.
Qed.

(** ** The order of keys *)

Lemma ltb_irrefl (a : pystr) : PyStr.ltb a a = false.
Proof.
  induction a as [|x a IH]; simpl; [reflexivity|].
  now rewrite N.ltb_irrefl.
Qed.

Lemma ltb_antisym (a b : pystr) :
  PyStr.ltb a b = false -> PyStr.ltb b a = false -> a = b.
Proof.
  revert b. induction a as [|x a IH]; intros [|y b]; simpl;
    try discriminate; [reflexivity|].
  destruct (N.ltb_spec x y), (N.ltb_spec y x); try discriminate.
  intros H1 H2. f_equal; [lia | auto].
Qed.

Lemma ltb_asym (a b : pystr) :
  PyStr.ltb a b = true -> PyStr.ltb b a = false.
Proof.
  revert b. induction a as [|x a IH]; intros [|y b]; simpl;
    try discriminate; [reflexivity|].
  destruct (N.ltb_spec x y), (N.ltb_spec y x); try discriminate;
    try reflexivity; try lia. auto.
Qed.

Lemma ltb_trans (a b c : pystr) :
  PyStr.ltb a b = true -> PyStr.ltb b c = true -> PyStr.ltb a c = true.
Proof.
  revert b c. induction a as [|x a IH]; intros [|y b] [|z c]; simpl;
    try discriminate; try reflexivity.
  destruct (N.ltb_spec x y), (N.ltb_spec y x), (N.ltb_spec y z),
    (N.ltb_spec z y), (N.ltb_spec x z), (N.ltb_spec z x);
    try discriminate; try reflexivity; try lia.
  apply IH.
Qed.

Lemma ltb_le_trans (a b c : pystr) :
  PyStr.ltb b a = false -> PyStr.ltb c b = false -> PyStr.ltb c a = false.
Proof.
  intros Hab Hbc. destruct (PyStr.ltb c a) eqn:Hca; [|reflexivity].
  destruct (PyStr.ltb a b) eqn:E.
  - rewrite (ltb_trans _ _ _ Hca E) in Hbc. discriminate.
  - rewrite (ltb_antisym _ _ E Hab) in Hca. congruence.
Qed.

Section SortedUnique.
Variables (A K : Type) (key : A -> K) (lt : K -> K -> bool).
Hypothesis lt_asym : forall a b, lt a b = true -> lt b a = false.
Hypothesis le_trans :
  forall a b c, lt b a = false -> lt c b = false -> lt c a = false.
Hypothesis lt_antisym : forall a b, lt a b = false -> lt b a = false -> a = b.

Lemma NoDup_map_In_eq (l : list A) (a b : A) :
  NoDup (map key l) -> In a l -> In b l -> key a = key b -> a = b.
Proof.
  induction l as [|x l IH]; simpl; intros Hnd Ha Hb Hk; [contradiction|].
  inversion Hnd as [|? ? Hx Hl]; subst.
  destruct Ha as [->|Ha], Hb as [->|Hb]; auto.
  - exfalso. apply Hx. rewrite Hk. now apply in_map.
  - exfalso. apply Hx. rewrite <- Hk. now apply in_map.
Qed.

Lemma sorted_perm_unique (l1 l2 : list A) :
  NoDup (map key l1) ->
  StronglySorted (key_le key lt) l1 -> StronglySorted (key_le key lt) l2 ->
  Permutation l1 l2 -> l1 = l2.
Proof.
  revert l2. induction l1 as [|a l1 IH]; intros l2 Hnd H1 H2 Hp.
  - apply Permutation_nil in Hp. now subst.
  - destruct l2 as [|b l2].
    { apply Permutation_sym, Permutation_nil in Hp. discriminate. }
    assert (Hab : a = b).
    { assert (Ha : In a (b :: l2))
        by (eapply Permutation_in; [exact Hp | now left]).
      assert (Hb : In b (a :: l1))
        by (eapply Permutation_in;
            [apply Permutation_sym; exact Hp | now left]).
      destruct Ha as [Ha|Ha]; [now subst|].
      destruct Hb as [Hb|Hb]; [now subst|].
      apply (NoDup_map_In_eq (a :: l1)); auto; [now left | now right|].
      inversion H1 as [|? ? _ Hfa]; inversion H2 as [|? ? _ Hfb]; subst.
      rewrite Forall_forall in Hfa, Hfb.
      apply lt_antisym; [apply (Hfb _ Ha) | apply (Hfa _ Hb)]. }
    subst b. f_equal.
    inversion Hnd; inversion H1; inversion H2; subst.
    apply IH; auto. now apply Permutation_cons_inv in Hp.
Qed.

Lemma sort_by_unique (l1 l2 : list A) :
  NoDup (map key l1) -> Permutation l1 l2 ->
  sort_by key lt l1 = sort_by key lt l2.
Proof.
  intros Hnd Hp. apply sorted_perm_unique.
  - eapply Permutation_NoDup; [|exact Hnd].
    apply Permutation_map, sort_by_perm.
  - now apply sort_by_sorted.
  - now apply sort_by_sorted.
  - rewrite <- !sort_by_perm. exact Hp.
Qed.
End SortedUnique.

(** ** Canonical serialization *)

Section DumpsFacts.
Variable float_repr : pyfloat -> pystr.
Variables item_separator key_separator : pystr.

Let dumps := JsonDumps.dumps float_repr true item_separator key_separator.
Let render (kv : pystr * json) : pystr * pystr := (fst kv, dumps (snd kv)).

Lemma dumps_list (l : list json) :
  dumps (JList l)
  = py "[" ++ PyStr.join item_separator (map dumps l) ++ py "]".
Proof. reflexivity. Qed.

Lemma dumps_obj (d : dict) :
  dumps (JObj d)
  = py "{"
    ++ PyStr.join item_separator
         (map (JsonDumps.dump_item key_separator)
              (sort_by fst PyStr.ltb (map render d)))
    ++ py "}".
Proof. reflexivity. Qed.

Lemma map_ext_Forall2 (A B : Type) (P : A -> Prop) (R : A -> A -> Prop)
      (f : A -> B) (l1 l2 : list A) :
  (forall x y, P x -> R x y -> f x = f y) ->
  Forall P l1 -> Forall2 R l1 l2 -> map f l1 = map f l2.
Proof.
  intros Hf HP HR. induction HR as [|x y l1 l2 Hxy HR IH]; [reflexivity|].
  inversion HP; subst. simpl. f_equal; auto.
Qed.

(** Two logically equal values have one canonical serialization. *)
Lemma dumps_equiv (a : json) :
  well_formed a -> forall b, Spec.json_equiv a b -> dumps a = dumps b.
Proof.
  induction a as [| | | | |l IH|d IH] using json_ind;
    intros Hwf j Heq; inversion Heq; subst; try reflexivity.
  - rewrite !dumps_list.
    inversion Hwf as [| | | | |? Hl|]; subst.
    enough (E : map dumps l = map dumps l2) by now rewrite E.
    eapply map_ext_Forall2 with
      (R := Spec.json_equiv)
      (P := fun x => well_formed x
                     /\ (well_formed x ->
                         forall b, Spec.json_equiv x b -> dumps x = dumps b)).
    + intros x y [Hx Hxy] Hr. now apply Hxy.
    + rewrite Forall_forall in *. auto.
    + assumption.
  - rewrite !dumps_obj.
    inversion Hwf as [| | | | | |? Hnd Hvals]; subst.
    match goal with
    | Hp : Permutation d ?d', HR : Forall2 _ ?d' ?d2 |- _ =>
        rename d' into dm; rename Hp into Hperm; rename HR into Hrel
    end.
    enough (E : sort_by fst PyStr.ltb (map render d)
                = sort_by fst PyStr.ltb (map render d2)) by now rewrite E.
    transitivity (sort_by fst PyStr.ltb (map render dm)).
    + apply sort_by_unique.
      * apply ltb_asym.
      * apply ltb_le_trans.
      * apply ltb_antisym.
      * rewrite map_map. exact Hnd.
      * now apply Permutation_map.
    + f_equal.
      eapply map_ext_Forall2 with
        (R := fun a b => fst a = fst b
                         /\ Spec.json_equiv (snd a) (snd b))
        (P := fun kv =>
                well_formed (snd kv)
                /\ (well_formed (snd kv) ->
                    forall b, Spec.json_equiv (snd kv) b ->
                              dumps (snd kv) = dumps b)).
      * intros [k v] [k' v'] [Hv Hvv] [Hk Hr]. simpl in *. subst k'.
        unfold render. simpl. f_equal. now apply Hvv.
      * eapply Permutation_Forall; [exact Hperm|].
        rewrite Forall_forall in *. auto.
      * exact Hrel.
Qed.
End DumpsFacts.

(** ** Stripping the volatile keys *)

Lemma pop_perm (d1 d2 : dict) (k : pystr) :
  Permutation d1 d2 -> Permutation (Dict.pop d1 k) (Dict.pop d2 k).
Proof.
  induction 1 as [|[k' v] d1 d2 Hp IH|[k1 v1] [k2 v2] d|d1 d2 d3 H1 IH1 H2 IH2];
    simpl.
  - constructor.
  - destruct (PyStr.eqb k' k); auto.
  - destruct (PyStr.eqb k1 k), (PyStr.eqb k2 k); auto. apply perm_swap.
  - now transitivity (Dict.pop d2 k).
Qed.

Lemma pop_Forall2 (R : json -> json -> Prop) (d1 d2 : dict) (k : pystr) :
  Forall2 (fun a b => fst a = fst b /\ R (snd a) (snd b)) d1 d2 ->
  Forall2 (fun a b => fst a = fst b /\ R (snd a) (snd b))
          (Dict.pop d1 k) (Dict.pop d2 k).
Proof.
  induction 1 as [|[k1 v1] [k2 v2] d1 d2 [Hk Hv] H IH]; simpl; [constructor|].
  simpl in Hk. subst k2. destruct (PyStr.eqb k1 k); auto.
Qed.

Lemma pop_In (d : dict) (k : pystr) (kv : pystr * json) :
  In kv (Dict.pop d k) -> In kv d.
Proof.
  induction d as [|[k' v] d IH]; simpl; [auto|].
  destruct (PyStr.eqb k' k); simpl; intuition.
Qed.

Lemma pop_keys_In (d : dict) (k x : pystr) :
  In x (Dict.keys (Dict.pop d k)) -> In x (Dict.keys d).
Proof.
  unfold Dict.keys. rewrite !in_map_iff.
  intros [kv [Hk Hin]]. exists kv. split; [exact Hk|].
  now apply pop_In in Hin.
Qed.

Lemma pop_keys_NoDup (d : dict) (k : pystr) :
  NoDup (Dict.keys d) -> NoDup (Dict.keys (Dict.pop d k)).
Proof.
  induction d as [|[k' v] d IH]; simpl; intros Hnd; [constructor|].
  inversion Hnd; subst.
  destruct (PyStr.eqb k' k); simpl; auto.
  constructor; auto. intros Hin. apply pop_keys_In in Hin. auto.
Qed.

Lemma pop_well_formed (d : dict) (k : pystr) :
  well_formed (JObj d) -> well_formed (JObj (Dict.pop d k)).
Proof.
  intros H. inversion H as [| | | | | |? Hnd Hv]; subst. constructor.
  - now apply pop_keys_NoDup.
  - rewrite Forall_forall in *. intros kv Hin. apply Hv.
    now apply pop_In in Hin.
Qed.

Lemma pops_well_formed (ks : list pystr) (d : dict) :
  well_formed (JObj d) -> well_formed (JObj (fold_left Dict.pop ks d)).
Proof.
  revert d. induction ks as [|k ks IH]; simpl; intros d Hwf; [exact Hwf|].
  now apply IH, pop_well_formed.
Qed.

Lemma pops_equiv (ks : list pystr) (d1 d2 : dict) :
  Spec.json_equiv (JObj d1) (JObj d2) ->
  Spec.json_equiv (JObj (fold_left Dict.pop ks d1))
                  (JObj (fold_left Dict.pop ks d2)).
Proof.
  revert d1 d2. induction ks as [|k ks IH]; simpl; intros d1 d2 Heq;
    [exact Heq|].
  apply IH. inversion Heq; subst.
  econstructor; [apply pop_perm; eassumption | now apply pop_Forall2].
Qed.

Lemma strip_well_formed (a : json) :
  well_formed a -> well_formed (Hashing.strip_volatile_fields a).
Proof.
  intros Hwf. destruct a; try exact Hwf.
  now apply (pops_well_formed Hashing.VOLATILE_MESSAGE_KEYS).
Qed.

Lemma strip_equiv (a b : json) :
  Spec.json_equiv a b ->
  Spec.json_equiv (Hashing.strip_volatile_fields a)
                  (Hashing.strip_volatile_fields b).
Proof.
  intros Heq. destruct a; inversion Heq; subst; try exact Heq.
  now apply (pops_equiv Hashing.VOLATILE_MESSAGE_KEYS).
Qed.

Lemma truthy_equiv (a b : json) :
  Spec.json_equiv a b -> truthy a = truthy b.
Proof.
  intros H. inversion H as [| | | | |l1 l2 Hl|d1 d d2 Hp Hd]; subst;
    try reflexivity; simpl.
  - destruct Hl; reflexivity.
  - destruct Hd.
    + apply Permutation_sym, Permutation_nil in Hp. now subst.
    + destruct d1; [|reflexivity].
      apply Permutation_nil in Hp. discriminate.
Qed.

Lemma payload_keys_distinct :
  NoDup [py "title"; py "messages"; py "extra"]
  /\ NoDup [py "title"; py "messages"].
Proof.
  split; repeat constructor; simpl; intuition discriminate.
Qed.

Lemma chat_payload_equiv (t1 t2 e1 e2 : json) (ms1 ms2 : list json) :
  well_formed t1 -> Spec.json_equiv t1 t2 ->
  Forall well_formed ms1 -> Forall2 Spec.json_equiv ms1 ms2 ->
  well_formed e1 -> Spec.json_equiv e1 e2 ->
  well_formed (Hashing.chat_payload t1 ms1 e1)
  /\ Spec.json_equiv (Hashing.chat_payload t1 ms1 e1)
                     (Hashing.chat_payload t2 ms2 e2).
Proof.
  intros Ht Hte Hms Hmse He Hee.
  assert (Hwf : Forall well_formed (map Hashing.strip_volatile_fields ms1)).
  { clear Hmse. induction Hms as [|m ms Hm _ IH]; simpl; constructor; auto.
    now apply strip_well_formed. }
  assert (Heq : Forall2 Spec.json_equiv
                        (map Hashing.strip_volatile_fields ms1)
                        (map Hashing.strip_volatile_fields ms2)).
  { clear Hwf Hms. induction Hmse as [|m1 m2 ms1 ms2 Hm _ IH]; simpl;
      constructor; auto.
    now apply strip_equiv. }
  unfold Hashing.chat_payload. rewrite <- (truthy_equiv Hee).
  destruct payload_keys_distinct as [N3 N2].
  destruct (truthy e1); split.
  - constructor; [exact N3|]. repeat constructor; auto.
  - eapply Spec.equiv_obj; [reflexivity|].
    repeat constructor; auto.
  - constructor; [exact N2|]. repeat constructor; auto.
  - eapply Spec.equiv_obj; [reflexivity|].
    repeat constructor; auto.
Qed.

Lemma canonical_json_equiv (float_repr : pyfloat -> pystr) (a b : json) :
  well_formed a -> Spec.json_equiv a b ->
  Hashing._canonical_json float_repr a = Hashing._canonical_json float_repr b.
Proof. intros Hwf Heq. now apply dumps_equiv. Qed.

(** C4.  [hash_message] and [hash_chat] give the same digest on logically
    equal inputs (the same keys and values at every level, the keys in
    any order): the canonical serialization is the same text, because the
    items of every object are put in the order of their keys. *)
Theorem C4_digest_ignores_key_order
        (float_repr : pyfloat -> pystr) (m1 m2 t1 t2 e1 e2 : json)
        (ms1 ms2 : list json) :
  well_formed m1 -> Spec.json_equiv m1 m2 ->
  well_formed t1 -> Spec.json_equiv t1 t2 ->
  Forall well_formed ms1 -> Forall2 Spec.json_equiv ms1 ms2 ->
  well_formed e1 -> Spec.json_equiv e1 e2 ->
  Hashing._canonical_json float_repr m1 = Hashing._canonical_json float_repr m2
  /\ Hashing.hash_message float_repr m1 = Hashing.hash_message float_repr m2
  /\ Hashing.hash_chat float_repr t1 ms1 e1
     = Hashing.hash_chat float_repr t2 ms2 e2
  /\ (forall items,
         StronglySorted (fun a b => PyStr.ltb (fst b) (fst a) = false)
                        (JsonDumps.order_items true items)).
Proof.
  intros Hm Hme Ht Hte Hms Hmse He Hee.
  split; [now apply canonical_json_equiv|].
  split; [|split].
  - unfold Hashing.hash_message.
    rewrite (canonical_json_equiv float_repr
               (strip_well_formed Hm) (strip_equiv Hme)).
    reflexivity.
  - unfold Hashing.hash_chat.
    destruct (chat_payload_equiv Ht Hte Hms Hmse He Hee) as [Hwf Heq].
    rewrite (canonical_json_equiv float_repr Hwf Heq). reflexivity.
  - intros items. apply (sort_by_sorted fst PyStr.ltb).
    + apply ltb_asym.
    + apply ltb_le_trans.
Qed.

Lemma C4_digest_ignores_key_order_witness :
  Hashing._canonical_json Examples.no_floats Examples.msg_rc
  = Hashing._canonical_json Examples.no_floats Examples.msg_cr
  /\ Hashing.hash_message Examples.no_floats Examples.msg_rc
     = Hashing.hash_message Examples.no_floats Examples.msg_cr
  /\ Hashing.hash_chat Examples.no_floats (JStr (py "T"))
       [Examples.msg_rc] Examples.extra_model
     = Hashing.hash_chat Examples.no_floats (JStr (py "T"))
         [Examples.msg_cr] Examples.extra_model
  /\ (forall items,
         StronglySorted (fun a b => PyStr.ltb (fst b) (fst a) = false)
                        (JsonDumps.order_items true items)).
Proof.
  assert (Hwf : well_formed Examples.msg_rc).
  { constructor.
    - repeat constructor; simpl; intuition discriminate.
    - repeat constructor. }
  assert (Heq : Spec.json_equiv Examples.msg_rc Examples.msg_cr).
  { eapply Spec.equiv_obj; [apply perm_swap|].
    repeat constructor. }
  apply C4_digest_ignores_key_order.
  - exact Hwf.
  - exact Heq.
  - constructor.
  - constructor.
  - constructor; [exact Hwf | constructor].
  - constructor; [exact Heq | constructor].
  - constructor; repeat constructor. simpl. intuition.
  - eapply Spec.equiv_obj; [reflexivity|]. repeat constructor.
Defined.

(** ** The chat-level extra *)

(** C9, as the code has it.  [hash_chat] tests the truth value of
    [extra_fields]: a true one (a non-empty dict) is serialized under the
    key [extra], which changes the canonical text that is hashed; a false
    one (the empty dict as well as [None]) is left out, and the digest is
    that of the call without it. *)
Theorem C9_extra_in_digest
        (float_repr : pyfloat -> pystr) (title : json) (messages : list json)
        (extra_fields : json) :
  (truthy extra_fields = true ->
   Hashing._canonical_json float_repr
     (Hashing.chat_payload title messages extra_fields)
   <> Hashing._canonical_json float_repr
        (Hashing.chat_payload title messages JNull))
  /\ (truthy extra_fields = false ->
      Hashing.chat_payload title messages extra_fields
      = Hashing.chat_payload title messages JNull
      /\ Hashing.hash_chat float_repr title messages extra_fields
         = Hashing.hash_chat float_repr title messages JNull).
Proof.
  split; intros Ht.
  - unfold Hashing._canonical_json, Hashing.chat_payload.
    rewrite Ht. simpl truthy. cbv iota.
    rewrite !dumps_obj.
    set (X := JsonDumps.dumps float_repr true (py ",") (py ":")).
    cbn [map fst snd app].
    generalize (X title) (X extra_fields)
               (X (JList (map Hashing.strip_volatile_fields messages))).
    intros a b c. vm_compute. discriminate.
  - unfold Hashing.hash_chat, Hashing.chat_payload. rewrite Ht. auto.
Qed.

Lemma C9_extra_in_digest_witness :
  (truthy Examples.extra_model = true ->
   Hashing._canonical_json Examples.no_floats
     (Hashing.chat_payload (JStr (py "T")) [Examples.msg_rc]
                           Examples.extra_model)
   <> Hashing._canonical_json Examples.no_floats
        (Hashing.chat_payload (JStr (py "T")) [Examples.msg_rc] JNull))
  /\ (truthy Examples.extra_model = false ->
      Hashing.chat_payload (JStr (py "T")) [Examples.msg_rc]
                           Examples.extra_model
      = Hashing.chat_payload (JStr (py "T")) [Examples.msg_rc] JNull
      /\ Hashing.hash_chat Examples.no_floats (JStr (py "T"))
           [Examples.msg_rc] Examples.extra_model
         = Hashing.hash_chat Examples.no_floats (JStr (py "T"))
             [Examples.msg_rc] JNull).
Proof.
  exact (C9_extra_in_digest Examples.no_floats (JStr (py "T"))
                            [Examples.msg_rc] Examples.extra_model).
Defined.

(** C9 as stated fails: an empty dict is an extra that is supplied, and
    the digest is that of the call without any. *)
Lemma C9_counterexample :
  JObj [] <> JNull
  /\ (forall float_repr title messages,
         Hashing.hash_chat float_repr title messages (JObj [])
         = Hashing.hash_chat float_repr title messages JNull)
  /\ Hashing.hash_chat Examples.no_floats (JStr (py "T"))
       [Examples.msg_rc] (JObj [])
     = Ok (py "df37eaa423e3501b85fdb7d2728edd3ad5c119dffe41716f3136c725e364a0f3").
Proof.
  split; [discriminate|]. split; [reflexivity|].
  vm_compute. reflexivity.
Qed.

(** ** Volatile fields and the chat fingerprint *)

(** C3, on the code.  [hash_message] leaves out the volatile keys of a raw
    message, but the loop of [ingest_export] hands [hash_chat] the
    normalized messages, whose only keys are [role], [content] and
    [raw_json]: nothing is stripped from them, the raw message is hashed
    whole under [raw_json], and two exports of one chat that differ only in
    the [id] of a message get different fingerprints. *)
Theorem C3_chat_fingerprint_keeps_volatile_fields :
  Dict.pop (Examples.raw_message "m1") (py "id")
  = Dict.pop (Examples.raw_message "m2") (py "id")
  /\ (forall float_repr,
         Hashing.hash_message float_repr (JObj (Examples.raw_message "m1"))
         = Hashing.hash_message float_repr (JObj (Examples.raw_message "m2")))
  /\ (forall m,
         Hashing.strip_volatile_fields (Ingest.message_json m)
         = Ingest.message_json m)
  /\ (forall float_repr nan_order,
         rbind (Parser.normalize_chat nan_order (Examples.raw_chat "m1"))
               (Ingest.chat_fingerprint float_repr)
         = Ok (py "3809f12e03c5d9528f184d050c8ebca7bd580415bcbc52f197df24589df54fea"))
  /\ (forall float_repr nan_order,
         rbind (Parser.normalize_chat nan_order (Examples.raw_chat "m2"))
               (Ingest.chat_fingerprint float_repr)
         = Ok (py "b866abe8598b447b6cfdefdb3f91b3327a2f8c74b206da9bf387747274f46824")).
Proof.
  split; [reflexivity|].
  split; [intros fr; reflexivity|].
  split; [intros m; reflexivity|].
  split; intros fr nan_order; vm_compute; reflexivity.
Qed.


(** ** Statements commit one by one *)

Section Commits.
Import Store Ingest SyncSpec.

Lemma run_app (s1 s2 : list statement) (d : db) :
  run (s1 ++ s2) d = run s2 (run s1 d).
Proof. apply fold_left_app. Qed.

Lemma commits_ret (A : Type) (a : A) (d : db) : commits (ret a) d [] a.
Proof. intros [[|k]|]; reflexivity. Qed.

Lemma commits_transaction (A : Type) (s : statement) (read : db -> A)
      (d : db) :
  commits (transaction s read) d [s] (read d).
Proof. intros [[|k]|]; try reflexivity. simpl. now rewrite Nat.sub_0_r. Qed.

Lemma commits_bind (A B : Type) (m : M A) (k : A -> M B) (d : db)
      (s1 s2 s : list statement) (a : A) (c : B) :
  commits m d s1 a -> commits (k a) (run s1 d) s2 c -> s = s1 ++ s2 ->
  commits (bind m k) d s c.
Proof.
  intros Hm Hk -> b. unfold bind. rewrite Hm. unfold committed.
  destruct b as [n|].
  - rewrite length_app.
    destruct (Nat.ltb_spec n (length s1)) as [H1|H1].
    + destruct (Nat.ltb_spec n (length s1 + length s2)); [|lia].
      rewrite firstn_app.
      replace (n - length s1) with 0 by lia.
      now rewrite app_nil_r.
    + rewrite Hk. unfold committed.
      destruct (Nat.ltb_spec (n - length s1) (length s2)) as [H2|H2];
        destruct (Nat.ltb_spec n (length s1 + length s2)); try lia.
      * rewrite firstn_app, run_app.
        rewrite (firstn_all2 s1) by lia. reflexivity.
      * rewrite run_app. do 3 f_equal. lia.
  - rewrite Hk. simpl. now rewrite run_app.
Qed.
Lemma commits_execute (s : statement) (d : db) :
  commits (execute s) d [s] tt.
Proof. apply (commits_transaction s (fun _ => tt)). Qed.

Section WithFloatRepr.
Variable float_repr : pyfloat -> pystr.
Variable nan_order : Parser.sort_order.

Lemma insert_messages_commits (ms : list Parser.message) :
  forall (index : nat) (chat_db_id : Z) (d : db),
    commits (insert_messages_from float_repr index chat_db_id ms) d
            (map InsertMessage
                 (message_rows_from float_repr index chat_db_id ms))
            tt.
Proof.
  induction ms as [|msg ms IH]; intros index chat_db_id d; simpl.
  - apply commits_ret.
  - eapply commits_bind; [apply commits_execute | apply IH | reflexivity].
Qed.

(** [upsert_chat]: the lookup, then the statements of its three cases;
    the value is the database id of the chat. *)
Lemma upsert_chat_commits (n : Parser.chat) (h : pystr) (d : db) (p : json) :
  title_prefix (Parser.title n) = Ok p ->
  commits (upsert_chat float_repr n h) d
          (SelectChat (Parser.chat_id n)
           :: match select_chat d (Parser.chat_id n) with
              | None =>
                  [InsertChat (Parser.chat_id n)
                              (chat_columns float_repr n h)]
              | Some row =>
                  if PyStr.eqb (f_hash (row_fields row)) h then []
                  else [UpdateChat (chat_columns float_repr n h) (row_id row);
                        DeleteMessages (row_id row)]
              end)
          (match select_chat d (Parser.chat_id n) with
           | None => next_id d
           | Some row => row_id row
           end).
Proof.
  intros Hp. unfold upsert_chat, fetch_one_chat, fetch_one_insert.
  destruct (select_chat d (Parser.chat_id n)) as [row|] eqn:E.
  - destruct (PyStr.eqb (f_hash (row_fields row)) h) eqn:Eh.
    + eapply commits_bind; [apply commits_transaction | | reflexivity].
      cbv beta. rewrite E, Eh, Hp.
      eapply commits_bind; [apply commits_ret | apply commits_ret |].
      reflexivity.
    + eapply commits_bind; [apply commits_transaction | | reflexivity].
      cbv beta. rewrite E, Eh, Hp.
      eapply commits_bind; [apply commits_ret | | reflexivity].
      eapply commits_bind; [apply commits_execute | | reflexivity].
      eapply commits_bind; [apply commits_execute | apply commits_ret |].
      reflexivity.
  - eapply commits_bind; [apply commits_transaction | | reflexivity].
    cbv beta. rewrite E, Hp.
    eapply commits_bind; [apply commits_ret | | reflexivity].
    exact (commits_transaction
             (InsertChat (Parser.chat_id n) (chat_columns float_repr n h))
             next_id (run [] (run [SelectChat (Parser.chat_id n)] d))).
Qed.

(** The sync step sends exactly [sync_statements], each statement in a
    transaction of its own. *)
Lemma sync_chat_commits (n : Parser.chat) (h : pystr) (d : db) (p : json) :
  title_prefix (Parser.title n) = Ok p ->
  commits (sync_chat float_repr n h) d
          (sync_statements float_repr d n h) (sync_outcome d n h).
Proof.
  intros Hp. unfold sync_chat, sync_statements, sync_outcome, lookups,
    fetch_one_chat.
  pose proof (upsert_chat_commits n h
                (run [SelectChat (Parser.chat_id n)] d) Hp) as Hu.
  change (select_chat (run [SelectChat (Parser.chat_id n)] d)
                      (Parser.chat_id n))
    with (select_chat d (Parser.chat_id n)) in Hu.
  change (next_id (run [SelectChat (Parser.chat_id n)] d))
    with (next_id d) in Hu.
  destruct (select_chat d (Parser.chat_id n)) as [row|] eqn:E.
  - destruct (PyStr.eqb (f_hash (row_fields row)) h) eqn:Eh.
    + eapply commits_bind; [apply commits_transaction | | reflexivity].
      cbv beta. rewrite E.
      eapply commits_bind; [exact Hu | | reflexivity].
      rewrite Eh. apply commits_ret.
    + eapply commits_bind; [apply commits_transaction | | reflexivity].
      cbv beta. rewrite E.
      eapply commits_bind; [exact Hu | | reflexivity].
      rewrite Eh. simpl negb. cbv iota.
      eapply commits_bind;
        [apply insert_messages_commits | apply commits_ret |].
      now rewrite app_nil_r.
  - eapply commits_bind; [apply commits_transaction | | reflexivity].
    cbv beta. rewrite E.
    eapply commits_bind; [exact Hu | | reflexivity].
    eapply commits_bind;
      [apply insert_messages_commits | apply commits_ret |].
    now rewrite app_nil_r.
Qed.
End WithFloatRepr.
End Commits.

(** ** The effect of the sync step on the tables *)

Section Tables.
Import Store Ingest SyncSpec.
Variable float_repr : pyfloat -> pystr.
Variable nan_order : Parser.sort_order.

Lemma run_cons (s : statement) (stmts : list statement) (d : db) :
  run (s :: stmts) d = run stmts (apply s d).
Proof. reflexivity. Qed.

Lemma journal_run (stmts : list statement) (d : db) :
  journal (run stmts d) = journal d ++ stmts.
Proof.
  revert d. induction stmts as [|s stmts IH]; intros d.
  - simpl. now rewrite app_nil_r.
  - rewrite run_cons, IH. destruct s; simpl; now rewrite <- app_assoc.
Qed.

Lemma run_inserts (rows : list message_row) (d : db) :
  chats (run (map InsertMessage rows) d) = chats d
  /\ messages (run (map InsertMessage rows) d) = messages d ++ rows
  /\ next_id (run (map InsertMessage rows) d) = next_id d.
Proof.
  revert d. induction rows as [|r rows IH]; intros d.
  - simpl. now rewrite app_nil_r.
  - simpl map. rewrite run_cons.
    destruct (IH (apply (InsertMessage r) d)) as [Hc [Hm Hn]].
    rewrite Hc, Hm, Hn. simpl. now rewrite <- app_assoc.
Qed.

Lemma run_lookups (stmts : list statement) (d : db) :
  forallb (fun s => negb (is_write s)) stmts = true ->
  chats (run stmts d) = chats d
  /\ messages (run stmts d) = messages d
  /\ next_id (run stmts d) = next_id d.
Proof.
  revert d. induction stmts as [|s stmts IH]; intros d H; [now simpl|].
  simpl in H. apply andb_true_iff in H as [Hs H].
  rewrite run_cons. destruct s; try discriminate.
  destruct (IH (apply (SelectChat chat_id) d) H) as [Hc [Hm Hn]].
  now rewrite Hc, Hm, Hn.
Qed.

Lemma filter_writes_inserts (rows : list message_row) :
  filter is_write (map InsertMessage rows) = map InsertMessage rows.
Proof.
  induction rows as [|r rows IH]; simpl; [reflexivity | now rewrite IH].
Qed.

(** The rows of a chat carry its id and the positions [index], [index+1],
    ... in the order of the messages. *)
Lemma message_rows_from_spec (ms : list Parser.message) :
  forall (index : nat) (chat_db_id : Z),
    map m_message_index (message_rows_from float_repr index chat_db_id ms)
    = seq index (length ms)
    /\ map m_content (message_rows_from float_repr index chat_db_id ms)
       = map Parser.msg_content ms
    /\ map m_role (message_rows_from float_repr index chat_db_id ms)
       = map Parser.msg_role ms
    /\ Forall (fun r => m_chat_id r = chat_db_id)
              (message_rows_from float_repr index chat_db_id ms).
Proof.
  induction ms as [|m ms IH]; intros index chat_db_id; simpl.
  - repeat split; constructor.
  - destruct (IH (S index) chat_db_id) as [Hi [Hc [Hr Hid]]].
    rewrite Hi, Hc, Hr. repeat split. constructor; auto.
Qed.

Lemma filter_same_id (rows : list message_row) (id : Z) :
  Forall (fun r => m_chat_id r = id) rows ->
  filter (fun m => (m_chat_id m =? id)%Z) rows = rows.
Proof.
  induction 1 as [|r rows Hr _ IH]; simpl; [reflexivity|].
  rewrite Hr, Z.eqb_refl. now rewrite IH.
Qed.

Lemma filter_other_id (rows : list message_row) (id other : Z) :
  Forall (fun r => m_chat_id r = id) rows -> other <> id ->
  filter (fun m => (m_chat_id m =? other)%Z) rows = [].
Proof.
  intros H Hne. induction H as [|r rows Hr _ IH]; simpl; [reflexivity|].
  rewrite Hr. destruct (Z.eqb_spec id other); [congruence | exact IH].
Qed.

Lemma filter_deleted (msgs : list message_row) (id : Z) :
  filter (fun m => (m_chat_id m =? id)%Z)
         (filter (fun m => negb (m_chat_id m =? id)%Z) msgs) = [].
Proof.
  induction msgs as [|m msgs IH]; simpl; [reflexivity|].
  destruct (m_chat_id m =? id)%Z eqn:E; simpl; [exact IH|].
  now rewrite E.
Qed.

Lemma filter_kept (msgs : list message_row) (id other : Z) :
  other <> id ->
  filter (fun m => (m_chat_id m =? other)%Z)
         (filter (fun m => negb (m_chat_id m =? id)%Z) msgs)
  = filter (fun m => (m_chat_id m =? other)%Z) msgs.
Proof.
  intros Hne. induction msgs as [|m msgs IH]; simpl; [reflexivity|].
  destruct (Z.eqb_spec (m_chat_id m) id) as [E|E]; simpl.
  - destruct (Z.eqb_spec (m_chat_id m) other); [congruence | exact IH].
  - now rewrite IH.
Qed.

(** The sync step by what the lookup returns: the outcome, the statements
    and the tables of the three cases. *)
Lemma sync_chat_by_lookup
        (n : Parser.chat) (h : pystr) (d : db) (t : pystr) :
  Parser.title n = JStr t ->
  let stmts := sync_statements float_repr d n h in
  let d' := run stmts d in
  let rows := fun id => message_rows float_repr id (Parser.messages n) in
  let cols := chat_columns float_repr n h in
  sync_chat float_repr n h {| store := d; budget := None |}
  = (Ok (sync_outcome d n h), {| store := d'; budget := None |})
  /\ journal d' = journal d ++ stmts
  /\ f_hash cols = h
  /\ (forall id,
         map m_message_index (rows id) = seq 0 (length (Parser.messages n))
         /\ map m_content (rows id)
            = map Parser.msg_content (Parser.messages n)
         /\ map m_role (rows id) = map Parser.msg_role (Parser.messages n)
         /\ Forall (fun r => m_chat_id r = id) (rows id))
  /\ match select_chat d (Parser.chat_id n) with
     | None =>
         sync_outcome d n h = New
         /\ filter is_write stmts
            = InsertChat (Parser.chat_id n) cols
              :: map InsertMessage (rows (next_id d))
         /\ chats d'
            = chats d ++ [{| row_id := next_id d;
                            row_chat_id := Parser.chat_id n;
                            row_fields := cols |}]
         /\ messages d' = messages d ++ rows (next_id d)
     | Some row =>
         if PyStr.eqb (f_hash (row_fields row)) h then
           sync_outcome d n h = Unchanged
           /\ filter is_write stmts = []
           /\ chats d' = chats d
           /\ messages d' = messages d
         else
           sync_outcome d n h = Updated
           /\ filter is_write stmts
              = UpdateChat cols (row_id row)
                :: DeleteMessages (row_id row)
                :: map InsertMessage (rows (row_id row))
           /\ chats d'
              = map (fun r =>
                       if (row_id r =? row_id row)%Z
                       then {| row_id := row_id r;
                               row_chat_id := row_chat_id r;
                               row_fields := cols |}
                       else r) (chats d)
           /\ messages_of d' (row_id row) = rows (row_id row)
           /\ (forall other,
                  other <> row_id row ->
                  messages_of d' other = messages_of d other)
     end.
Proof.
  intros Ht. cbv zeta.
  split.
  { assert (Hp : title_prefix (Parser.title n) = Ok (JStr (firstn 60 t)))
      by now rewrite Ht.
    exact (sync_chat_commits float_repr n h d Hp None). }
  split; [apply journal_run|].
  split; [reflexivity|].
  split; [intros id; apply message_rows_from_spec|].
  unfold sync_statements, sync_outcome, lookups.
  destruct (select_chat d (Parser.chat_id n)) as [row|] eqn:E.
  - destruct (PyStr.eqb (f_hash (row_fields row)) h) eqn:Eh.
    + repeat split.
    + split; [reflexivity|].
      split; [simpl; now rewrite filter_writes_inserts|].
      simpl app. rewrite !run_cons.
      match goal with
      | |- context [run (map InsertMessage ?r) ?d0] =>
          destruct (run_inserts r d0) as [Hc [Hm Hn]]
      end.
      unfold messages_of, message_rows in *. rewrite Hc, Hm. simpl.
      destruct (message_rows_from_spec (Parser.messages n) 0 (row_id row))
        as [_ [_ [_ Hid]]].
      split; [reflexivity|]. split.
      * rewrite filter_app, filter_deleted.
        now rewrite (filter_same_id Hid).
      * intros other Hne.
        rewrite filter_app, (filter_other_id Hid Hne), app_nil_r.
        now apply filter_kept.
  - split; [reflexivity|].
    split; [simpl; now rewrite filter_writes_inserts|].
    simpl app. rewrite !run_cons.
    match goal with
    | |- context [run (map InsertMessage ?r) ?d0] =>
        destruct (run_inserts r d0) as [Hc [Hm Hn]]
    end.
    rewrite Hc, Hm. split; reflexivity.
Qed.
(** The lookup on a string id: it finds the first row that holds the id,
    and none when no row does. *)
Lemma sql_eq_holds (column : json) (a : pystr) :
  sql_eq column (JStr a) = true -> column = JStr a.
Proof.
  destruct column; simpl; try discriminate.
  intros H. apply eqb_eq in H. now subst.
Qed.

Lemma select_chat_absent (d : db) (a : pystr) :
  (forall r, In r (chats d) -> row_chat_id r <> JStr a) ->
  select_chat d (JStr a) = None.
Proof.
  unfold select_chat. intros H.
  induction (chats d) as [|r l IH]; simpl; [reflexivity|].
  destruct (sql_eq (row_chat_id r) (JStr a)) eqn:E.
  - exfalso. apply (H r); [now left | now apply sql_eq_holds].
  - apply IH. intros r' Hr'. apply H. now right.
Qed.

Lemma select_chat_first (d : db) (a : pystr) (before after : list chat_row)
      (row : chat_row) :
  chats d = before ++ row :: after ->
  row_chat_id row = JStr a ->
  (forall r, In r before -> row_chat_id r <> JStr a) ->
  select_chat d (JStr a) = Some row.
Proof.
  unfold select_chat. intros E Hrow Hb. rewrite E. clear E.
  induction before as [|r before IH]; simpl.
  - rewrite Hrow. simpl. now rewrite eqb_refl.
  - destruct (sql_eq (row_chat_id r) (JStr a)) eqn:E.
    + exfalso. apply (Hb r); [now left | now apply sql_eq_holds].
    + apply IH. intros r' Hr'. apply Hb. now right.
Qed.

(** With the internal ids a key, the update rewrites one row. *)
Lemma update_one_row (cols : chat_fields) (before after : list chat_row)
      (row : chat_row) :
  NoDup (map row_id (before ++ row :: after)) ->
  map (fun r =>
         if (row_id r =? row_id row)%Z
         then {| row_id := row_id r; row_chat_id := row_chat_id r;
                 row_fields := cols |}
         else r) (before ++ row :: after)
  = before
    ++ {| row_id := row_id row; row_chat_id := row_chat_id row;
          row_fields := cols |} :: after.
Proof.
  intros Hnd. rewrite map_app in Hnd. simpl in Hnd.
  apply NoDup_remove_2 in Hnd.
  assert (Hkeep : forall l : list chat_row,
             ~ In (row_id row) (map row_id l) ->
             map (fun r =>
                    if (row_id r =? row_id row)%Z
                    then {| row_id := row_id r; row_chat_id := row_chat_id r;
                            row_fields := cols |}
                    else r) l = l).
  { induction l as [|r l IH]; simpl; intros H; [reflexivity|].
    destruct (Z.eqb_spec (row_id r) (row_id row)) as [E|E]; [tauto|].
    f_equal. apply IH. tauto. }
  rewrite map_app. simpl. rewrite Z.eqb_refl.
  rewrite !Hkeep; [reflexivity | |];
    intros H; apply Hnd, in_or_app; tauto.
Qed.

Lemma message_rows_raw_json (ms : list Parser.message) :
  forall (index : nat) (chat_db_id : Z),
    map m_raw_json (message_rows_from float_repr index chat_db_id ms)
    = map (fun m => json_dumps float_repr (Parser.msg_raw_json m)) ms.
Proof.
  induction ms as [|m ms IH]; intros index chat_db_id; simpl;
    [reflexivity | now rewrite IH].
Qed.

Lemma filter_reads_inserts (rows : list message_row) :
  filter (fun s => negb (is_write s)) (map InsertMessage rows) = [].
Proof.
  induction rows as [|r rows IH]; simpl; [reflexivity | exact IH].
Qed.

(** C1, as the code has it.  With the storage answering every round
    trip, the sync step of a chat whose title and external id are strings
    sends the two lookups and has exactly one of three outcomes.  When no
    stored row holds the external id: New, a row is inserted with the
    external id and all columns (title, create_time or 0, update_time or
    0, model, fingerprint, the flattened content and the JSON text of the
    normalized chat), and every message is inserted with the positions 0,
    1, ... in the order of the normalized messages.  When a row holds it
    (the lookup returns the first) and its fingerprint is the computed
    one: Unchanged, no write, both tables as they were.  When its
    fingerprint is another: Updated, all columns of that row but the two
    ids are rewritten, the messages of its internal id are deleted and
    the current messages inserted with positions from 0; the messages of
    the other chats stay. *)
Theorem C1_sync_three_outcomes
        (n : Parser.chat) (h : pystr) (d : db) (t a : pystr) :
  Parser.title n = JStr t ->
  Parser.chat_id n = JStr a ->
  let cols := chat_columns float_repr n h in
  let rows := fun id => message_rows float_repr id (Parser.messages n) in
  exists o stmts,
    sync_chat float_repr n h {| store := d; budget := None |}
    = (Ok o, {| store := run stmts d; budget := None |})
    /\ journal (run stmts d) = journal d ++ stmts
    /\ filter (fun s => negb (is_write s)) stmts = lookups (JStr a)
    /\ (f_title cols = JStr t
        /\ f_create_time cols = py_or (Parser.create_time n) (JInt 0)
        /\ f_update_time cols = py_or (Parser.update_time n) (JInt 0)
        /\ f_model cols = Parser.model n
        /\ f_hash cols = h
        /\ f_content_text cols = flatten_content (Parser.messages n)
        /\ f_raw_json cols
           = JsonDumps.dumps float_repr false (py ", ") (py ": ")
               (JObj [(py "chat_id", JStr a);
                      (py "title", JStr t);
                      (py "create_time", Parser.create_time n);
                      (py "update_time", Parser.update_time n);
                      (py "model", Parser.model n);
                      (py "messages",
                       JList
                         (map (fun m =>
                                 JObj [(py "role", Parser.msg_role m);
                                       (py "content",
                                        JStr (Parser.msg_content m));
                                       (py "raw_json",
                                        Parser.msg_raw_json m)])
                              (Parser.messages n)));
                      (py "raw_json", Parser.raw_json n)]))
    /\ (forall id,
           map m_message_index (rows id)
           = seq 0 (length (Parser.messages n))
           /\ map m_content (rows id)
              = map Parser.msg_content (Parser.messages n)
           /\ map m_role (rows id) = map Parser.msg_role (Parser.messages n)
           /\ map m_raw_json (rows id)
              = map (fun m =>
                       JsonDumps.dumps float_repr false (py ", ") (py ": ")
                         (Parser.msg_raw_json m))
                    (Parser.messages n)
           /\ Forall (fun r => m_chat_id r = id) (rows id))
    /\ ((forall r, In r (chats d) -> row_chat_id r <> JStr a) ->
        o = New
        /\ filter is_write stmts
           = InsertChat (JStr a) cols
             :: map InsertMessage (rows (next_id d))
        /\ chats (run stmts d)
           = chats d ++ [{| row_id := next_id d;
                           row_chat_id := JStr a;
                           row_fields := cols |}]
        /\ messages (run stmts d) = messages d ++ rows (next_id d))
    /\ (forall before row after,
           chats d = before ++ row :: after ->
           row_chat_id row = JStr a ->
           (forall r, In r before -> row_chat_id r <> JStr a) ->
           (f_hash (row_fields row) = h ->
            o = Unchanged
            /\ filter is_write stmts = []
            /\ chats (run stmts d) = chats d
            /\ messages (run stmts d) = messages d)
           /\ (f_hash (row_fields row) <> h ->
               o = Updated
               /\ filter is_write stmts
                  = UpdateChat cols (row_id row)
                    :: DeleteMessages (row_id row)
                    :: map InsertMessage (rows (row_id row))
               /\ chats (run stmts d)
                  = map (fun r =>
                           if (row_id r =? row_id row)%Z
                           then {| row_id := row_id r;
                                   row_chat_id := row_chat_id r;
                                   row_fields := cols |}
                           else r) (chats d)
               /\ (NoDup (map row_id (chats d)) ->
                   chats (run stmts d)
                   = before
                     ++ {| row_id := row_id row; row_chat_id := JStr a;
                           row_fields := cols |} :: after)
               /\ messages_of (run stmts d) (row_id row) = rows (row_id row)
               /\ (forall other,
                      other <> row_id row ->
                      messages_of (run stmts d) other
                      = messages_of d other))).
Proof.
  intros Ht Ha. cbv zeta.
  exists (sync_outcome d n h), (sync_statements float_repr d n h).
  pose proof (sync_chat_by_lookup n h d Ht) as H. cbv zeta in H.
  destruct H as [Hrun [Hj [_ [Hrows Hcases]]]].
  split; [exact Hrun|]. split; [exact Hj|].
  split.
  { unfold sync_statements, lookups. rewrite Ha.
    destruct (select_chat d (JStr a)) as [row|]; simpl.
    - destruct (PyStr.eqb (f_hash (row_fields row)) h); simpl;
        [reflexivity | now rewrite filter_reads_inserts].
    - now rewrite filter_reads_inserts. }
  split.
  { simpl. unfold json_dumps, chat_json. rewrite Ht, Ha. repeat split. }
  split.
  { intros id. destruct (Hrows id) as [Hi [Hc [Hr Hid]]].
    repeat split; auto. apply message_rows_raw_json. }
  rewrite Ha in Hcases. split.
  - intros Habs. rewrite (@select_chat_absent d a Habs) in Hcases.
    exact Hcases.
  - intros before row after E Hrow Hb.
    rewrite (@select_chat_first d a before after row E Hrow Hb)
      in Hcases.
    split; intros Hh.
    + apply eqb_eq in Hh. rewrite Hh in Hcases. exact Hcases.
    + apply eqb_neq in Hh. rewrite Hh in Hcases.
      destruct Hcases as [Ho [Hw [Hc [Hm Hothers]]]].
      repeat split; auto.
      intros Hnd. rewrite Hc, E, <- Hrow. apply update_one_row.
      now rewrite <- E.
Qed.
End Tables.


Lemma C1_sync_three_outcomes_witness :
  exists o stmts,
    Ingest.sync_chat Examples.no_floats (Examples.chat_c1 "new text")
      (py "new")
      {| Store.store := Examples.stored_c1; Store.budget := None |}
    = (Ok o,
       {| Store.store := SyncSpec.run stmts Examples.stored_c1;
          Store.budget := None |})
    /\ o = Ingest.Updated.
Proof.
  destruct (C1_sync_three_outcomes Examples.no_floats
              (Examples.chat_c1 "new text") (py "new")
              Examples.stored_c1 (t := py "T") (a := py "c1")
              eq_refl eq_refl)
    as [o [stmts [Hrun [_ [_ [_ [_ [_ Hfound]]]]]]]].
  exists o, stmts. split; [exact Hrun|].
  destruct (Hfound []
              {| Store.row_id := 1;
                 Store.row_chat_id := JStr (py "c1");
                 Store.row_fields :=
                   Ingest.chat_columns Examples.no_floats
                     (Examples.chat_c1 "old text") (py "old") |}
              [] eq_refl eq_refl)
    as [_ Hupd].
  - intros r [].
  - apply Hupd. discriminate.
Defined.

(** C1 as stated fails.  A chat without id is never found by the lookup:
    the same record, processed again, is New again, and a second row with
    the same fingerprint is inserted where the stored chat is unchanged.
    And a chat whose title is a number has none of the three outcomes:
    the step raises [TypeError] after the two lookups. *)
Lemma C1_counterexample :
  (forall nan_order,
      exists first again,
        Ingest.ingest_chat Examples.no_floats nan_order
          Cases.no_id_chat (Cases.fresh None)
        = (Ok Ingest.New, first)
        /\ Ingest.ingest_chat Examples.no_floats nan_order
             Cases.no_id_chat first
           = (Ok Ingest.New, again)
        /\ map Store.row_chat_id (Store.chats (Store.store first)) = [JNull]
        /\ map Store.row_chat_id (Store.chats (Store.store again))
           = [JNull; JNull]
        /\ map (fun r => Store.f_hash (Store.row_fields r))
               (Store.chats (Store.store again))
           = map (fun r => Store.f_hash (Store.row_fields r))
                 (Store.chats (Store.store first))
             ++ map (fun r => Store.f_hash (Store.row_fields r))
                    (Store.chats (Store.store first)))
  /\ (forall nan_order,
         exists n,
           Parser.normalize_chat nan_order Cases.numeric_title_chat = Ok n
           /\ Parser.title n = JInt 5
           /\ forall h,
                Ingest.sync_chat Examples.no_floats n h (Cases.fresh None)
                = (Raise TypeError,
                   {| Store.store :=
                        SyncSpec.run (SyncSpec.lookups (JStr (py "c1")))
                                     Examples.empty_db;
                      Store.budget := None |})).
Proof.
  split; intros nan_order.
  - eexists. eexists.
    split; [vm_compute; reflexivity|].
    split; [vm_compute; reflexivity|].
    split; [reflexivity|]. split; reflexivity.
  - eexists. split; [reflexivity|]. split; [reflexivity|].
    intros h. reflexivity.
Qed.

(** ** A failure inside the write group *)

Lemma find_map_preserved (A : Type) (p : A -> bool) (f : A -> A)
      (l : list A) :
  (forall x, p (f x) = p x) ->
  find p (map f l) = option_map f (find p l).
Proof.
  intros Hp. induction l as [|x l IH]; simpl; [reflexivity|].
  rewrite Hp. destruct (p x); [reflexivity | exact IH].
Qed.

Section WriteGroup.
Import Store Ingest SyncSpec.
Variable float_repr : pyfloat -> pystr.
Variable nan_order : Parser.sort_order.

(** After the update of a row found by the lookup, the lookup finds it
    with the new columns. *)
Lemma select_chat_updated (d : db) (chat_id : json) (row : chat_row)
      (cols : chat_fields) (rest : list statement) :
  select_chat d chat_id = Some row ->
  forallb (fun s => match s with UpdateChat _ _ | InsertChat _ _ => false
                             | _ => true end) rest = true ->
  stored_hash (run (UpdateChat cols (row_id row) :: rest) d) chat_id
  = Some (f_hash cols).
Proof.
  intros E Hrest. rewrite run_cons.
  assert (Hc : forall d0, chats (run rest d0) = chats d0).
  { clear E. induction rest as [|s rest IH]; intros d0; [reflexivity|].
    simpl in Hrest. apply andb_true_iff in Hrest as [Hs Hrest].
    rewrite run_cons, (IH Hrest). destruct s; try discriminate; reflexivity. }
  unfold stored_hash, select_chat in *. rewrite Hc. simpl chats.
  rewrite find_map_preserved.
  - rewrite E. simpl. now rewrite Z.eqb_refl.
  - intros r. now destruct (row_id r =? row_id row)%Z.
Qed.

(** C5, as the code has it.  Every statement of the sync step runs in a
    transaction of its own, committed at once: when the storage fails
    after [k] round trips, the first [k] statements stay committed and
    nothing is rolled back.  For an Updated chat with at least one
    message, a failure right after the delete (four round trips) leaves
    the chat row with the new fingerprint and no message; the next run
    finds the fingerprint unchanged and writes nothing. *)
Theorem C5_statements_commit_one_by_one
        (n : Parser.chat) (h : pystr) (d : db) (t : pystr)
        (row : chat_row) :
  Parser.title n = JStr t ->
  select_chat d (Parser.chat_id n) = Some row ->
  PyStr.eqb (f_hash (row_fields row)) h = false ->
  let stmts := sync_statements float_repr d n h in
  let cid := Parser.chat_id n in
  let d' := run [SelectChat cid; SelectChat cid;
                 UpdateChat (chat_columns float_repr n h) (row_id row);
                 DeleteMessages (row_id row)] d in
  (forall k,
      k < length stmts ->
      sync_chat float_repr n h {| store := d; budget := Some k |}
      = (Raise StorageError,
         {| store := run (firstn k stmts) d; budget := Some 0 |}))
  /\ (Parser.messages n <> [] ->
      sync_chat float_repr n h {| store := d; budget := Some 4 |}
      = (Raise StorageError, {| store := d'; budget := Some 0 |})
      /\ stored_hash d' cid = Some h
      /\ messages_of d' (row_id row) = []
      /\ sync_chat float_repr n h {| store := d'; budget := None |}
         = (Ok Unchanged,
            {| store := run (lookups cid) d'; budget := None |})
      /\ messages_of (run (lookups cid) d') (row_id row) = []).
Proof.
  intros Ht E Eh. cbv zeta.
  assert (Hp : title_prefix (Parser.title n) = Ok (JStr (firstn 60 t)))
    by now rewrite Ht.
  pose proof (sync_chat_commits float_repr n h d Hp) as Hsync.
  split.
  - intros k Hk. rewrite (Hsync (Some k)). unfold committed.
    destruct (Nat.ltb_spec k (length (sync_statements float_repr d n h)));
      [reflexivity | lia].
  - intros Hms.
    assert (Hh : stored_hash
                   (run [SelectChat (Parser.chat_id n);
                         SelectChat (Parser.chat_id n);
                         UpdateChat (chat_columns float_repr n h) (row_id row);
                         DeleteMessages (row_id row)] d)
                   (Parser.chat_id n) = Some h).
    { do 2 rewrite run_cons.
      change (Some h) with (Some (f_hash (chat_columns float_repr n h))).
      apply select_chat_updated; [exact E | reflexivity]. }
    split; [|split; [exact Hh|split; [|split]]].
    + rewrite (Hsync (Some 4)). unfold committed, sync_statements, lookups.
      rewrite E, Eh.
      destruct (Parser.messages n) as [|m ms]; [congruence|]. reflexivity.
    + unfold messages_of. simpl. apply filter_deleted.
    + match goal with
      | |- sync_chat _ _ _ {| store := ?d0; budget := None |} = _ =>
          pose proof (sync_chat_commits float_repr n h d0 Hp None) as H2;
          set (d1 := d0) in *
      end.
      rewrite H2. unfold committed, sync_statements, sync_outcome.
      unfold stored_hash in Hh.
      destruct (select_chat d1 (Parser.chat_id n)) as [row'|];
        [|discriminate].
      simpl in Hh. injection Hh as Hh. rewrite Hh, eqb_refl.
      now rewrite app_nil_r.
    + unfold messages_of. simpl. apply filter_deleted.
Qed.
End WriteGroup.

Lemma C5_statements_commit_one_by_one_witness :
  Ingest.sync_chat Examples.no_floats (Examples.chat_c1 "new text") (py "new")
    {| Store.store := Examples.stored_c1; Store.budget := Some 4 |}
  = (Raise StorageError,
     {| Store.store :=
          SyncSpec.run
            [Store.SelectChat (JStr (py "c1")); Store.SelectChat (JStr (py "c1"));
             Store.UpdateChat
               (Ingest.chat_columns Examples.no_floats
                                    (Examples.chat_c1 "new text") (py "new")) 1;
             Store.DeleteMessages 1]
            Examples.stored_c1;
        Store.budget := Some 0 |}).
Proof.
  refine (proj1 (proj2 (C5_statements_commit_one_by_one Examples.no_floats
                          (Examples.chat_c1 "new text") (py "new")
                          Examples.stored_c1 (t := py "T")
                          (row := _) eq_refl eq_refl eq_refl) _)).
  discriminate.
Defined.

(** C5 as stated fails: the update, the delete and the inserts are three
    transactions.  On a store that holds chat [c1] with one message, a
    failure right after the delete leaves the row of [c1] committed with
    the new fingerprint and without messages, and the next run reports
    the chat as Unchanged with still no message. *)
Lemma C5_counterexample :
  Store.messages_of Examples.stored_c1 1 <> []
  /\ (forall float_repr,
         exists w,
           Ingest.sync_chat float_repr (Examples.chat_c1 "new text")
             (py "new")
             {| Store.store := Examples.stored_c1; Store.budget := Some 4 |}
           = (Raise StorageError, w)
           /\ SyncSpec.stored_hash (Store.store w) (JStr (py "c1"))
              = Some (py "new")
           /\ Store.messages_of (Store.store w) 1 = []
           /\ fst (Ingest.sync_chat float_repr (Examples.chat_c1 "new text")
                     (py "new")
                     {| Store.store := Store.store w;
                        Store.budget := None |})
              = Ok Ingest.Unchanged
           /\ Store.messages_of
                (Store.store
                   (snd (Ingest.sync_chat float_repr
                           (Examples.chat_c1 "new text") (py "new")
                           {| Store.store := Store.store w;
                              Store.budget := None |}))) 1
              = []).
Proof.
  split; [discriminate|].
  intros float_repr. eexists. split; [reflexivity|].
  repeat split.
Qed.

(** ** Two runs over one export *)

Section TwoRuns.
Import Store Ingest SyncSpec.
Variable float_repr : pyfloat -> pystr.
Variable nan_order : Parser.sort_order.

Lemma normalize_chat_id (raw : json) (n : Parser.chat) :
  Parser.normalize_chat nan_order raw = Ok n ->
  Parser.chat_id n = external_id raw.
Proof.
  unfold Parser.normalize_chat. destruct raw as [| | | | | |c]; try discriminate.
  destruct (Parser.extract_messages_from_chat nan_order (JObj c));
    try discriminate.
  simpl. intros H. injection H as <-. reflexivity.
Qed.

(** When the title cannot be sliced the step raises after the lookups. *)
Lemma sync_chat_title_raise (n : Parser.chat) (h : pystr) (d : db) (e : exn) :
  title_prefix (Parser.title n) = Raise e ->
  fst (sync_chat float_repr n h {| store := d; budget := None |}) = Raise e.
Proof.
  intros Hp.
  unfold sync_chat, upsert_chat, bind, fetch_one_chat, transaction,
    select_chat.
  simpl. rewrite Hp.
  destruct (find (fun r => sql_eq (row_chat_id r) (Parser.chat_id n))
                 (chats d)) as [row|].
  - destruct (PyStr.eqb (f_hash (row_fields row)) h); reflexivity.
  - reflexivity.
Qed.

Lemma ingest_chat_Ok_inv (raw : json) (d : db) (o : outcome) (w : world) :
  ingest_chat float_repr nan_order raw {| store := d; budget := None |}
  = (Ok o, w) ->
  exists n h p,
    Parser.normalize_chat nan_order raw = Ok n
    /\ chat_fingerprint float_repr n = Ok h
    /\ title_prefix (Parser.title n) = Ok p
    /\ o = sync_outcome d n h
    /\ w = {| store := run (sync_statements float_repr d n h) d;
              budget := None |}.
Proof.
  unfold ingest_chat, bind at 1 2, lift.
  destruct (Parser.normalize_chat nan_order raw) as [n|]; [|discriminate].
  unfold ret at 1.
  destruct (chat_fingerprint float_repr n) as [h|] eqn:Hh; [|discriminate].
  unfold ret at 1.
  destruct (title_prefix (Parser.title n)) as [p|e] eqn:Hp.
  - rewrite (sync_chat_commits float_repr n h d Hp None). unfold committed.
    intros H. injection H as <- <-. exists n, h, p. repeat split; auto.
  - intros H. pose proof (sync_chat_title_raise n h d Hp) as Hr.
    rewrite H in Hr. discriminate.
Qed.

Lemma stored_hash_lookups (stmts : list statement) (d : db) (j : json) :
  forallb (fun s => negb (is_write s)) stmts = true ->
  stored_hash (run stmts d) j = stored_hash d j.
Proof.
  intros H. unfold stored_hash, select_chat.
  now destruct (run_lookups stmts d H) as [-> _].
Qed.

(** A chat whose stored fingerprint is the computed one is Unchanged:
    two lookups and no write. *)
Lemma ingest_chat_synced (raw : json) (d : db) :
  synced float_repr nan_order d raw ->
  ingest_chat float_repr nan_order raw {| store := d; budget := None |}
  = (Ok Unchanged,
     {| store := run (lookups (external_id raw)) d; budget := None |}).
Proof.
  intros [n [h [p [Hn [Hh [Hp Hs]]]]]].
  unfold ingest_chat, bind at 1 2, lift. rewrite Hn. unfold ret at 1.
  rewrite Hh. unfold ret at 1.
  rewrite (sync_chat_commits float_repr n h d Hp None).
  unfold committed, sync_outcome, sync_statements.
  rewrite <- (normalize_chat_id raw Hn).
  unfold stored_hash in Hs.
  destruct (select_chat d (Parser.chat_id n)) as [row|]; [|discriminate].
  simpl in Hs. injection Hs as Hs. rewrite Hs, eqb_refl.
  now rewrite app_nil_r.
Qed.

Lemma synced_lookups (stmts : list statement) (d : db) (raw : json) :
  forallb (fun s => negb (is_write s)) stmts = true ->
  synced float_repr nan_order d raw ->
  synced float_repr nan_order (run stmts d) raw.
Proof.
  intros H [n [h [p [Hn [Hh [Hp Hs]]]]]]. exists n, h, p.
  repeat split; auto. now rewrite stored_hash_lookups.
Qed.

Lemma all_lookups_read_only (items : list json) :
  forallb (fun s => negb (is_write s)) (all_lookups items) = true.
Proof. induction items as [|raw items IH]; simpl; auto. Qed.

Lemma add_unchanged_count (k : nat) (c : counts) :
  add_unchanged k (count Unchanged c) = add_unchanged (S k) c.
Proof. unfold add_unchanged, count. simpl. f_equal. lia. Qed.

(** The second run: every chat Unchanged, only lookups sent. *)
Lemma ingest_chats_synced (items : list json) :
  forall (d : db) (c : counts),
    Forall (synced float_repr nan_order d) items ->
    ingest_chats float_repr nan_order items c {| store := d; budget := None |}
    = (Ok (add_unchanged (length items) c),
       {| store := run (all_lookups items) d; budget := None |}).
Proof.
  induction items as [|raw items IH]; intros d c H.
  - simpl. unfold ret, add_unchanged. destruct c; reflexivity.
  - inversion H as [|? ? Hraw Hrest]; subst.
    simpl ingest_chats. unfold bind at 1.
    rewrite (ingest_chat_synced Hraw).
    rewrite IH.
    + rewrite add_unchanged_count. reflexivity.
    + eapply Forall_impl; [|exact Hrest].
      intros x. now apply synced_lookups.
Qed.
(** *** The first run *)

Lemma sql_eq_str (column : json) (a : pystr) :
  sql_eq column (JStr a) = true -> column = JStr a.
Proof.
  destruct column; simpl; try discriminate.
  intros H. apply eqb_eq in H. now subst.
Qed.

Lemma sql_eq_str_refl (a : pystr) : sql_eq (JStr a) (JStr a) = true.
Proof. simpl. apply eqb_refl. Qed.

Lemma find_app (A : Type) (p : A -> bool) (l1 l2 : list A) :
  find p (l1 ++ l2)
  = match find p l1 with Some x => Some x | None => find p l2 end.
Proof.
  induction l1 as [|x l1 IH]; simpl; [reflexivity|].
  destruct (p x); [reflexivity | exact IH].
Qed.

Definition updated_row (cols : chat_fields) (id : Z) (r : chat_row)
  : chat_row :=
  if (row_id r =? id)%Z
  then {| row_id := row_id r; row_chat_id := row_chat_id r;
          row_fields := cols |}
  else r.

Lemma updated_row_id (cols : chat_fields) (id : Z) (l : list chat_row) :
  map row_id (map (updated_row cols id) l) = map row_id l.
Proof.
  rewrite map_map. apply map_ext. intros r. unfold updated_row.
  now destruct (row_id r =? id)%Z.
Qed.

(** The [chats] table and the sequence after the sync step. *)
Lemma sync_tables (n : Parser.chat) (h : pystr) (d : db) :
  chats (run (sync_statements float_repr d n h) d)
  = match select_chat d (Parser.chat_id n) with
    | None =>
        chats d ++ [{| row_id := next_id d;
                       row_chat_id := Parser.chat_id n;
                       row_fields := chat_columns float_repr n h |}]
    | Some row =>
        if PyStr.eqb (f_hash (row_fields row)) h then chats d
        else map (updated_row (chat_columns float_repr n h) (row_id row))
                 (chats d)
    end
  /\ next_id (run (sync_statements float_repr d n h) d)
     = match select_chat d (Parser.chat_id n) with
       | None => (next_id d + 1)%Z
       | Some _ => next_id d
       end.
Proof.
  unfold sync_statements, lookups.
  destruct (select_chat d (Parser.chat_id n)) as [row|].
  - destruct (PyStr.eqb (f_hash (row_fields row)) h); [now simpl|].
    simpl app. rewrite !run_cons.
    match goal with
    | |- context [run (map InsertMessage ?r) ?d0] =>
        destruct (run_inserts r d0) as [Hc [_ Hn]]
    end.
    rewrite Hc, Hn. split; reflexivity.
  - simpl app. rewrite !run_cons.
    match goal with
    | |- context [run (map InsertMessage ?r) ?d0] =>
        destruct (run_inserts r d0) as [Hc [_ Hn]]
    end.
    rewrite Hc, Hn. split; reflexivity.
Qed.

Lemma sync_wf (n : Parser.chat) (h : pystr) (d : db) :
  wf_db d -> wf_db (run (sync_statements float_repr d n h) d).
Proof.
  intros [Hnd Hlt]. unfold wf_db.
  destruct (sync_tables n h d) as [-> ->].
  destruct (select_chat d (Parser.chat_id n)) as [row|].
  - destruct (PyStr.eqb (f_hash (row_fields row)) h); [now split|].
    rewrite updated_row_id. split; [exact Hnd|].
    rewrite Forall_forall in *. intros r Hr.
    apply in_map_iff in Hr as [r0 [<- Hr0]].
    unfold updated_row. destruct (row_id r0 =? row_id row)%Z; simpl; auto.
  - split.
    + rewrite map_app. simpl.
      apply (Permutation_NoDup (Permutation_cons_append _ _)).
      constructor; [|exact Hnd].
      intros Hin. apply in_map_iff in Hin as [r [Hr Hin]].
      rewrite Forall_forall in Hlt. specialize (Hlt r Hin). lia.
    + rewrite Forall_app. split.
      * eapply Forall_impl; [|exact Hlt]. simpl. intros; lia.
      * repeat constructor. simpl. lia.
Qed.

(** After the step the fingerprint stored for the chat is the computed
    one. *)
Lemma sync_stores_hash (n : Parser.chat) (h : pystr) (d : db) (a : pystr) :
  Parser.chat_id n = JStr a ->
  stored_hash (run (sync_statements float_repr d n h) d) (Parser.chat_id n)
  = Some h.
Proof.
  intros Ha. unfold stored_hash. unfold select_chat at 1.
  destruct (sync_tables n h d) as [-> _].
  destruct (select_chat d (Parser.chat_id n)) as [row|] eqn:E.
  - destruct (PyStr.eqb (f_hash (row_fields row)) h) eqn:Eh.
    + unfold select_chat in E. rewrite E. simpl.
      apply eqb_eq in Eh. now rewrite Eh.
    + rewrite find_map_preserved.
      * unfold select_chat in E. rewrite E. simpl.
        unfold updated_row. now rewrite Z.eqb_refl.
      * intros r. unfold updated_row.
        now destruct (row_id r =? row_id row)%Z.
  - rewrite find_app. unfold select_chat in E. rewrite E. simpl.
    rewrite Ha, sql_eq_str_refl. reflexivity.
Qed.

(** The step leaves the fingerprints stored for the other ids alone. *)
Lemma sync_keeps_others (n : Parser.chat) (h : pystr) (d : db)
      (a b : pystr) :
  wf_db d -> Parser.chat_id n = JStr a -> a <> b ->
  stored_hash (run (sync_statements float_repr d n h) d) (JStr b)
  = stored_hash d (JStr b).
Proof.
  intros [Hnd _] Ha Hab. unfold stored_hash. unfold select_chat at 1.
  destruct (sync_tables n h d) as [-> _].
  destruct (select_chat d (Parser.chat_id n)) as [row|] eqn:E.
  - destruct (PyStr.eqb (f_hash (row_fields row)) h); [reflexivity|].
    rewrite find_map_preserved.
    2: { intros r. unfold updated_row.
         now destruct (row_id r =? row_id row)%Z. }
    unfold select_chat in *.
    destruct (find (fun r => sql_eq (row_chat_id r) (JStr b)) (chats d))
      as [r|] eqn:Er; [|reflexivity].
    simpl. unfold updated_row.
    destruct (Z.eqb_spec (row_id r) (row_id row)) as [Hid|Hid];
      [|reflexivity].
    exfalso.
    apply find_some in E as [Hin Hsql], Er as [Hinr Hsqlr].
    assert (r = row) by (eapply NoDup_map_In_eq; eauto).
    subst r. rewrite Ha in Hsql.
    apply sql_eq_str in Hsql, Hsqlr. congruence.
  - rewrite find_app. unfold select_chat.
    destruct (find (fun r => sql_eq (row_chat_id r) (JStr b)) (chats d));
      [reflexivity|].
    simpl. rewrite Ha. simpl.
    destruct (PyStr.eqb a b) eqn:Eab; [|reflexivity].
    apply eqb_eq in Eab. contradiction.
Qed.

Lemma ingest_chats_first_run (items : list json) :
  forall (d : db) (c c1 : counts) (w1 : world),
    wf_db d ->
    Forall (fun raw => Parser.is_str (external_id raw) = true) items ->
    NoDup (map external_id items) ->
    ingest_chats float_repr nan_order items c {| store := d; budget := None |}
    = (Ok c1, w1) ->
    budget w1 = None
    /\ wf_db (store w1)
    /\ Forall (synced float_repr nan_order (store w1)) items
    /\ (forall b,
           ~ In (JStr b) (map external_id items) ->
           stored_hash (store w1) (JStr b) = stored_hash d (JStr b)).
Proof.
  induction items as [|raw items IH]; intros d c c1 w1 Hwf Hstr Hnd Hrun.
  - simpl in Hrun. injection Hrun as <- <-. simpl. auto.
  - simpl in Hrun. unfold bind at 1 in Hrun.
    destruct (ingest_chat float_repr nan_order raw
                {| store := d; budget := None |})
      as [[o|e] w'] eqn:Hic; [|discriminate].
    apply ingest_chat_Ok_inv in Hic
      as [n [h [p [Hn [Hh [Hp [-> ->]]]]]]].
    inversion Hstr as [|? ? Hraw Hstr']; subst.
    inversion Hnd as [|? ? Hfresh Hnd']; subst.
    pose proof (normalize_chat_id raw Hn) as Hid.
    destruct (external_id raw) as [| | | |a| |] eqn:Ea; try discriminate.
    destruct (IH _ _ _ _ (sync_wf n h Hwf) Hstr' Hnd' Hrun)
      as [Hb [Hwf1 [Hsynced Hkeep]]].
    split; [exact Hb|]. split; [exact Hwf1|]. split.
    + constructor; [|exact Hsynced].
      exists n, h, p. repeat split; auto.
      rewrite Hid, (Hkeep a Hfresh), <- Hid.
      now apply sync_stores_hash with (a := a).
    + intros b Hb'. simpl in Hb'.
      rewrite Hkeep by tauto.
      apply sync_keeps_others with (a := a); auto.
      intros ->. tauto.
Qed.

Lemma ingest_export_chats (export_dir : list file) (w w1 : world)
      (c : counts) :
  ingest_export float_repr nan_order export_dir w = (Ok c, w1) ->
  forall w',
    ingest_export float_repr nan_order export_dir w'
    = ingest_chats float_repr nan_order
          (export_chats export_dir) zero_counts w'.
Proof.
  unfold ingest_export, export_chats, bind, lift.
  destruct export_dir as [|[|data] rest]; simpl; try discriminate.
  destruct (iterate (Parser.load_conversations_json data));
    simpl; [reflexivity | discriminate].
Qed.

(** C2, as the code has it.  On a store whose internal ids are a key,
    and for an export whose chats carry pairwise distinct string ids:
    when a first run completes, a second run over the same export counts
    every chat as Unchanged, none as New or Updated, sends only lookups,
    and leaves both tables as they were. *)
Theorem C2_second_run_writes_nothing
        (export_dir : list file) (d : db) (c1 : counts) (w1 : world) :
  wf_db d ->
  Forall (fun raw => Parser.is_str (external_id raw) = true)
         (export_chats export_dir) ->
  NoDup (map external_id (export_chats export_dir)) ->
  ingest_export float_repr nan_order export_dir {| store := d; budget := None |}
  = (Ok c1, w1) ->
  exists reads,
    ingest_export float_repr nan_order export_dir w1
    = (Ok {| new_count := 0; updated_count := 0;
             unchanged_count := length (export_chats export_dir) |},
       {| store := run reads (store w1); budget := None |})
    /\ filter is_write reads = []
    /\ journal (run reads (store w1)) = journal (store w1) ++ reads
    /\ chats (run reads (store w1)) = chats (store w1)
    /\ messages (run reads (store w1)) = messages (store w1).
Proof.
  intros Hwf Hstr Hnd Hrun.
  pose proof (ingest_export_chats _ _ Hrun) as Hexp.
  rewrite Hexp in Hrun.
  destruct (ingest_chats_first_run _ Hwf Hstr Hnd Hrun)
    as [Hb [_ [Hsynced _]]].
  exists (all_lookups (export_chats export_dir)).
  pose proof (all_lookups_read_only (export_chats export_dir)) as Hro.
  split; [|split; [|split; [apply journal_run|]]].
  - rewrite Hexp. destruct w1 as [d1 b1]. simpl in Hb. subst b1.
    rewrite (ingest_chats_synced _ Hsynced).
    unfold add_unchanged, zero_counts. simpl. now rewrite Nat.add_0_r.
  - clear - Hro. induction (all_lookups (export_chats export_dir))
      as [|s l IH]; [reflexivity|].
    simpl in *. apply andb_true_iff in Hro as [Hs Hl].
    destruct (is_write s); [discriminate | auto].
  - destruct (run_lookups _ (store w1) Hro) as [Hc [Hm _]]. auto.
Qed.
End TwoRuns.

Lemma C2_second_run_writes_nothing_witness :
  exists reads,
    Ingest.ingest_export
      Examples.no_floats Examples.keep_order Examples.export_two_ids
      (snd (Ingest.ingest_export
              Examples.no_floats Examples.keep_order Examples.export_two_ids
              {| Store.store := Examples.empty_db; Store.budget := None |}))
    = (Ok {| Ingest.new_count := 0; Ingest.updated_count := 0;
             Ingest.unchanged_count := 2 |},
       {| Store.store :=
            SyncSpec.run reads
              (Store.store
                 (snd (Ingest.ingest_export
                         Examples.no_floats Examples.keep_order
                         Examples.export_two_ids
                         {| Store.store := Examples.empty_db;
                            Store.budget := None |})));
          Store.budget := None |})
    /\ filter Store.is_write reads = [].
Proof.
  destruct (C2_second_run_writes_nothing Examples.no_floats Examples.keep_order
              Examples.export_two_ids (d := Examples.empty_db)
              (c1 := {| Ingest.new_count := 2; Ingest.updated_count := 0;
                        Ingest.unchanged_count := 0 |})
              (w1 := snd (Ingest.ingest_export
                            Examples.no_floats Examples.keep_order
                            Examples.export_two_ids
                            {| Store.store := Examples.empty_db;
                               Store.budget := None |})))
    as [reads [H1 [H2 _]]].
  - split; simpl; constructor.
  - repeat constructor.
  - simpl. repeat constructor; simpl; intuition discriminate.
  - vm_compute. reflexivity.
  - exists reads. split; [exact H1 | exact H2].
Defined.

(** C2 as stated fails: when two records of the export carry the same
    external id, the first run stores the second one, and the second run
    finds the first changed, then the second: both are Updated again, and
    their messages are deleted and inserted again. *)
Lemma C2_counterexample :
  map SyncSpec.external_id (SyncSpec.export_chats Examples.export_same_id)
  = [JStr (py "c1"); JStr (py "c1")]
  /\ (forall float_repr nan_order,
         let first :=
           Ingest.ingest_export float_repr nan_order Examples.export_same_id
             {| Store.store := Examples.empty_db; Store.budget := None |} in
         let second :=
           Ingest.ingest_export float_repr nan_order Examples.export_same_id
                                (snd first) in
         fst first = Ok {| Ingest.new_count := 1; Ingest.updated_count := 1;
                           Ingest.unchanged_count := 0 |}
         /\ fst second
            = Ok {| Ingest.new_count := 0; Ingest.updated_count := 2;
                    Ingest.unchanged_count := 0 |}
         /\ length (filter Store.writes_messages
                           (Store.journal (Store.store (snd first)))) = 3
         /\ length (filter Store.writes_messages
                           (Store.journal (Store.store (snd second)))) = 7).
Proof.
  split; [reflexivity|].
  intros float_repr nan_order. vm_compute. repeat split.
Qed.

(* ================================================================== *)
(** * Further properties of the code *)
(* ================================================================== *)

Import Facts.

(** ** The volatile keys *)

Lemma pop_filter (d : dict) (k : pystr) :
  Dict.pop d k = filter (fun kv => negb (PyStr.eqb (fst kv) k)) d.
Proof.
  induction d as [|[k' v] d IH]; simpl; [reflexivity|].
  destruct (PyStr.eqb k' k); simpl; now rewrite IH.
Qed.

Lemma pops_filter (ks : list pystr) (d : dict) :
  fold_left Dict.pop ks d
  = filter (fun kv => negb (existsb (PyStr.eqb (fst kv)) ks)) d.
Proof.
  revert d. induction ks as [|k ks IH]; intros d; simpl.
  - induction d as [|kv d IHd]; simpl; [reflexivity | now rewrite <- IHd].
  - rewrite IH, pop_filter.
    induction d as [|[k' v] d IHd]; simpl; [reflexivity|].
    destruct (PyStr.eqb k' k); simpl; [exact IHd|].
    destruct (existsb (PyStr.eqb k') ks); simpl; now rewrite IHd.
Qed.

Lemma strip_stable_items (d : dict) :
  Hashing.strip_volatile_fields (JObj d) = JObj (stable_items d).
Proof.
  unfold Hashing.strip_volatile_fields, stable_items, volatile.
  now rewrite pops_filter.
Qed.

Lemma get_filter_key (p : pystr -> bool) (d : dict) (k : pystr) :
  Dict.get (filter (fun kv => p (fst kv)) d) k
  = if p k then Dict.get d k else JNull.
Proof.
  induction d as [|[k' v] d IH]; simpl; [now destruct (p k)|].
  destruct (PyStr.eqb k' k) eqn:E.
  - apply eqb_eq in E. subst k'.
    destruct (p k) eqn:Ep; simpl.
    + now rewrite eqb_refl.
    + rewrite IH. rewrite ?Ep. reflexivity.
  - destruct (p k') eqn:Ep'; simpl; [rewrite E|]; exact IH.
Qed.

Lemma contains_filter_key (p : pystr -> bool) (d : dict) (k : pystr) :
  Dict.contains (filter (fun kv => p (fst kv)) d) k
  = p k && Dict.contains d k.
Proof.
  induction d as [|[k' v] d IH]; simpl; [now rewrite andb_false_r|].
  destruct (PyStr.eqb k' k) eqn:E.
  - apply eqb_eq in E. subst k'.
    destruct (p k) eqn:Ep; simpl.
    + now rewrite eqb_refl.
    + rewrite IH. rewrite ?Ep. reflexivity.
  - destruct (p k') eqn:Ep'; simpl; [rewrite E|]; exact IH.
Qed.

Lemma filter_idem (A : Type) (p : A -> bool) (l : list A) :
  filter p (filter p l) = filter p l.
Proof.
  induction l as [|x l IH]; simpl; [reflexivity|].
  destruct (p x) eqn:E; simpl; [rewrite E|]; now rewrite IH.
Qed.

(** X1. strip_volatile_fields returns a dict holding exactly the message's
    items whose key is not one of the six volatile keys (id, create_time,
    update_time, timestamp, rating, metadata), in their order and with
    their values: looking up a volatile key in the result finds nothing,
    any other key finds what the message had. Applying it to its own
    result changes nothing, and a value that is not a dict is returned
    unchanged. *)
Theorem strip_volatile_fields_keeps_the_rest (d : dict) :
  let cleaned := stable_items d in
  Hashing.strip_volatile_fields (JObj d) = JObj cleaned
  /\ (forall k,
         Dict.get cleaned k = if volatile k then JNull else Dict.get d k)
  /\ (forall k,
         Dict.contains cleaned k = negb (volatile k) && Dict.contains d k)
  /\ Hashing.strip_volatile_fields (JObj cleaned) = JObj cleaned
  /\ (forall j,
         Spec.is_obj j = false -> Hashing.strip_volatile_fields j = j).
Proof.
  cbv zeta. split; [apply strip_stable_items|].
  split; [|split; [|split]].
  - intros k. unfold stable_items.
    rewrite (get_filter_key (fun k => negb (volatile k))).
    now destruct (volatile k).
  - intros k. unfold stable_items.
    apply (contains_filter_key (fun k => negb (volatile k))).
  - rewrite strip_stable_items. unfold stable_items.
    now rewrite filter_idem.
  - intros j Hj. destruct j; try reflexivity. discriminate.
Qed.

(** X2. hash_message gives the same result (the same digest or the same
    error) for two raw messages that have the same non-volatile items:
    what the volatile fields hold, and where they stand in the dict, never
    reaches the digest. *)
Theorem hash_message_ignores_volatile_fields
        (float_repr : pyfloat -> pystr) (d1 d2 : dict) :
  stable_items d1 = stable_items d2 ->
  Hashing.hash_message float_repr (JObj d1)
  = Hashing.hash_message float_repr (JObj d2).
Proof.
  intros H. unfold Hashing.hash_message.
  now rewrite !strip_stable_items, H.
Qed.

Lemma hash_message_ignores_volatile_fields_witness :
  Hashing.hash_message Examples.no_floats
    (JObj [(py "id", JStr (py "m1")); (py "role", JStr (py "user"));
           (py "create_time", JInt 100); (py "content", JStr (py "hi"))])
  = Hashing.hash_message Examples.no_floats
      (JObj [(py "role", JStr (py "user")); (py "metadata", JObj []);
             (py "content", JStr (py "hi")); (py "id", JStr (py "m2"))]).
Proof.
  apply hash_message_ignores_volatile_fields. reflexivity.
Defined.

(** ** The digest *)

Lemma hex_digit_is_hex (n : N) : (n < 16)%N -> is_hex (Sha256.hex_digit n) = true.
Proof.
  intros H. unfold Sha256.hex_digit, is_hex.
  destruct (N.ltb_spec n 10).
  - replace (48 <=? 48 + n)%N with true by (symmetry; apply N.leb_le; lia).
    replace (48 + n <=? 57)%N with true by (symmetry; apply N.leb_le; lia).
    reflexivity.
  - replace (97 <=? 87 + n)%N with true by (symmetry; apply N.leb_le; lia).
    replace (87 + n <=? 102)%N with true by (symmetry; apply N.leb_le; lia).
    apply orb_true_r.
Qed.

Lemma hex_byte_is_hex (b : N) :
  (b < 256)%N -> forallb is_hex (Sha256.hex_byte b) = true.
Proof.
  intros H. unfold Sha256.hex_byte. simpl.
  rewrite !hex_digit_is_hex; [reflexivity | |].
  - apply N.mod_lt. discriminate.
  - apply N.Div0.div_lt_upper_bound. lia.
Qed.

Lemma be_bytes_small (width : nat) (v : N) :
  Forall (fun b => (b < 256)%N) (Sha256.be_bytes width v).
Proof.
  unfold Sha256.be_bytes. apply Forall_forall. intros b Hb.
  apply in_map_iff in Hb as [i [<- _]].
  change 255%N with (N.ones 8). rewrite N.land_ones.
  apply N.mod_lt. discriminate.
Qed.

Lemma be_bytes_length (width : nat) (v : N) :
  length (Sha256.be_bytes width v) = width.
Proof.
  unfold Sha256.be_bytes. now rewrite length_map, length_rev, length_seq.
Qed.

Lemma digest_words_length (data : list N) :
  length (Sha256.digest_words data) = 8.
Proof.
  unfold Sha256.digest_words.
  destruct (fold_left Sha256.compress _ Sha256.initial_state)
    as [[[[[[[a b] c] d] e] f] g] h].
  reflexivity.
Qed.

Lemma flat_map_length_const (A B : Type) (f : A -> list B) (n : nat)
      (l : list A) :
  Forall (fun x => length (f x) = n) l ->
  length (flat_map f l) = length l * n.
Proof.
  induction 1 as [|x l Hx _ IH]; simpl; [reflexivity|].
  now rewrite length_app, Hx, IH.
Qed.

Lemma hexdigest_format (data : list N) :
  length (Sha256.hexdigest data) = 64
  /\ forallb is_hex (Sha256.hexdigest data) = true.
Proof.
  unfold Sha256.hexdigest. split.
  - rewrite (flat_map_length_const Sha256.hex_byte (n := 2)).
    + rewrite (flat_map_length_const (Sha256.be_bytes 4) (n := 4)).
      * now rewrite digest_words_length.
      * apply Forall_forall. intros w _. apply be_bytes_length.
    + apply Forall_forall. intros b _. reflexivity.
  - apply forallb_forall. intros c Hc.
    apply in_flat_map in Hc as [b [Hb Hc]].
    apply in_flat_map in Hb as [w [_ Hb]].
    pose proof (be_bytes_small 4 w) as Hs.
    rewrite Forall_forall in Hs. specialize (Hs b Hb).
    pose proof (hex_byte_is_hex Hs) as Hh.
    rewrite forallb_forall in Hh. now apply Hh.
Qed.

Lemma sha256_from_string_format (text h : pystr) :
  Hashing._sha256_from_string text = Ok h ->
  length h = 64 /\ forallb is_hex h = true.
Proof.
  unfold Hashing._sha256_from_string.
  destruct (PyStr.encode_utf8 text); [|discriminate].
  intros H. injection H as <-. apply hexdigest_format.
Qed.

(** X3. Every digest that _sha256_from_bytes, _sha256_from_string,
    hash_message or hash_chat returns is a string of exactly 64 lowercase
    hexadecimal digits. *)
Theorem digests_are_64_hex_digits (float_repr : pyfloat -> pystr) :
  (forall data,
      length (RawExport._sha256_from_bytes data) = 64
      /\ forallb is_hex (RawExport._sha256_from_bytes data) = true)
  /\ (forall text h,
         Hashing._sha256_from_string text = Ok h ->
         length h = 64 /\ forallb is_hex h = true)
  /\ (forall raw_message h,
         Hashing.hash_message float_repr raw_message = Ok h ->
         length h = 64 /\ forallb is_hex h = true)
  /\ (forall title messages extra_fields h,
         Hashing.hash_chat float_repr title messages extra_fields = Ok h ->
         length h = 64 /\ forallb is_hex h = true).
Proof.
  split; [intros data; apply hexdigest_format|].
  split; [apply sha256_from_string_format|].
  split.
  - intros m h. apply sha256_from_string_format.
  - intros t ms e h. apply sha256_from_string_format.
Qed.

(** ** Strings that cannot be encoded *)

Lemma utf8_char_surrogate (c : N) :
  PyStr.utf8_char c = None <-> is_surrogate c = true.
Proof.
  unfold PyStr.utf8_char, is_surrogate.
  destruct (N.ltb_spec c 128) as [L1|L1].
  - split; [discriminate|]. intros H.
    apply andb_true_iff in H as [H _]. apply N.leb_le in H. lia.
  - destruct (N.ltb_spec c 2048) as [L2|L2].
    + split; [discriminate|]. intros H.
      apply andb_true_iff in H as [H _]. apply N.leb_le in H. lia.
    + destruct ((55296 <=? c) && (c <=? 57343))%N; [tauto|].
      destruct (c <? 65536)%N; split; discriminate.
Qed.

Lemma encode_utf8_surrogate (s : pystr) :
  PyStr.encode_utf8 s = None <-> existsb is_surrogate s = true.
Proof.
  induction s as [|c s IH]; simpl.
  - split; discriminate.
  - rewrite orb_true_iff, <- IH, <- utf8_char_surrogate.
    destruct (PyStr.utf8_char c); destruct (PyStr.encode_utf8 s);
      split; try discriminate; try tauto.
    intros [H|H]; discriminate.
Qed.

Lemma sha256_from_string_raises (text : pystr) :
  Hashing._sha256_from_string text
  = if existsb is_surrogate text then Raise UnicodeEncodeError
    else Ok (Sha256.hexdigest
               (match PyStr.encode_utf8 text with
                | Some data => data
                | None => []
                end)).
Proof.
  unfold Hashing._sha256_from_string.
  destruct (PyStr.encode_utf8 text) eqn:E.
  - destruct (existsb is_surrogate text) eqn:Es; [|reflexivity].
    apply encode_utf8_surrogate in Es. congruence.
  - apply encode_utf8_surrogate in E. now rewrite E.
Qed.

(** ** Lone surrogates *)

Lemma escape_char_surrogate (c : N) :
  is_surrogate c = true -> JsonDumps.escape_char c = [c].
Proof.
  unfold is_surrogate. intros H.
  apply andb_true_iff in H as [H _]. apply N.leb_le in H.
  unfold JsonDumps.escape_char.
  repeat match goal with
         | |- context [(c =? ?n)%N] =>
             destruct (N.eqb_spec c n); [lia|]
         end.
  destruct (N.ltb_spec c 32); [lia | reflexivity].
Qed.

Lemma In_existsb_eqb (c : N) (s : pystr) :
  existsb (N.eqb c) s = true <-> In c s.
Proof.
  rewrite existsb_exists. split.
  - intros [x [Hx E]]. apply N.eqb_eq in E. now subst.
  - intros H. exists c. split; [exact H | apply N.eqb_refl].
Qed.

Lemma encode_basestring_surrogate (c : N) (s : pystr) :
  is_surrogate c = true -> In c s -> In c (JsonDumps.encode_basestring s).
Proof.
  intros Hc Hin. unfold JsonDumps.encode_basestring.
  apply in_or_app. right. apply in_or_app. left.
  apply in_flat_map. exists c. split; [exact Hin|].
  rewrite (escape_char_surrogate _ Hc). now left.
Qed.

Lemma In_join (c : N) (sep p : pystr) (parts : list pystr) :
  In p parts -> In c p -> In c (PyStr.join sep parts).
Proof.
  intros Hp Hc. induction parts as [|q parts IH]; [contradiction|].
  destruct Hp as [->|Hp].
  - destruct parts; simpl; [exact Hc|].
    apply in_or_app. now left.
  - specialize (IH Hp). destruct parts as [|q' parts]; [contradiction|].
    change (In c (q ++ sep ++ PyStr.join sep (q' :: parts))).
    apply in_or_app. right. apply in_or_app. now right.
Qed.

Section Surrogates.
Variable float_repr : pyfloat -> pystr.
Variable sort_keys : bool.
Variables item_separator key_separator : pystr.

Let dumps := JsonDumps.dumps float_repr sort_keys item_separator key_separator.

Lemma order_items_In (items : list (pystr * pystr)) (x : pystr * pystr) :
  In x items -> In x (JsonDumps.order_items sort_keys items).
Proof.
  unfold JsonDumps.order_items. destruct sort_keys; [|auto].
  intros H. eapply Permutation_in; [apply sort_by_perm | exact H].
Qed.

Lemma dumps_has_char (c : N) (j : json) :
  is_surrogate c = true -> has_char c j = true -> In c (dumps j).
Proof.
  intros Hc. induction j as [| | | | s | l IH | d IH] using json_ind;
    simpl; try discriminate.
  - intros H. apply In_existsb_eqb in H.
    now apply encode_basestring_surrogate.
  - intros H. apply existsb_exists in H as [x [Hx Hh]].
    rewrite Forall_forall in IH.
    right. apply in_or_app. left.
    apply In_join with (p := dumps x).
    + apply in_map_iff. exists x. auto.
    + now apply IH.
  - intros H. apply existsb_exists in H as [[k v] [Hkv Hh]].
    rewrite Forall_forall in IH. simpl in Hh.
    right. apply in_or_app. left.
    apply In_join
      with (p := JsonDumps.dump_item key_separator (k, dumps v)).
    + apply in_map. apply order_items_In.
      apply in_map_iff. exists (k, v). auto.
    + unfold JsonDumps.dump_item. cbn [fst snd].
      apply orb_true_iff in Hh as [Hk|Hv].
      * apply in_or_app. left. apply encode_basestring_surrogate; auto.
        now apply In_existsb_eqb.
      * apply in_or_app. right. apply in_or_app. right.
        apply (IH (k, v) Hkv Hv).
Qed.
End Surrogates.

Lemma canonical_json_surrogate
        (float_repr : pyfloat -> pystr) (c : N) (j : json) :
  is_surrogate c = true -> has_char c j = true ->
  existsb is_surrogate (Hashing._canonical_json float_repr j) = true.
Proof.
  intros Hc Hj. apply existsb_exists. exists c. split; [|exact Hc].
  now apply dumps_has_char.
Qed.

Lemma chat_payload_title (c : N) (title extra_fields : json)
      (messages : list json) :
  has_char c title = true ->
  has_char c (Hashing.chat_payload title messages extra_fields) = true.
Proof.
  intros H. unfold Hashing.chat_payload.
  destruct (truthy extra_fields); simpl; rewrite H;
    now rewrite orb_true_r.
Qed.

Lemma hash_chat_surrogate (float_repr : pyfloat -> pystr) (c : N)
      (title extra_fields : json) (messages : list json) :
  is_surrogate c = true -> has_char c title = true ->
  Hashing.hash_chat float_repr title messages extra_fields
  = Raise UnicodeEncodeError.
Proof.
  intros Hc Ht. unfold Hashing.hash_chat.
  rewrite sha256_from_string_raises.
  rewrite (canonical_json_surrogate float_repr c); auto.
  now apply chat_payload_title.
Qed.

(** X4. _sha256_from_string raises UnicodeEncodeError exactly when its
    text holds a lone surrogate code point (U+D800 to U+DFFF), and returns
    a digest otherwise. Since the canonical JSON is written with
    ensure_ascii=False, hash_message raises it when a surrogate occurs in
    a key or a string, at any depth, of the non-volatile part of the
    message, and hash_chat raises it when one occurs in the title. *)
Theorem hashing_raises_on_lone_surrogates (float_repr : pyfloat -> pystr) :
  (forall text,
      Hashing._sha256_from_string text = Raise UnicodeEncodeError
      <-> existsb is_surrogate text = true)
  /\ (forall text,
         existsb is_surrogate text = false ->
         exists h, Hashing._sha256_from_string text = Ok h)
  /\ (forall c d,
         is_surrogate c = true -> has_char c (JObj (stable_items d)) = true ->
         Hashing.hash_message float_repr (JObj d) = Raise UnicodeEncodeError)
  /\ (forall c title messages extra_fields,
         is_surrogate c = true -> has_char c title = true ->
         Hashing.hash_chat float_repr title messages extra_fields
         = Raise UnicodeEncodeError).
Proof.
  split; [|split; [|split]].
  - intros text. rewrite sha256_from_string_raises.
    destruct (existsb is_surrogate text); split; congruence.
  - intros text H. rewrite sha256_from_string_raises, H. eauto.
  - intros c d Hc Hd. unfold Hashing.hash_message.
    rewrite strip_stable_items, sha256_from_string_raises.
    now rewrite (canonical_json_surrogate float_repr c).
  - intros c title messages extra_fields. apply hash_chat_surrogate.
Qed.

(** ** Trimming *)

Lemma lstrip_app_keep (a b : pystr) (c : N) :
  PyStr.is_space c = false ->
  PyStr.lstrip (a ++ c :: b) = PyStr.lstrip a ++ c :: b.
Proof.
  intros Hc. induction a as [|x a IH]; simpl.
  - now rewrite Hc.
  - destruct (PyStr.is_space x); [exact IH | reflexivity].
Qed.

Lemma lstrip_head (s : pystr) :
  match PyStr.lstrip s with
  | [] => True
  | c :: _ => PyStr.is_space c = false
  end.
Proof.
  induction s as [|x s IH]; simpl; [exact I|].
  destruct (PyStr.is_space x) eqn:E; [exact IH | exact E].
Qed.

Lemma lstrip_idem (s : pystr) : PyStr.lstrip (PyStr.lstrip s) = PyStr.lstrip s.
Proof.
  pose proof (lstrip_head s) as H.
  destruct (PyStr.lstrip s) as [|c t]; [reflexivity|].
  simpl. now rewrite H.
Qed.

Lemma rstrip_cons_keep (c : N) (s : pystr) :
  PyStr.is_space c = false ->
  PyStr.rstrip (c :: s) = c :: PyStr.rstrip s.
Proof.
  intros Hc. unfold PyStr.rstrip. simpl rev.
  rewrite (lstrip_app_keep (rev s) [] c Hc).
  now rewrite rev_app_distr.
Qed.

Lemma rstrip_idem (s : pystr) : PyStr.rstrip (PyStr.rstrip s) = PyStr.rstrip s.
Proof.
  unfold PyStr.rstrip. now rewrite rev_involutive, lstrip_idem.
Qed.

(** The trimmed string: empty, or a non-blank character followed by a
    right-trimmed rest. *)
Lemma strip_shape (s : pystr) :
  PyStr.strip s = []
  \/ exists c t, PyStr.lstrip s = c :: t /\ PyStr.is_space c = false
                 /\ PyStr.strip s = c :: PyStr.rstrip t.
Proof.
  unfold PyStr.strip. pose proof (lstrip_head s) as H.
  destruct (PyStr.lstrip s) as [|c t]; [now left|].
  right. exists c, t. repeat split; auto. now apply rstrip_cons_keep.
Qed.

Lemma strip_idem (s : pystr) : PyStr.strip (PyStr.strip s) = PyStr.strip s.
Proof.
  destruct (strip_shape s) as [->|[c [t [_ [Hc ->]]]]]; [reflexivity|].
  unfold PyStr.strip at 1. simpl. rewrite Hc.
  rewrite (rstrip_cons_keep c _ Hc). now rewrite rstrip_idem.
Qed.

Lemma stripped_head (s : pystr) :
  stripped s ->
  match s with [] => True | c :: _ => PyStr.is_space c = false end.
Proof.
  unfold stripped. intros H.
  destruct (strip_shape s) as [E|[c [t [_ [Hc E]]]]]; rewrite E in H;
    subst s; auto.
Qed.

Lemma rstrip_last (s : pystr) :
  match rev (PyStr.rstrip s) with
  | [] => True
  | c :: _ => PyStr.is_space c = false
  end.
Proof.
  unfold PyStr.rstrip. rewrite rev_involutive. apply lstrip_head.
Qed.

Lemma stripped_last (s : pystr) :
  stripped s ->
  match rev s with [] => True | c :: _ => PyStr.is_space c = false end.
Proof.
  unfold stripped, PyStr.strip. intros H. rewrite <- H. apply rstrip_last.
Qed.

(** A string that starts and ends with a non-blank character is its own
    trimming. *)
Lemma strip_fixed (s : pystr) :
  match s with [] => True | c :: _ => PyStr.is_space c = false end ->
  match rev s with [] => True | c :: _ => PyStr.is_space c = false end ->
  PyStr.strip s = s.
Proof.
  intros Hh Hl. unfold PyStr.strip.
  assert (E : PyStr.lstrip s = s).
  { destruct s as [|c t]; [reflexivity|]. simpl. now rewrite Hh. }
  rewrite E. unfold PyStr.rstrip.
  destruct (rev s) as [|c t] eqn:Er.
  - simpl. apply (f_equal (@rev N)) in Er.
    now rewrite rev_involutive in Er.
  - simpl. rewrite Hl. rewrite <- Er. apply rev_involutive.
Qed.

Lemma newline_is_space : PyStr.is_space 10 = true.
Proof. reflexivity. Qed.

(** The join of non-empty trimmed parts is trimmed. *)
Lemma join_stripped (parts : list pystr) :
  Forall (fun p => stripped p /\ p <> []) parts ->
  stripped (PyStr.join Parser.newline parts).
Proof.
  intros H. apply strip_fixed.
  - destruct H as [|p parts [Hp Hne] _]; [exact I|].
    pose proof (stripped_head Hp) as Hh.
    destruct p as [|c p]; [congruence|].
    destruct parts; simpl; exact Hh.
  - induction H as [|p parts [Hp Hne] Hrest IH]; [exact I|].
    destruct parts as [|q parts].
    + simpl. pose proof (stripped_last Hp) as Hl.
      destruct (rev p) eqn:E; [|exact Hl].
      apply (f_equal (@rev N)) in E. rewrite rev_involutive in E.
      simpl in E. congruence.
    + change (PyStr.join Parser.newline (p :: q :: parts))
        with (p ++ Parser.newline ++ PyStr.join Parser.newline (q :: parts)).
      rewrite !rev_app_distr.
      destruct (rev (PyStr.join Parser.newline (q :: parts))) as [|c t] eqn:E.
      * exfalso. apply (f_equal (@rev N)) in E.
        rewrite rev_involutive in E. simpl rev in E.
        inversion Hrest as [|? ? [Hq Hqne] _]; subst.
        destruct q as [|x q]; [congruence|].
        destruct parts; simpl in E; discriminate.
      * simpl. exact IH.
Qed.

Lemma strip_stripped (s : pystr) : stripped (PyStr.strip s).
Proof. apply strip_idem. Qed.

(** ** Roles and contents *)

(** X5. extract_message_role on a message dict never raises. When author
    is a dict whose role is a string it returns that role (also an empty
    one); when author is a dict with another role, or is not a dict, it
    returns the message's own role if that is truthy and 'assistant'
    otherwise. The result is a string or a truthy value, never None. *)
Theorem extract_message_role_table (m : dict) :
  let author := Dict.get m (py "author") in
  let fallback := py_or (Dict.get m (py "role")) (JStr (py "assistant")) in
  let r := Parser.extract_message_role (JObj m) in
  (forall a role,
      author = JObj a -> Dict.get a (py "role") = JStr role ->
      r = Ok (JStr role))
  /\ (forall a,
         author = JObj a -> Parser.is_str (Dict.get a (py "role")) = false ->
         r = Ok fallback)
  /\ (Spec.is_obj author = false -> r = Ok fallback)
  /\ (truthy (Dict.get m (py "role")) = false ->
      fallback = JStr (py "assistant"))
  /\ (exists role,
         r = Ok role
         /\ (Parser.is_str role = true \/ truthy role = true)
         /\ role <> JNull).
Proof.
  cbv zeta. unfold Parser.extract_message_role.
  split; [|split; [|split; [|split]]].
  - intros a role -> ->. reflexivity.
  - intros a -> H. destruct (Dict.get a (py "role")); try reflexivity.
    discriminate.
  - intros H. destruct (Dict.get m (py "author")); try reflexivity.
    discriminate.
  - unfold py_or. now intros ->.
  - assert (Hf : (Parser.is_str
                    (py_or (Dict.get m (py "role")) (JStr (py "assistant")))
                  = true
                  \/ truthy
                       (py_or (Dict.get m (py "role"))
                              (JStr (py "assistant"))) = true)
                 /\ py_or (Dict.get m (py "role")) (JStr (py "assistant"))
                    <> JNull).
    { unfold py_or.
      destruct (truthy (Dict.get m (py "role"))) eqn:E.
      - split; [now right|]. intros H. rewrite H in E. discriminate.
      - split; [now left | discriminate]. }
    destruct (Dict.get m (py "author")) as [| | | | | |a];
      try (eexists; split; [reflexivity | exact Hf]).
    destruct (Dict.get a (py "role"));
      try (eexists; split; [reflexivity | exact Hf]).
    eexists. split; [reflexivity|]. split; [now left | discriminate].
Qed.

Lemma extract_message_content_stripped (raw_msg : json) (text : pystr) :
  Parser.extract_message_content raw_msg = Ok text -> stripped text.
Proof.
  unfold Parser.extract_message_content.
  destruct raw_msg as [| | | | | |m]; try discriminate.
  destruct (Dict.get m (py "content")) as [| | | |s| |c];
    try (intros H; injection H as <-; reflexivity).
  - intros H; injection H as <-. apply strip_stripped.
  - destruct (Dict.get c (py "parts"));
      try (destruct (Dict.contains c (py "text"));
           destruct (Dict.get c (py "text"));
           intros H; injection H as <-;
           first [reflexivity | apply strip_stripped]).
Qed.

Lemma normalize_message_stripped (msg : json) (m : Parser.message) :
  Parser.normalize_message msg = Ok m -> stripped (Parser.msg_content m).
Proof.
  unfold Parser.normalize_message.
  destruct (Parser.extract_message_role msg); [|discriminate].
  destruct (Parser.extract_message_content msg) as [text|] eqn:E;
    [|discriminate].
  simpl. intros H. injection H as <-. simpl.
  now apply extract_message_content_stripped with (raw_msg := msg).
Qed.

Lemma collect_mapping_stripped (nodes : list json) (ms : list Parser.message) :
  Parser.collect_mapping nodes = Ok ms ->
  Forall (fun m => stripped (Parser.msg_content m)) ms.
Proof.
  revert ms. induction nodes as [|node nodes IH]; simpl; intros ms H.
  - injection H as <-. constructor.
  - destruct node as [| | | | | |n]; try discriminate.
    destruct (truthy (Dict.get n (py "message"))); simpl in H; [|auto].
    destruct (Parser.normalize_message (Dict.get n (py "message")))
      as [m|] eqn:Em; try discriminate.
    destruct (Parser.collect_mapping nodes) as [ms'|]; try discriminate.
    simpl in H. injection H as <-.
    constructor; [now apply normalize_message_stripped in Em | now apply IH].
Qed.

Lemma rmap_normalize_stripped (l : list json) (ms : list Parser.message) :
  rmap Parser.normalize_message l = Ok ms ->
  Forall (fun m => stripped (Parser.msg_content m)) ms.
Proof.
  revert ms. induction l as [|x l IH]; simpl; intros ms H.
  - injection H as <-. constructor.
  - destruct (Parser.normalize_message x) as [m|] eqn:Em; try discriminate.
    destruct (rmap Parser.normalize_message l) as [ms'|]; try discriminate.
    simpl in H. injection H as <-.
    constructor; [now apply normalize_message_stripped in Em | now apply IH].
Qed.

Lemma extract_messages_stripped
        (nan_order : Parser.sort_order) (raw_chat : json)
        (ms : list Parser.message) :
  Parser.extract_messages_from_chat nan_order raw_chat = Ok ms ->
  Forall (fun m => stripped (Parser.msg_content m)) ms.
Proof.
  unfold Parser.extract_messages_from_chat.
  destruct raw_chat as [| | | | | |c]; try discriminate.
  destruct (Dict.get c (py "mapping")) as [| | | | | |mapping].
  7: { destruct (Parser.collect_mapping (map snd mapping)) as [collected|]
         eqn:Ec; [|discriminate].
       simpl. intros H. injection H as <-.
       apply collect_mapping_stripped in Ec.
       rewrite Forall_forall in *. intros m Hm. apply Ec.
       eapply Permutation_in; [|exact Hm].
       apply Permutation_sym, sort_messages_perm. }
  all: destruct (Dict.get c (py "messages")) as [| | | | |msgs|];
    try (intros H; injection H as <-; constructor).
  all: apply rmap_normalize_stripped.
Qed.

Lemma normalize_chat_messages
        (nan_order : Parser.sort_order) (raw_chat : json) (n : Parser.chat) :
  Parser.normalize_chat nan_order raw_chat = Ok n ->
  Parser.extract_messages_from_chat nan_order raw_chat = Ok (Parser.messages n).
Proof.
  unfold Parser.normalize_chat.
  destruct raw_chat as [| | | | | |c]; try discriminate.
  destruct (Parser.extract_messages_from_chat nan_order (JObj c));
    [|discriminate].
  simpl. intros H. injection H as <-. reflexivity.
Qed.

(** X6. Every message of a chat that normalize_chat returns has a trimmed
    content: stripping it again changes nothing, and it neither starts nor
    ends with a whitespace character. *)
Theorem normalized_contents_are_trimmed
        (nan_order : Parser.sort_order) (raw_chat : json) (n : Parser.chat) :
  Parser.normalize_chat nan_order raw_chat = Ok n ->
  Forall (fun m =>
            PyStr.strip (Parser.msg_content m) = Parser.msg_content m
            /\ match Parser.msg_content m with
               | [] => True
               | c :: _ => PyStr.is_space c = false
               end
            /\ match rev (Parser.msg_content m) with
               | [] => True
               | c :: _ => PyStr.is_space c = false
               end)
         (Parser.messages n).
Proof.
  intros H. apply normalize_chat_messages in H.
  apply extract_messages_stripped in H.
  eapply Forall_impl; [|exact H].
  intros m Hm. split; [exact Hm|].
  split; [now apply stripped_head | now apply stripped_last].
Qed.

Lemma normalized_contents_are_trimmed_witness :
  Forall (fun m =>
            PyStr.strip (Parser.msg_content m) = Parser.msg_content m
            /\ match Parser.msg_content m with
               | [] => True
               | c :: _ => PyStr.is_space c = false
               end
            /\ match rev (Parser.msg_content m) with
               | [] => True
               | c :: _ => PyStr.is_space c = false
               end)
         [{| Parser.msg_role := JStr (py "user");
             Parser.msg_content := py "hello";
             Parser.msg_raw_json := JObj (Examples.raw_message "m1") |}].
Proof.
  exact (normalized_contents_are_trimmed Examples.keep_order
           (Examples.raw_chat "m1")
           (n := {| Parser.chat_id := JStr (py "c1");
                    Parser.title := JStr (py "T");
                    Parser.create_time := JNull;
                    Parser.update_time := JNull;
                    Parser.model := JNull;
                    Parser.messages :=
                      [{| Parser.msg_role := JStr (py "user");
                          Parser.msg_content := py "hello";
                          Parser.msg_raw_json :=
                            JObj (Examples.raw_message "m1") |}];
                    Parser.raw_json := Examples.raw_chat "m1" |})
           eq_refl).
Defined.

(** ** The flattened text *)

Lemma flatten_content_parts (messages : list Parser.message) :
  Ingest.flatten_content messages
  = PyStr.strip (PyStr.join Parser.newline (content_parts messages)).
Proof.
  unfold Ingest.flatten_content, content_parts. do 2 f_equal.
  induction messages as [|m ms IH]; simpl; [reflexivity|].
  rewrite IH. now destruct (PyStr.strip (Parser.msg_content m)).
Qed.

Lemma content_parts_stripped (messages : list Parser.message) :
  Forall (fun p => stripped p /\ p <> []) (content_parts messages).
Proof.
  unfold content_parts. apply Forall_forall. intros p Hp.
  apply filter_In in Hp as [Hin Hne].
  apply in_map_iff in Hin as [m [<- _]].
  split; [apply strip_stripped|].
  intros E. rewrite E in Hne. discriminate.
Qed.

(** X7. flatten_content of normalized messages is the newline-join of
    their trimmed, non-empty contents: its final strip never removes
    anything, the result is itself trimmed, a message whose content is
    blank contributes nothing (no empty line), and for messages whose
    contents are already trimmed the joined parts are the non-empty
    contents themselves. *)
Theorem flatten_content_joins_the_texts (messages : list Parser.message) :
  Ingest.flatten_content messages
  = PyStr.join Parser.newline (content_parts messages)
  /\ PyStr.strip (Ingest.flatten_content messages)
     = Ingest.flatten_content messages
  /\ (forall before blank after,
         PyStr.strip (Parser.msg_content blank) = [] ->
         Ingest.flatten_content (before ++ blank :: after)
         = Ingest.flatten_content (before ++ after))
  /\ (Forall (fun m => PyStr.strip (Parser.msg_content m)
                       = Parser.msg_content m) messages ->
      content_parts messages
      = filter (fun p => match p with [] => false | _ :: _ => true end)
               (map Parser.msg_content messages)).
Proof.
  assert (E : Ingest.flatten_content messages
              = PyStr.join Parser.newline (content_parts messages)).
  { rewrite flatten_content_parts.
    apply join_stripped, content_parts_stripped. }
  split; [exact E|]. split; [|split].
  - rewrite flatten_content_parts. apply strip_idem.
  - intros before blank after Hb.
    rewrite !flatten_content_parts. do 2 f_equal.
    unfold content_parts. rewrite !map_app, !filter_app. simpl.
    now rewrite Hb.
  - intros H. unfold content_parts. f_equal. clear E.
    induction H as [|m ms Hm _ IH]; simpl; [reflexivity|].
    now rewrite Hm, IH.
Qed.

(** ** The normalized chat *)

Lemma normalize_chat_columns
        (nan_order : Parser.sort_order) (c : dict) (n : Parser.chat) :
  Parser.normalize_chat nan_order (JObj c) = Ok n ->
  Parser.title n = py_or (Dict.get c (py "title")) (JStr (py "Untitled Chat"))
  /\ Parser.chat_id n = Dict.get c (py "id")
  /\ Parser.create_time n = Dict.get c (py "create_time")
  /\ Parser.update_time n = Dict.get c (py "update_time")
  /\ Parser.model n = Dict.get c (py "model")
  /\ Parser.raw_json n = JObj c.
Proof.
  unfold Parser.normalize_chat.
  destruct (Parser.extract_messages_from_chat nan_order (JObj c)) as [ms|];
    [|discriminate].
  simpl. intros H. injection H as <-. simpl. repeat split.
Qed.

(** X8. When normalize_chat returns for a raw chat dict, the title is
    truthy: the raw title, or 'Untitled Chat' when that is missing, None
    or otherwise falsy. chat_id, create_time, update_time and model are
    the raw values under id, create_time, update_time and model (None when
    missing), the messages are those of extract_messages_from_chat, and
    normalizing the kept raw_json again gives the same normalized chat. *)
Theorem normalize_chat_fields
        (nan_order : Parser.sort_order) (c : dict) (n : Parser.chat) :
  Parser.normalize_chat nan_order (JObj c) = Ok n ->
  truthy (Parser.title n) = true
  /\ Parser.title n
     = (if truthy (Dict.get c (py "title")) then Dict.get c (py "title")
        else JStr (py "Untitled Chat"))
  /\ Parser.chat_id n = Dict.get c (py "id")
  /\ Parser.create_time n = Dict.get c (py "create_time")
  /\ Parser.update_time n = Dict.get c (py "update_time")
  /\ Parser.model n = Dict.get c (py "model")
  /\ Parser.extract_messages_from_chat nan_order (JObj c)
     = Ok (Parser.messages n)
  /\ Parser.normalize_chat nan_order (Parser.raw_json n) = Ok n.
Proof.
  intros H.
  destruct (@normalize_chat_columns nan_order c n H)
    as [Ht [Hi [Hc [Hu [Hm Hr]]]]].
  split; [|split; [|repeat split; auto]].
  - rewrite Ht. unfold py_or.
    destruct (truthy (Dict.get c (py "title"))) eqn:E; [exact E | reflexivity].
  - exact Ht.
  - now apply normalize_chat_messages.
  - now rewrite Hr.
Qed.

Lemma normalize_chat_fields_witness :
  truthy (JStr (py "Untitled Chat")) = true
  /\ JStr (py "Untitled Chat")
     = (if truthy (Dict.get [(py "title", JStr []); (py "id", JInt 7)]
                            (py "title"))
        then Dict.get [(py "title", JStr []); (py "id", JInt 7)] (py "title")
        else JStr (py "Untitled Chat")).
Proof.
  pose proof (@normalize_chat_fields Examples.keep_order
                [(py "title", JStr []); (py "id", JInt 7)]
                ({| Parser.chat_id := JInt 7;
                         Parser.title := JStr (py "Untitled Chat");
                         Parser.create_time := JNull;
                         Parser.update_time := JNull;
                         Parser.model := JNull;
                         Parser.messages := [];
                         Parser.raw_json :=
                           JObj [(py "title", JStr []); (py "id", JInt 7)] |})
                eq_refl) as [H1 [H2 _]].
  split; [exact H1 | exact H2].
Defined.

(** ** What a run sends *)

Section Sends.
Import Store Ingest SyncSpec.

Lemma sends_ret (A : Type) (a : A) : sends (ret a).
Proof.
  intros w r w' H. injection H as <- <-. exists []. split; [reflexivity|].
  destruct (budget w); simpl; [split; [lia | f_equal; lia] | reflexivity].
Qed.

Lemma sends_lift (A : Type) (x : result A) : sends (lift x).
Proof.
  destruct x; [apply sends_ret|].
  intros w r w' H. injection H as <- <-. exists []. split; [reflexivity|].
  destruct (budget w); simpl; [split; [lia | f_equal; lia] | reflexivity].
Qed.

Lemma sends_transaction (A : Type) (s : statement) (read : db -> A) :
  sends (transaction s read).
Proof.
  intros w r w' H. unfold transaction in H.
  destruct (budget w) as [[|k]|] eqn:Eb; injection H as <- <-.
  - exists []. simpl. rewrite Eb. auto.
  - exists [s]. simpl. split; [reflexivity|].
    split; [lia | f_equal; lia].
  - exists [s]. simpl. auto.
Qed.

Lemma sends_bind (A B : Type) (m : M A) (k : A -> M B) :
  sends m -> (forall a, sends (k a)) -> sends (bind m k).
Proof.
  intros Hm Hk w r w' H. unfold bind in H.
  destruct (m w) as [[a|e] w1] eqn:E.
  - destruct (Hm _ _ _ E) as [s1 [Hs1 Hb1]].
    destruct (Hk a _ _ _ H) as [s2 [Hs2 Hb2]].
    exists (s1 ++ s2). rewrite run_app, <- Hs1. split; [exact Hs2|].
    rewrite length_app.
    destruct (budget w) as [n|].
    + destruct Hb1 as [L1 Hb1]. rewrite Hb1 in Hb2.
      destruct Hb2 as [L2 Hb2]. split; [lia|].
      rewrite Hb2. f_equal. lia.
    + now rewrite Hb1 in Hb2.
  - injection H as <- <-. exact (Hm _ _ _ E).
Qed.

Variable float_repr : pyfloat -> pystr.
Variable nan_order : Parser.sort_order.

Lemma sends_insert_messages (ms : list Parser.message) :
  forall index chat_db_id,
    sends (insert_messages_from float_repr index chat_db_id ms).
Proof.
  induction ms as [|m ms IH]; intros index chat_db_id; simpl.
  - apply sends_ret.
  - apply sends_bind; [apply sends_transaction | intros _; apply IH].
Qed.

Lemma sends_upsert_chat (n : Parser.chat) (h : pystr) :
  sends (upsert_chat float_repr n h).
Proof.
  unfold upsert_chat. apply sends_bind; [apply sends_transaction|].
  intros [row|].
  - destruct (PyStr.eqb (f_hash (row_fields row)) h).
    + apply sends_bind; [apply sends_lift | intros _; apply sends_ret].
    + apply sends_bind; [apply sends_lift | intros _].
      apply sends_bind; [apply sends_transaction | intros _].
      apply sends_bind; [apply sends_transaction | intros _].
      apply sends_ret.
  - apply sends_bind; [apply sends_lift | intros _].
    apply sends_transaction.
Qed.

Lemma sends_sync_chat (n : Parser.chat) (h : pystr) :
  sends (sync_chat float_repr n h).
Proof.
  unfold sync_chat. apply sends_bind; [apply sends_transaction|].
  intros old_row. apply sends_bind; [apply sends_upsert_chat|].
  intros chat_db_id. destruct old_row as [row|].
  - destruct (negb (PyStr.eqb (f_hash (row_fields row)) h)).
    + apply sends_bind; [apply sends_insert_messages|].
      intros _. apply sends_ret.
    + apply sends_ret.
  - apply sends_bind; [apply sends_insert_messages|].
    intros _. apply sends_ret.
Qed.

Lemma sends_ingest_chat (raw_chat : json) :
  sends (ingest_chat float_repr nan_order raw_chat).
Proof.
  unfold ingest_chat. apply sends_bind; [apply sends_lift | intros n].
  apply sends_bind; [apply sends_lift | intros h].
  apply sends_sync_chat.
Qed.

Lemma sends_ingest_chats (items : list json) :
  forall c, sends (ingest_chats float_repr nan_order items c).
Proof.
  induction items as [|raw items IH]; intros c; simpl.
  - apply sends_ret.
  - apply sends_bind; [apply sends_ingest_chat | intros o; apply IH].
Qed.

Lemma sends_ingest_export (export_dir : list file) :
  sends (ingest_export float_repr nan_order export_dir).
Proof.
  unfold ingest_export.
  apply sends_bind; [apply sends_lift | intros path].
  apply sends_bind; [apply sends_lift | intros data].
  apply sends_bind; [apply sends_lift | intros items].
  apply sends_ingest_chats.
Qed.

(** ** What the statements keep *)

Lemma apply_keys (s : statement) (d : db) :
  exists added,
    map row_key (chats (apply s d)) = map row_key (chats d) ++ added.
Proof.
  destruct s; simpl.
  - exists []. now rewrite app_nil_r.
  - eexists. rewrite map_app. reflexivity.
  - exists []. rewrite app_nil_r, map_map. apply map_ext.
    intros r. now destruct (row_id r =? id)%Z.
  - exists []. now rewrite app_nil_r.
  - exists []. now rewrite app_nil_r.
Qed.

Lemma run_keys (stmts : list statement) (d : db) :
  exists added,
    map row_key (chats (run stmts d)) = map row_key (chats d) ++ added.
Proof.
  revert d. induction stmts as [|s stmts IH]; intros d.
  - exists []. simpl. now rewrite app_nil_r.
  - rewrite run_cons. destruct (IH (apply s d)) as [a2 H2].
    destruct (apply_keys s d) as [a1 H1].
    exists (a1 ++ a2). now rewrite H2, H1, app_assoc.
Qed.

Lemma apply_wf (s : statement) (d : db) : wf_db d -> wf_db (apply s d).
Proof.
  intros [Hnd Hlt]. unfold wf_db. destruct s; simpl; auto.
  - split.
    + rewrite map_app. simpl.
      apply (Permutation_NoDup (Permutation_cons_append _ _)).
      constructor; [|exact Hnd].
      intros Hin. apply in_map_iff in Hin as [r [Hr Hin]].
      rewrite Forall_forall in Hlt. specialize (Hlt r Hin). lia.
    + rewrite Forall_app. split.
      * eapply Forall_impl; [|exact Hlt]. simpl. intros; lia.
      * repeat constructor. simpl. lia.
  - split.
    + rewrite map_map.
      erewrite map_ext; [exact Hnd|].
      intros r. now destruct (row_id r =? id)%Z.
    + rewrite Forall_forall in *. intros r Hr.
      apply in_map_iff in Hr as [r0 [<- Hr0]].
      destruct (row_id r0 =? id)%Z; simpl; auto.
Qed.

Lemma run_wf (stmts : list statement) (d : db) :
  wf_db d -> wf_db (run stmts d).
Proof.
  revert d. induction stmts as [|s stmts IH]; intros d H; [exact H|].
  rewrite run_cons. now apply IH, apply_wf.
Qed.

(** X9. Whatever a run of ingest_export returns or raises, the store it
    leaves is the starting store with the committed statements applied in
    order, one per round trip used and logged in that order. The (internal
    id, external id) pairs of the chat rows that were there are kept in
    place and rows are only appended: no chat row is deleted or re-keyed.
    If the internal ids were pairwise distinct and below the sequence's
    next value before the run, they are so after it. *)
Theorem a_run_only_adds_chat_rows
        (export_dir : list file) (w w' : world) (r : result counts) :
  ingest_export float_repr nan_order export_dir w = (r, w') ->
  exists stmts added,
    store w' = run stmts (store w)
    /\ journal (store w') = journal (store w) ++ stmts
    /\ map row_key (chats (store w'))
       = map row_key (chats (store w)) ++ added
    /\ (wf_db (store w) -> wf_db (store w'))
    /\ match budget w with
       | None => budget w' = None
       | Some k => length stmts <= k /\ budget w' = Some (k - length stmts)
       end.
Proof.
  intros H. destruct (sends_ingest_export export_dir _ H) as [stmts [Hs Hb]].
  destruct (run_keys stmts (store w)) as [added Ha].
  exists stmts, added. rewrite Hs.
  split; [reflexivity|]. split; [apply journal_run|].
  split; [exact Ha|]. split; [apply run_wf | exact Hb].
Qed.

(** ** Counting *)

Lemma total_count (o : outcome) (c : counts) : total (count o c) = S (total c).
Proof. destruct o; unfold total, count; simpl; lia. Qed.

Lemma ingest_chats_total (items : list json) :
  forall c c' w w',
    ingest_chats float_repr nan_order items c w = (Ok c', w') ->
    total c' = total c + length items.
Proof.
  induction items as [|raw items IH]; intros c c' w w' H; simpl in H.
  - injection H as <- <-. simpl. lia.
  - unfold bind in H.
    destruct (ingest_chat float_repr nan_order raw w) as [[o|e] w1];
      [|discriminate].
    apply IH in H. rewrite H, total_count. simpl. lia.
Qed.

(** X10. When ingest_export completes, new_count + updated_count +
    unchanged_count equals the number of records of the export: every
    record is counted exactly once. *)
Theorem every_record_is_counted_once
        (export_dir : list file) (c : counts) (w w' : world) :
  ingest_export float_repr nan_order export_dir w = (Ok c, w') ->
  total c = length (export_chats export_dir)
  /\ new_count c + updated_count c + unchanged_count c
     = length (export_chats export_dir).
Proof.
  intros H. rewrite (ingest_export_chats float_repr nan_order _ _ H) in H.
  apply ingest_chats_total in H. unfold total in *. simpl in H. lia.
Qed.

(** ** A record that cannot be read *)

Lemma ingest_chats_app (before after : list json) :
  forall c w,
    ingest_chats float_repr nan_order (before ++ after) c w
    = bind (ingest_chats float_repr nan_order before c)
           (fun c1 => ingest_chats float_repr nan_order after c1) w.
Proof.
  induction before as [|raw before IH]; intros c w; simpl.
  - reflexivity.
  - unfold bind at 1 2 3.
    destruct (ingest_chat float_repr nan_order raw w) as [[o|e] w1];
      [|reflexivity].
    rewrite IH. reflexivity.
Qed.

Lemma ingest_chat_raises (raw : json) (e : exn) (w : world) :
  rbind (Parser.normalize_chat nan_order raw) (chat_fingerprint float_repr)
  = Raise e ->
  ingest_chat float_repr nan_order raw w = (Raise e, w).
Proof.
  unfold ingest_chat, bind, lift.
  destruct (Parser.normalize_chat nan_order raw) as [n|e']; simpl.
  - intros ->. reflexivity.
  - intros H. injection H as <-. reflexivity.
Qed.

(** X11. A record on which normalize_chat or the fingerprint computation
    raises aborts the run with that exception, before any database call
    for it: the records before it stay synced as they were, the store is
    not touched for the bad record, and the records after it are not
    processed (the loop has no error handling per record). *)
Theorem a_bad_record_aborts_the_run
        (before after : list json) (bad : json) (e : exn)
        (c c1 : counts) (w w1 : world) :
  ingest_chats float_repr nan_order before c w = (Ok c1, w1) ->
  rbind (Parser.normalize_chat nan_order bad) (chat_fingerprint float_repr)
  = Raise e ->
  ingest_chat float_repr nan_order bad w1 = (Raise e, w1)
  /\ ingest_chats float_repr nan_order (before ++ bad :: after) c w
     = (Raise e, w1).
Proof.
  intros Hb He. pose proof (ingest_chat_raises bad w1 He) as Hr.
  split; [exact Hr|].
  rewrite ingest_chats_app. unfold bind at 1. rewrite Hb.
  simpl. unfold bind. now rewrite Hr.
Qed.

(** X12. A raw chat whose normalized title contains a lone surrogate makes
    the fingerprint computation raise UnicodeEncodeError, so processing
    that record raises it with the store untouched (no lookup is sent). *)
Theorem a_lone_surrogate_in_the_title_aborts
        (raw : json) (n : Parser.chat) (c : N) (w : world) :
  Parser.normalize_chat nan_order raw = Ok n ->
  is_surrogate c = true -> has_char c (Parser.title n) = true ->
  chat_fingerprint float_repr n = Raise UnicodeEncodeError
  /\ ingest_chat float_repr nan_order raw w = (Raise UnicodeEncodeError, w).
Proof.
  intros Hn Hc Ht.
  assert (Hf : chat_fingerprint float_repr n = Raise UnicodeEncodeError).
  { unfold chat_fingerprint. now apply hash_chat_surrogate with (c := c). }
  split; [exact Hf|].
  apply ingest_chat_raises. now rewrite Hn.
Qed.

(** ** A title that is a number *)

(** X13. With a storage that answers every round trip, the sync step for a
    normalized chat whose title is a number (an int, a float or a bool,
    which normalize_chat lets through when truthy) raises TypeError at the
    title slice normalized['title'][:60] of upsert_chat's log line, in
    each of its three branches: after the two lookups and before any
    write, so the chat and message tables are left as they were. *)
Theorem a_numeric_title_raises_after_the_lookups
        (n : Parser.chat) (h : pystr) (d : db) :
  is_number (Parser.title n) = true ->
  sync_chat float_repr n h {| store := d; budget := None |}
  = (Raise TypeError,
     {| store := run (lookups (Parser.chat_id n)) d; budget := None |})
  /\ chats (run (lookups (Parser.chat_id n)) d) = chats d
  /\ messages (run (lookups (Parser.chat_id n)) d) = messages d.
Proof.
  intros Ht. split; [|split; reflexivity].
  assert (Hp : title_prefix (Parser.title n) = Raise TypeError)
    by (destruct (Parser.title n); try discriminate; reflexivity).
  unfold sync_chat, upsert_chat, bind, fetch_one_chat, transaction,
    select_chat.
  simpl. rewrite Hp.
  destruct (find (fun r => sql_eq (row_chat_id r) (Parser.chat_id n))
                 (chats d)) as [row|].
  - destruct (PyStr.eqb (f_hash (row_fields row)) h); reflexivity.
  - reflexivity.
Qed.

(** ** A chat without an id *)

Lemma select_chat_null (d : db) : select_chat d JNull = None.
Proof.
  unfold select_chat. induction (chats d) as [|r l IH]; simpl; [reflexivity|].
  now destruct (row_chat_id r).
Qed.

(** X14. A chat without id (chat_id None) is never found: the lookup WHERE
    chat_id = NULL matches no row, whatever is stored. So, with a string
    title and a storage that accepts every statement, its sync step always
    takes the New branch and appends a chat row with a NULL external id,
    and afterwards the lookup still finds none: every run adds the chat
    again. *)
Theorem a_chat_without_id_is_new_on_every_run
        (n : Parser.chat) (h : pystr) (d : db) (t : pystr) :
  Parser.chat_id n = JNull -> Parser.title n = JStr t ->
  let stmts := sync_statements float_repr d n h in
  let d' := run stmts d in
  select_chat d JNull = None
  /\ sync_chat float_repr n h {| store := d; budget := None |}
     = (Ok New, {| store := d'; budget := None |})
  /\ chats d'
     = chats d ++ [{| row_id := next_id d; row_chat_id := JNull;
                      row_fields := chat_columns float_repr n h |}]
  /\ select_chat d' JNull = None.
Proof.
  intros Hid Ht. cbv zeta.
  split; [apply select_chat_null|].
  assert (Hp : title_prefix (Parser.title n) = Ok (JStr (firstn 60 t)))
    by now rewrite Ht.
  pose proof (sync_chat_commits float_repr n h d Hp None) as Hs.
  pose proof (sync_tables float_repr n h d) as [Hc _].
  unfold committed, sync_outcome in Hs.
  rewrite Hid in *. rewrite select_chat_null in *.
  split; [exact Hs|]. split; [exact Hc | reflexivity].
Qed.

(** ** The first run *)

Lemma stored_hash_None (d : db) (j : json) :
  stored_hash d j = None <-> select_chat d j = None.
Proof.
  unfold stored_hash. destruct (select_chat d j); simpl; split;
    congruence.
Qed.

Lemma ingest_chats_all_new (items : list json) :
  forall (d : db) (c c1 : counts) (w1 : world),
    wf_db d ->
    Forall (fun raw => Parser.is_str (external_id raw) = true) items ->
    NoDup (map external_id items) ->
    Forall (fun raw => stored_hash d (external_id raw) = None) items ->
    ingest_chats float_repr nan_order items c {| store := d; budget := None |}
    = (Ok c1, w1) ->
    c1 = {| new_count := length items + new_count c;
            updated_count := updated_count c;
            unchanged_count := unchanged_count c |}
    /\ map row_chat_id (chats (store w1))
       = map row_chat_id (chats d) ++ map external_id items
    /\ map row_id (chats (store w1))
       = map row_id (chats d)
         ++ map (fun i => (next_id d + Z.of_nat i)%Z) (seq 0 (length items))
    /\ next_id (store w1) = (next_id d + Z.of_nat (length items))%Z.
Proof.
  induction items as [|raw items IH]; intros d c c1 w1 Hwf Hstr Hnd Hnew Hrun.
  - simpl in Hrun. injection Hrun as <- <-. simpl.
    rewrite !app_nil_r, Z.add_0_r. destruct c; auto.
  - simpl in Hrun. unfold bind at 1 in Hrun.
    destruct (ingest_chat float_repr nan_order raw
                {| store := d; budget := None |})
      as [[o|e] w'] eqn:Hic; [|discriminate].
    apply ingest_chat_Ok_inv in Hic
      as [n [h [p [Hn [Hh [Hp [-> ->]]]]]]].
    inversion Hstr as [|? ? Hraw Hstr']; subst.
    inversion Hnd as [|? ? Hfresh Hnd']; subst.
    inversion Hnew as [|? ? Hnone Hnew']; subst.
    pose proof (normalize_chat_id nan_order raw Hn) as Hid.
    destruct (external_id raw) as [| | | |a| |] eqn:Ea; try discriminate.
    apply stored_hash_None in Hnone. rewrite <- Hid in Hnone.
    pose proof (sync_tables float_repr n h d) as [Hc Hnext].
    rewrite Hnone in Hc, Hnext.
    assert (Hnew1 : Forall
              (fun raw0 =>
                 stored_hash (run (sync_statements float_repr d n h) d)
                             (external_id raw0) = None) items).
    { rewrite Forall_forall in *. intros x Hx.
      specialize (Hstr' x Hx). specialize (Hnew' x Hx).
      destruct (external_id x) as [| | | |b| |] eqn:Eb; try discriminate.
      rewrite (sync_keeps_others float_repr n h (a := a) (b := b));
        auto.
      intros ->. apply Hfresh. rewrite <- Eb. now apply in_map. }
    destruct (IH _ _ _ _ (sync_wf float_repr n h Hwf) Hstr' Hnd' Hnew1 Hrun)
      as [Hc1 [Hids [Hrows Hnx]]].
    unfold sync_outcome in Hc1. rewrite Hnone in Hc1.
    rewrite Hc in Hids, Hrows. rewrite Hnext in Hrows, Hnx.
    rewrite map_app in Hids, Hrows. simpl in Hids, Hrows.
    rewrite <- app_assoc in Hids, Hrows. simpl in Hids, Hrows.
    split; [|split; [|split]].
    + rewrite Hc1. simpl. f_equal. lia.
    + rewrite Hids, Hid. simpl. now rewrite Ea.
    + rewrite Hrows. simpl. rewrite Z.add_0_r. do 2 f_equal.
      rewrite <- seq_shift, map_map. apply map_ext. intros i. lia.
    + rewrite Hnx. simpl length. lia.
Qed.

(** X15. With a storage that answers every round trip and issues internal
    ids from a sequence: when the records of the export carry pairwise
    distinct string ids, none of which is stored yet, a completed run of
    ingest_export counts every record as New (updated and unchanged are 0)
    and appends exactly one chat row per record, in export order, with
    consecutive internal ids. *)
Theorem the_first_run_inserts_every_chat
        (export_dir : list file) (d : db) (c1 : counts) (w1 : world) :
  wf_db d ->
  Forall (fun raw => Parser.is_str (external_id raw) = true)
         (export_chats export_dir) ->
  NoDup (map external_id (export_chats export_dir)) ->
  Forall (fun raw => stored_hash d (external_id raw) = None)
         (export_chats export_dir) ->
  ingest_export float_repr nan_order export_dir {| store := d; budget := None |}
  = (Ok c1, w1) ->
  c1 = {| new_count := length (export_chats export_dir);
          updated_count := 0; unchanged_count := 0 |}
  /\ map row_chat_id (chats (store w1))
     = map row_chat_id (chats d) ++ map external_id (export_chats export_dir)
  /\ map row_id (chats (store w1))
     = map row_id (chats d)
       ++ map (fun i => (next_id d + Z.of_nat i)%Z)
              (seq 0 (length (export_chats export_dir)))
  /\ next_id (store w1)
     = (next_id d + Z.of_nat (length (export_chats export_dir)))%Z.
Proof.
  intros Hwf Hstr Hnd Hnew Hrun.
  rewrite (ingest_export_chats float_repr nan_order _ _ Hrun) in Hrun.
  destruct (ingest_chats_all_new _ Hwf Hstr Hnd Hnew Hrun)
    as [Hc [Hids [Hrows Hnx]]].
  split; [|auto]. rewrite Hc. simpl. now rewrite Nat.add_0_r.
Qed.

(** ** The conversations key *)

(** X16. When the root of conversations.json is a dict with the key
    conversations, load_conversations_json returns that value unchecked.
    If it is not a list, ingest_export fails before any database call:
    TypeError for None, a number or a bool (len of it), AttributeError for
    a non-empty dict or string (normalize_chat is called on a key or on a
    character). An empty dict, string or list completes with zero counts,
    and a list is processed record by record. *)
Theorem the_conversations_value_is_not_checked
        (d : dict) (rest : list file) (w : world) :
  Dict.contains d (py "conversations") = true ->
  let v := Dict.get d (py "conversations") in
  let res := ingest_export float_repr nan_order (Document (JObj d) :: rest) w in
  Parser.load_conversations_json (JObj d) = v
  /\ (Spec.is_list v = false -> Spec.is_obj v = false ->
      Parser.is_str v = false -> res = (Raise TypeError, w))
  /\ (forall k x items, v = JObj ((k, x) :: items) ->
                        res = (Raise AttributeError, w))
  /\ (forall ch s, v = JStr (ch :: s) -> res = (Raise AttributeError, w))
  /\ (v = JObj [] \/ v = JStr [] \/ v = JList [] ->
      res = (Ok zero_counts, w))
  /\ (forall items, v = JList items ->
                    res = ingest_chats float_repr nan_order
                          items zero_counts w).
Proof.
  intros Hc. cbv zeta.
  unfold ingest_export, bind, lift. simpl. rewrite Hc.
  split; [reflexivity|].
  split; [|split; [|split; [|split]]].
  - intros Hl Ho Hs.
    destruct (Dict.get d (py "conversations")); try discriminate;
      reflexivity.
  - intros k x items ->. reflexivity.
  - intros ch s ->. reflexivity.
  - intros [->|[->| ->]]; reflexivity.
  - intros items ->. reflexivity.
Qed.
End Sends.

(** ** Escaping for the chat page *)

Lemma replace_char (a : N) (new s : pystr) :
  StaticGen.replace [a] new s
  = flat_map (fun c => if (a =? c)%N then new else [c]) s.
Proof.
  unfold StaticGen.replace.
  induction s as [|c s IH]; [reflexivity|].
  cbn [StaticGen.replace_from StaticGen.starts_with flat_map length Nat.sub].
  rewrite andb_true_r.
  destruct (a =? c)%N; rewrite IH; reflexivity.
Qed.

Lemma flat_map_flat_map (A B C : Type) (f : A -> list B) (g : B -> list C)
      (l : list A) :
  flat_map g (flat_map f l) = flat_map (fun x => flat_map g (f x)) l.
Proof.
  induction l as [|x l IH]; simpl; [reflexivity|].
  now rewrite flat_map_app, IH.
Qed.

Lemma nl2br_chars (text : pystr) :
  StaticGen.nl2br text = flat_map html_char text.
Proof.
  unfold StaticGen.nl2br. destruct text as [|c0 t0]; [reflexivity|].
  generalize (c0 :: t0). clear c0 t0. intros text.
  cbv zeta. unfold Parser.newline.
  change (py ">") with [62%N]. change (py "<") with [60%N].
  change (py "&") with [38%N].
  rewrite !replace_char, !flat_map_flat_map.
  apply flat_map_ext. intros c. unfold html_char.
  destruct (N.eqb_spec 38 c) as [<-|H38]; [reflexivity|].
  destruct (N.eqb_spec c 38) as [E|_]; [congruence|].
  cbn [flat_map app].
  destruct (N.eqb_spec 60 c) as [<-|H60]; [reflexivity|].
  destruct (N.eqb_spec c 60) as [E|_]; [congruence|].
  cbn [flat_map app].
  destruct (N.eqb_spec 62 c) as [<-|H62]; [reflexivity|].
  destruct (N.eqb_spec c 62) as [E|_]; [congruence|].
  cbn [flat_map app].
  destruct (N.eqb_spec 10 c) as [<-|H10]; [reflexivity|].
  destruct (N.eqb_spec c 10) as [E|_]; [congruence|].
  reflexivity.
Qed.

Lemma well_escaped_char (c : N) (rest : pystr) :
  well_escaped_from 0 (html_char c ++ rest) = well_escaped_from 0 rest.
Proof.
  unfold html_char.
  destruct (N.eqb_spec c 38) as [->|H38]; [reflexivity|].
  destruct (N.eqb_spec c 60) as [->|H60]; [reflexivity|].
  destruct (N.eqb_spec c 62) as [->|H62]; [reflexivity|].
  destruct (N.eqb_spec c 10) as [->|H10]; [reflexivity|].
  cbn [app well_escaped_from find tokens StaticGen.starts_with].
  change (py "<br>") with [60; 98; 114; 62]%N.
  change (py "&amp;") with [38; 97; 109; 112; 59]%N.
  change (py "&lt;") with [38; 108; 116; 59]%N.
  change (py "&gt;") with [38; 103; 116; 59]%N.
  cbn [StaticGen.starts_with].
  destruct (N.eqb_spec 60 c) as [E|_]; [congruence|].
  destruct (N.eqb_spec 38 c) as [E|_]; [congruence|].
  cbn [andb]. unfold is_markup.
  destruct (N.eqb_spec c 38) as [E|_]; [congruence|].
  destruct (N.eqb_spec c 60) as [E|_]; [congruence|].
  destruct (N.eqb_spec c 62) as [E|_]; [congruence|].
  reflexivity.
Qed.

Lemma html_char_prefix (a b : N) (r1 r2 : pystr) :
  html_char a ++ r1 = html_char b ++ r2 -> a = b /\ r1 = r2.
Proof.
  unfold html_char.
  destruct (N.eqb_spec a 38) as [->|A38];
    [|destruct (N.eqb_spec a 60) as [->|A60];
      [|destruct (N.eqb_spec a 62) as [->|A62];
        [|destruct (N.eqb_spec a 10) as [->|A10]]]];
  (destruct (N.eqb_spec b 38) as [->|B38];
    [|destruct (N.eqb_spec b 60) as [->|B60];
      [|destruct (N.eqb_spec b 62) as [->|B62];
        [|destruct (N.eqb_spec b 10) as [->|B10]]]]);
  intros H; try discriminate H;
  try (injection H; intros; subst; split; congruence).
Qed.

Lemma html_char_nonempty (c : N) (r : pystr) : html_char c ++ r <> [].
Proof.
  unfold html_char.
  destruct (c =? 38)%N; [discriminate|].
  destruct (c =? 60)%N; [discriminate|].
  destruct (c =? 62)%N; [discriminate|].
  destruct (c =? 10)%N; discriminate.
Qed.

Lemma flat_map_html_char_inj (a : pystr) :
  forall b, flat_map html_char a = flat_map html_char b -> a = b.
Proof.
  induction a as [|x a IH]; intros [|y b] H; simpl in H.
  - reflexivity.
  - symmetry in H. now apply html_char_nonempty in H.
  - now apply html_char_nonempty in H.
  - apply html_char_prefix in H as [-> H]. f_equal. now apply IH.
Qed.

(** X17. nl2br works character by character: & becomes &amp;, < becomes
    &lt;, > becomes &gt;, a newline becomes <br> followed by the newline,
    and every other character stays. Hence nl2br(a + b) = nl2br(a) +
    nl2br(b), the inserted entities and tags are not escaped a second time
    by the later replace calls, and an entity already in the text is
    escaped again (&lt; becomes &amp;lt;). *)
Theorem nl2br_escapes_each_character (text : pystr) :
  StaticGen.nl2br text = flat_map html_char text
  /\ (forall a b,
         StaticGen.nl2br (a ++ b) = StaticGen.nl2br a ++ StaticGen.nl2br b)
  /\ StaticGen.nl2br (py "a < b & c") = py "a &lt; b &amp; c"
  /\ StaticGen.nl2br (py "&lt;") = py "&amp;lt;".
Proof.
  split; [apply nl2br_chars|]. split; [|split; reflexivity].
  intros a b. rewrite !nl2br_chars. apply flat_map_app.
Qed.

(** X18. In the output of nl2br every <, > and & belongs to a <br> tag or
    to one of the entities &amp;, &lt;, &gt;: no other tag or entity of
    the message text survives. *)
Theorem nl2br_leaves_no_markup (text : pystr) :
  well_escaped (StaticGen.nl2br text) = true.
Proof.
  unfold well_escaped. rewrite nl2br_chars.
  induction text as [|c text IH]; [reflexivity|].
  simpl flat_map. now rewrite well_escaped_char.
Qed.

(** X19. nl2br loses nothing: two texts with the same escaped form are the
    same text. *)
Theorem nl2br_is_injective (a b : pystr) :
  StaticGen.nl2br a = StaticGen.nl2br b -> a = b.
Proof.
  rewrite !nl2br_chars. apply flat_map_html_char_inj.
Qed.

Lemma nl2br_is_injective_witness : py "1 < 2" = py "1 < 2".
Proof.
  apply nl2br_is_injective. reflexivity.
Defined.

(** ** The raw-export helper *)

Lemma hash_chat_cleaned (float_repr : pyfloat -> pystr) (title extra : json)
      (ms1 ms2 : list json) :
  map Hashing.strip_volatile_fields ms1
  = map Hashing.strip_volatile_fields ms2 ->
  Hashing.hash_chat float_repr title ms1 extra
  = Hashing.hash_chat float_repr title ms2 extra.
Proof.
  intros H. unfold Hashing.hash_chat, Hashing.chat_payload. now rewrite H.
Qed.

(** X20. hash_raw_chat_export depends only on the raw chat's title (with
    its default), model, project_id and the list under messages after
    strip_volatile_fields: two raw chats that agree on these get the same
    result, whatever their other keys (id, mapping, timestamps) and the
    volatile fields of their messages hold. *)
Theorem hash_raw_chat_export_ignores_the_rest
        (float_repr : pyfloat -> pystr) (c1 c2 : dict) (ms1 ms2 : list json) :
  RawExport.get_or c1 (py "title") (JStr (py "<untitled>"))
  = RawExport.get_or c2 (py "title") (JStr (py "<untitled>")) ->
  Dict.get c1 (py "model") = Dict.get c2 (py "model") ->
  Dict.get c1 (py "project_id") = Dict.get c2 (py "project_id") ->
  RawExport.get_or c1 (py "messages") (JList []) = JList ms1 ->
  RawExport.get_or c2 (py "messages") (JList []) = JList ms2 ->
  map Hashing.strip_volatile_fields ms1
  = map Hashing.strip_volatile_fields ms2 ->
  RawExport.hash_raw_chat_export float_repr (JObj c1)
  = RawExport.hash_raw_chat_export float_repr (JObj c2).
Proof.
  intros Ht Hm Hp H1 H2 Hms. unfold RawExport.hash_raw_chat_export.
  rewrite Ht, Hm, Hp, H1, H2. simpl.
  now apply hash_chat_cleaned.
Qed.

Lemma hash_raw_chat_export_ignores_the_rest_witness :
  RawExport.hash_raw_chat_export Examples.no_floats
    (JObj [(py "id", JStr (py "c1")); (py "title", JStr (py "T"));
           (py "messages",
            JList [JObj [(py "id", JStr (py "m1"));
                         (py "content", JStr (py "hi"))]])])
  = RawExport.hash_raw_chat_export Examples.no_floats
      (JObj [(py "title", JStr (py "T")); (py "create_time", JInt 5);
             (py "messages",
              JList [JObj [(py "content", JStr (py "hi"));
                           (py "metadata", JObj [])]]);
             (py "mapping", JObj [])]).
Proof.
  apply hash_raw_chat_export_ignores_the_rest
    with (ms1 := [JObj [(py "id", JStr (py "m1"));
                        (py "content", JStr (py "hi"))]])
         (ms2 := [JObj [(py "content", JStr (py "hi"));
                        (py "metadata", JObj [])]]);
    reflexivity.
Defined.

(** X21. hash_raw_chat_export raises AttributeError for a value that is
    not a dict, and TypeError when messages is present but None, a number
    or a bool. Without the key messages it hashes an empty message list.
    The extra dict {model, project_id} is always truthy, so it always
    enters the hashed payload, also when both values are None. A title
    that is present but None is hashed as None, not as '<untitled>'. *)
Theorem hash_raw_chat_export_edges (float_repr : pyfloat -> pystr) :
  (forall j,
      Spec.is_obj j = false ->
      RawExport.hash_raw_chat_export float_repr j = Raise AttributeError)
  /\ (forall c,
         Dict.contains c (py "messages") = false ->
         RawExport.hash_raw_chat_export float_repr (JObj c)
         = Hashing.hash_chat float_repr
             (RawExport.get_or c (py "title") (JStr (py "<untitled>"))) []
             (JObj [(py "model", Dict.get c (py "model"));
                    (py "project_id", Dict.get c (py "project_id"))]))
  /\ (forall c,
         Dict.contains c (py "messages") = true ->
         is_number (Dict.get c (py "messages")) = true
         \/ Dict.get c (py "messages") = JNull ->
         RawExport.hash_raw_chat_export float_repr (JObj c) = Raise TypeError)
  /\ (forall title messages,
         truthy (JObj [(py "model", JNull); (py "project_id", JNull)]) = true
         /\ Hashing.chat_payload title messages
              (JObj [(py "model", JNull); (py "project_id", JNull)])
            = JObj [(py "title", title);
                    (py "messages",
                     JList (map Hashing.strip_volatile_fields messages));
                    (py "extra",
                     JObj [(py "model", JNull); (py "project_id", JNull)])])
  /\ (forall c,
         Dict.contains c (py "title") = true ->
         Dict.get c (py "title") = JNull ->
         RawExport.get_or c (py "title") (JStr (py "<untitled>")) = JNull).
Proof.
  split; [|split; [|split; [|split]]].
  - intros j Hj. destruct j; try reflexivity. discriminate.
  - intros c Hc. unfold RawExport.hash_raw_chat_export, RawExport.get_or.
    rewrite Hc. reflexivity.
  - intros c Hc Hv. unfold RawExport.hash_raw_chat_export.
    unfold RawExport.get_or. rewrite Hc.
    destruct Hv as [Hv| ->]; [|reflexivity].
    destruct (Dict.get c (py "messages")); try discriminate; reflexivity.
  - intros title messages. split; reflexivity.
  - intros c Hc Hv. unfold RawExport.get_or. now rewrite Hc.
Qed.

Section Pages.
Import Store Ingest SyncSpec StaticGen.
Variable float_repr : pyfloat -> pystr.
Variable nan_order : Parser.sort_order.












Lemma select_chat_by_id_None (chat_db_id : Z) (d : db) :
  select_chat_by_id chat_db_id d = None <-> ~ has_chat d chat_db_id.
Proof.
  unfold select_chat_by_id, has_chat. split.
  - intros H Hin. apply in_map_iff in Hin as [r [Hid Hr]].
    eapply find_none in H; [|exact Hr]. simpl in H.
    rewrite Hid, Z.eqb_refl in H. discriminate.
  - intros H.
    destruct (find (fun r => (row_id r =? chat_db_id)%Z) (chats d))
      as [r|] eqn:E; [|reflexivity].
    exfalso. apply find_some in E as [Hr Hid]. apply Z.eqb_eq in Hid.
    apply H. rewrite <- Hid. now apply in_map.
Qed.

(** X22. render_chat_page for an internal id that no chat row has raises
    ValueError after the single lookup of the chat, without querying the
    messages and without changing the store; if the storage fails at that
    lookup, the storage's error is raised instead. *)
Theorem render_chat_page_unknown_id (chat_db_id : Z) (d : db) :
  ~ has_chat d chat_db_id ->
  render_chat_page chat_db_id {| store := d; budget := None |}
  = (inr ValueError, {| store := d; budget := None |})
  /\ (forall k,
         render_chat_page chat_db_id {| store := d; budget := Some (S k) |}
         = (inr ValueError, {| store := d; budget := Some k |}))
  /\ render_chat_page chat_db_id {| store := d; budget := Some 0 |}
     = (inr (Raised StorageError), {| store := d; budget := Some 0 |}).
Proof.
  intros H. apply select_chat_by_id_None in H.
  unfold render_chat_page, query. simpl. rewrite H.
  repeat split.
Qed.

End Pages.

Section Integrity.
Import Store Ingest SyncSpec StaticGen.
Variable float_repr : pyfloat -> pystr.
Variable nan_order : Parser.sort_order.

Lemma hoare_ret (A : Type) (P : db -> Prop) (Q : A -> db -> Prop) (a : A) :
  (forall d, P d -> Q a d) -> hoare P (ret a) Q.
Proof. intros H w r w' Hp E. injection E as <- <-. now apply H. Qed.

Lemma hoare_lift (A : Type) (P : db -> Prop) (Q : A -> db -> Prop)
      (x : result A) :
  (forall d, P d -> no_orphans d) -> (forall a d, P d -> Q a d) ->
  hoare P (lift x) Q.
Proof.
  intros Hi H w r w' Hp E. destruct x; injection E as <- <-; auto.
Qed.

Lemma hoare_transaction (A : Type) (P : db -> Prop) (Q : A -> db -> Prop)
      (s : statement) (read : db -> A) :
  (forall d, P d -> no_orphans d) ->
  (forall d, P d -> Q (read d) (apply s d)) ->
  hoare P (transaction s read) Q.
Proof.
  intros Hi H w r w' Hp E. unfold transaction in E.
  destruct (budget w) as [[|k]|]; injection E as <- <-; simpl; auto.
Qed.

Lemma hoare_bind (A B : Type) (P : db -> Prop) (Q : A -> db -> Prop)
      (R : B -> db -> Prop) (m : M A) (k : A -> M B) :
  hoare P m Q -> (forall a, hoare (Q a) (k a) R) -> hoare P (bind m k) R.
Proof.
  intros Hm Hk w r w' Hp E. unfold bind in E.
  destruct (m w) as [[a|e] w1] eqn:Em.
  - pose proof (Hm _ _ _ Hp Em) as Hq. simpl in Hq.
    exact (Hk a _ _ _ Hq E).
  - injection E as <- <-. exact (Hm _ _ _ Hp Em).
Qed.

Lemma no_orphans_same (d d' : db) :
  map row_id (chats d') = map row_id (chats d) ->
  messages d' = messages d ->
  no_orphans d -> no_orphans d'.
Proof.
  unfold no_orphans, has_chat. intros -> ->. auto.
Qed.

Lemma no_orphans_select (chat_id : json) (d : db) :
  no_orphans d -> no_orphans (apply (SelectChat chat_id) d).
Proof. apply no_orphans_same; reflexivity. Qed.

Lemma no_orphans_insert_chat (chat_id : json) (fields : chat_fields)
      (d : db) :
  no_orphans d ->
  no_orphans (apply (InsertChat chat_id fields) d)
  /\ has_chat (apply (InsertChat chat_id fields) d) (next_id d).
Proof.
  unfold no_orphans, has_chat. simpl. intros H. split.
  - eapply Forall_impl; [|exact H]. intros m Hm.
    rewrite map_app. apply in_or_app. now left.
  - rewrite map_app. apply in_or_app. right. now left.
Qed.

Lemma update_ids (fields : chat_fields) (id : Z) (d : db) :
  map row_id (chats (apply (UpdateChat fields id) d)) = map row_id (chats d).
Proof.
  simpl. rewrite map_map. apply map_ext.
  intros r. now destruct (row_id r =? id)%Z.
Qed.

Lemma no_orphans_update (fields : chat_fields) (id x : Z) (d : db) :
  no_orphans d /\ has_chat d x ->
  no_orphans (apply (UpdateChat fields id) d)
  /\ has_chat (apply (UpdateChat fields id) d) x.
Proof.
  intros [H Hx]. split.
  - eapply no_orphans_same; [apply update_ids | reflexivity | exact H].
  - unfold has_chat. now rewrite update_ids.
Qed.

Lemma no_orphans_delete (id x : Z) (d : db) :
  no_orphans d /\ has_chat d x ->
  no_orphans (apply (DeleteMessages id) d)
  /\ has_chat (apply (DeleteMessages id) d) x.
Proof.
  intros [H Hx]. split; [|exact Hx].
  unfold no_orphans in *. simpl. rewrite Forall_forall in *.
  intros m Hm. apply filter_In in Hm as [Hm _]. now apply H.
Qed.

Lemma no_orphans_insert_message (row : message_row) (d : db) :
  no_orphans d /\ has_chat d (m_chat_id row) ->
  no_orphans (apply (InsertMessage row) d)
  /\ has_chat (apply (InsertMessage row) d) (m_chat_id row).
Proof.
  intros [H Hx]. split; [|exact Hx].
  unfold no_orphans in *. simpl. apply Forall_app. split; [exact H|].
  constructor; [exact Hx | constructor].
Qed.

Lemma select_chat_has_chat (d : db) (chat_id : json) (row : chat_row) :
  select_chat d chat_id = Some row -> has_chat d (row_id row).
Proof.
  unfold select_chat, has_chat. intros H.
  apply find_some in H as [Hin _]. now apply in_map.
Qed.

Lemma hoare_insert_messages (ms : list Parser.message) :
  forall index chat_db_id,
    hoare (fun d => no_orphans d /\ has_chat d chat_db_id)
          (insert_messages_from float_repr index chat_db_id ms)
          (fun _ d => no_orphans d).
Proof.
  induction ms as [|m ms IH]; intros index chat_db_id; simpl.
  - apply hoare_ret. tauto.
  - eapply hoare_bind
      with (Q := fun _ d => no_orphans d /\ has_chat d chat_db_id);
      [|intros ?; apply IH].
    apply hoare_transaction; [tauto|].
    intros d H.
    exact (@no_orphans_insert_message
             (message_row_of float_repr chat_db_id index m) d H).
Qed.

Lemma hoare_upsert_chat (n : Parser.chat) (h : pystr) :
  hoare no_orphans (upsert_chat float_repr n h)
        (fun id d => no_orphans d /\ has_chat d id).
Proof.
  unfold upsert_chat.
  eapply hoare_bind
    with (Q := fun existing d =>
                 no_orphans d
                 /\ match existing with
                    | Some row => has_chat d (row_id row)
                    | None => True
                    end).
  - apply hoare_transaction; [auto|].
    intros d H. split; [now apply no_orphans_select|].
    destruct (select_chat d (Parser.chat_id n)) as [row|] eqn:E; [|exact I].
    exact (select_chat_has_chat _ _ E).
  - intros [row|].
    + destruct (PyStr.eqb (f_hash (row_fields row)) h).
      * eapply hoare_bind with (Q := fun _ d => no_orphans d
                                              /\ has_chat d (row_id row)).
        -- apply hoare_lift; tauto.
        -- intros ?. apply hoare_ret. tauto.
      * eapply hoare_bind with (Q := fun _ d => no_orphans d
                                              /\ has_chat d (row_id row)).
        -- apply hoare_lift; tauto.
        -- intros ?.
           eapply hoare_bind
             with (Q := fun _ d => no_orphans d /\ has_chat d (row_id row)).
           ++ apply hoare_transaction; [tauto|].
              intros d H. now apply no_orphans_update.
           ++ intros ?.
              eapply hoare_bind
                with (Q := fun _ d => no_orphans d
                                      /\ has_chat d (row_id row)).
              ** apply hoare_transaction; [tauto|].
                 intros d H. now apply no_orphans_delete.
              ** intros ?. apply hoare_ret. tauto.
    + eapply hoare_bind with (Q := fun _ d => no_orphans d).
      * apply hoare_lift; tauto.
      * intros ?. apply hoare_transaction; [auto|].
        intros d H. now apply no_orphans_insert_chat.
Qed.

Lemma hoare_sync_chat (n : Parser.chat) (h : pystr) :
  hoare no_orphans (sync_chat float_repr n h) (fun _ d => no_orphans d).
Proof.
  unfold sync_chat.
  eapply hoare_bind with (Q := fun _ d => no_orphans d).
  - apply hoare_transaction; [auto|].
    intros d H. now apply no_orphans_select.
  - intros old_row.
    eapply hoare_bind; [apply hoare_upsert_chat|].
    intros chat_db_id. destruct old_row as [row|].
    + destruct (negb (PyStr.eqb (f_hash (row_fields row)) h)).
      * eapply hoare_bind; [apply hoare_insert_messages|].
        intros ?. apply hoare_ret. auto.
      * apply hoare_ret. tauto.
    + eapply hoare_bind; [apply hoare_insert_messages|].
      intros ?. apply hoare_ret. auto.
Qed.

Lemma hoare_ingest_chat (raw_chat : json) :
  hoare no_orphans (ingest_chat float_repr nan_order raw_chat)
        (fun _ d => no_orphans d).
Proof.
  unfold ingest_chat.
  eapply hoare_bind with (Q := fun _ d => no_orphans d);
    [apply hoare_lift; auto | intros n].
  eapply hoare_bind with (Q := fun _ d => no_orphans d);
    [apply hoare_lift; auto | intros h].
  apply hoare_sync_chat.
Qed.

Lemma hoare_ingest_chats (items : list json) :
  forall c,
    hoare no_orphans (ingest_chats float_repr nan_order items c)
          (fun _ d => no_orphans d).
Proof.
  induction items as [|raw items IH]; intros c; simpl.
  - apply hoare_ret. auto.
  - eapply hoare_bind; [apply hoare_ingest_chat | intros o; apply IH].
Qed.

Lemma hoare_ingest_export (export_dir : list file) :
  hoare no_orphans (ingest_export float_repr nan_order export_dir)
        (fun _ d => no_orphans d).
Proof.
  unfold ingest_export.
  eapply hoare_bind with (Q := fun _ d => no_orphans d);
    [apply hoare_lift; auto | intros path].
  eapply hoare_bind with (Q := fun _ d => no_orphans d);
    [apply hoare_lift; auto | intros data].
  eapply hoare_bind with (Q := fun _ d => no_orphans d);
    [apply hoare_lift; auto | intros items].
  apply hoare_ingest_chats.
Qed.

(** X24. ingest_export keeps the message rows attached to chat rows by
    itself: if every message row belongs to an existing chat row before
    the run, the same holds after it, whether the run completes or raises
    at any point, a storage failure between two statements included. From
    a well-formed store, no message row then refers to an internal id that
    the sequence has not issued. *)
Theorem a_run_leaves_no_orphan_messages
        (export_dir : list file) (w w' : world) (r : result counts) :
  no_orphans (store w) ->
  ingest_export float_repr nan_order export_dir w = (r, w') ->
  no_orphans (store w')
  /\ (wf_db (store w) -> wf_db (store w') /\ wf_messages (store w')).
Proof.
  intros Hi Hrun.
  assert (Hn : no_orphans (store w')).
  { pose proof (hoare_ingest_export export_dir _ Hi Hrun) as H.
    now destruct r. }
  split; [exact Hn|]. intros Hwf.
  destruct (sends_ingest_export float_repr nan_order export_dir _ Hrun)
    as [stmts [Hs _]].
  assert (Hwf' : wf_db (store w')) by (rewrite Hs; now apply run_wf).
  split; [exact Hwf'|].
  destruct Hwf' as [_ Hlt]. unfold wf_messages, no_orphans, has_chat in *.
  rewrite Forall_forall in *. intros m Hm.
  specialize (Hn m Hm). apply in_map_iff in Hn as [row [<- Hrow]].
  now apply Hlt.
Qed.

(** ** The fingerprint of a raw chat *)

Lemma extract_messages_keys (c1 c2 : dict) :
  Dict.get c1 (py "mapping") = Dict.get c2 (py "mapping") ->
  Dict.get c1 (py "messages") = Dict.get c2 (py "messages") ->
  Parser.extract_messages_from_chat nan_order (JObj c1)
  = Parser.extract_messages_from_chat nan_order (JObj c2).
Proof.
  intros Hm Hl. unfold Parser.extract_messages_from_chat.
  now rewrite Hm, Hl.
Qed.

(** X25. The fingerprint the pipeline computes for a raw chat
    (normalize_chat, then hash_chat of the title, the normalized messages
    and the model) depends only on the raw chat's title, model, mapping
    and messages: two raw chats that agree on these four keys get the same
    fingerprint or the same error. The keys id, create_time and
    update_time do not enter it. *)
Theorem the_fingerprint_reads_four_keys (c1 c2 : dict) :
  (forall k, In k fingerprint_keys -> Dict.get c1 k = Dict.get c2 k) ->
  rbind (Parser.normalize_chat nan_order (JObj c1))
        (chat_fingerprint float_repr)
  = rbind (Parser.normalize_chat nan_order (JObj c2))
        (chat_fingerprint float_repr).
Proof.
  intros H.
  assert (Ht : Dict.get c1 (py "title") = Dict.get c2 (py "title"))
    by (apply H; simpl; auto).
  assert (Hmo : Dict.get c1 (py "model") = Dict.get c2 (py "model"))
    by (apply H; simpl; auto).
  assert (Hma : Dict.get c1 (py "mapping") = Dict.get c2 (py "mapping"))
    by (apply H; simpl; auto).
  assert (Hme : Dict.get c1 (py "messages") = Dict.get c2 (py "messages"))
    by (apply H; simpl; tauto).
  unfold Parser.normalize_chat.
  rewrite (extract_messages_keys c1 c2 Hma Hme).
  destruct (Parser.extract_messages_from_chat nan_order (JObj c2)) as [ms|e];
    [|reflexivity].
  simpl. unfold chat_fingerprint. simpl. now rewrite Ht, Hmo.
Qed.

(** ** Pages of stored chats *)

End Integrity.

(** ** The properties at concrete inputs *)

Lemma a_lone_surrogate_in_the_title_aborts_witness :
  Ingest.ingest_chat Examples.no_floats Examples.keep_order Cases.broken_title
                     (Cases.fresh None)
  = (Raise UnicodeEncodeError, Cases.fresh None).
Proof.
  refine (proj2 (@a_lone_surrogate_in_the_title_aborts
                   Examples.no_floats Examples.keep_order
                   Cases.broken_title Cases.broken_title_normalized
                   55357%N (Cases.fresh None) _ _ _));
    reflexivity.
Defined.

Lemma a_numeric_title_raises_after_the_lookups_witness :
  Ingest.sync_chat Examples.no_floats
    (Cases.bare_chat (JStr (py "c1")) (JInt 5)) (py "h")
    {| Store.store := Examples.stored_c1; Store.budget := None |}
  = (Raise TypeError,
     {| Store.store :=
          SyncSpec.run (SyncSpec.lookups (JStr (py "c1"))) Examples.stored_c1;
        Store.budget := None |}).
Proof.
  refine (proj1 (@a_numeric_title_raises_after_the_lookups Examples.no_floats
                   (Cases.bare_chat (JStr (py "c1")) (JInt 5)) (py "h")
                   Examples.stored_c1 _)).
  reflexivity.
Defined.

Lemma every_record_is_counted_once_witness :
  total {| Ingest.new_count := 2; Ingest.updated_count := 0;
           Ingest.unchanged_count := 0 |}
  = length (SyncSpec.export_chats Examples.export_two_ids).
Proof.
  refine (proj1 (@every_record_is_counted_once
                   Examples.no_floats Examples.keep_order
                   Examples.export_two_ids
                   {| Ingest.new_count := 2; Ingest.updated_count := 0;
                      Ingest.unchanged_count := 0 |}
                   (Cases.fresh None)
                   (snd (Ingest.ingest_export
                           Examples.no_floats Examples.keep_order
                           Examples.export_two_ids (Cases.fresh None)))
                   _)).
  vm_compute. reflexivity.
Defined.

Lemma a_bad_record_aborts_the_run_witness :
  Ingest.ingest_chats Examples.no_floats Examples.keep_order
    ([Examples.flat_chat "c1" "a"] ++ JStr (py "x")
       :: [Examples.flat_chat "c2" "b"])
    Ingest.zero_counts (Cases.fresh None)
  = (Raise AttributeError,
     snd (Ingest.ingest_chats Examples.no_floats Examples.keep_order
            [Examples.flat_chat "c1" "a"] Ingest.zero_counts
            (Cases.fresh None))).
Proof.
  refine (proj2 (@a_bad_record_aborts_the_run
                   Examples.no_floats Examples.keep_order
                   [Examples.flat_chat "c1" "a"] [Examples.flat_chat "c2" "b"]
                   (JStr (py "x")) AttributeError Ingest.zero_counts
                   {| Ingest.new_count := 1; Ingest.updated_count := 0;
                      Ingest.unchanged_count := 0 |}
                   (Cases.fresh None)
                   (snd (Ingest.ingest_chats
                           Examples.no_floats Examples.keep_order
                           [Examples.flat_chat "c1" "a"] Ingest.zero_counts
                           (Cases.fresh None)))
                   _ _)).
  - vm_compute. reflexivity.
  - reflexivity.
Defined.

Lemma a_run_only_adds_chat_rows_witness :
  exists stmts added,
    Store.store
      (snd (Ingest.ingest_export
              Examples.no_floats Examples.keep_order Examples.export_two_ids
              (Cases.fresh (Some 3))))
    = SyncSpec.run stmts Examples.empty_db
    /\ length stmts <= 3
    /\ map row_key
           (Store.chats
              (Store.store
                 (snd (Ingest.ingest_export
                         Examples.no_floats Examples.keep_order
                         Examples.export_two_ids
                         (Cases.fresh (Some 3))))))
       = added.
Proof.
  destruct (@a_run_only_adds_chat_rows Examples.no_floats Examples.keep_order
              Examples.export_two_ids
              (Cases.fresh (Some 3))
              (snd (Ingest.ingest_export Examples.no_floats Examples.keep_order
                      Examples.export_two_ids (Cases.fresh (Some 3))))
              (Raise StorageError))
    as [stmts [added [Hs [_ [Hk [_ [Hl _]]]]]]].
  - vm_compute. reflexivity.
  - exists stmts, added. split; [exact Hs|]. split; [exact Hl | exact Hk].
Defined.

Lemma the_first_run_inserts_every_chat_witness :
  map Store.row_chat_id
      (Store.chats
         (Store.store
            (snd (Ingest.ingest_export Examples.no_floats Examples.keep_order
                    Examples.export_two_ids (Cases.fresh None)))))
  = map Store.row_chat_id (Store.chats Examples.empty_db)
    ++ map SyncSpec.external_id
           (SyncSpec.export_chats Examples.export_two_ids).
Proof.
  destruct (@the_first_run_inserts_every_chat
              Examples.no_floats Examples.keep_order
              Examples.export_two_ids Examples.empty_db
              {| Ingest.new_count := 2; Ingest.updated_count := 0;
                 Ingest.unchanged_count := 0 |}
              (snd (Ingest.ingest_export Examples.no_floats Examples.keep_order
                      Examples.export_two_ids (Cases.fresh None))))
    as [_ [H _]].
  - split; simpl; constructor.
  - repeat constructor.
  - simpl. repeat constructor; simpl; intuition discriminate.
  - repeat constructor.
  - vm_compute. reflexivity.
  - exact H.
Defined.

Lemma a_chat_without_id_is_new_on_every_run_witness :
  Ingest.sync_chat Examples.no_floats
    (Cases.bare_chat JNull (JStr (py "T"))) (py "h")
    {| Store.store := Examples.stored_c1; Store.budget := None |}
  = (Ok Ingest.New,
     {| Store.store :=
          SyncSpec.run
            (SyncSpec.sync_statements Examples.no_floats Examples.stored_c1
               (Cases.bare_chat JNull (JStr (py "T"))) (py "h"))
            Examples.stored_c1;
        Store.budget := None |}).
Proof.
  exact (proj1 (proj2 (@a_chat_without_id_is_new_on_every_run
                         Examples.no_floats
                         (Cases.bare_chat JNull (JStr (py "T")))
                         (py "h") Examples.stored_c1 (py "T")
                         eq_refl eq_refl))).
Defined.

Lemma the_conversations_value_is_not_checked_witness :
  Ingest.ingest_export Examples.no_floats Examples.keep_order
    [Ingest.Document (JObj [(py "conversations", JNull)])]
    (Cases.fresh None)
  = (Raise TypeError, Cases.fresh None).
Proof.
  destruct (@the_conversations_value_is_not_checked
              Examples.no_floats Examples.keep_order
              [(py "conversations", JNull)] [] (Cases.fresh None)
              eq_refl) as [_ [H _]].
  apply H; reflexivity.
Defined.

Lemma render_chat_page_unknown_id_witness :
  StaticGen.render_chat_page 7
    {| Store.store := Examples.stored_c1; Store.budget := None |}
  = (inr StaticGen.ValueError,
     {| Store.store := Examples.stored_c1; Store.budget := None |}).
Proof.
  refine (proj1 (@render_chat_page_unknown_id 7 Examples.stored_c1 _)).
  unfold has_chat. simpl. intros [H|[]]. discriminate H.
Defined.



Lemma the_fingerprint_reads_four_keys_witness :
  rbind (Parser.normalize_chat Examples.keep_order
           (JObj [(py "id", JStr (py "c1")); (py "title", JStr (py "T"));
                  (py "update_time", JInt 5)]))
        (Ingest.chat_fingerprint Examples.no_floats)
  = rbind (Parser.normalize_chat Examples.keep_order
             (JObj [(py "title", JStr (py "T")); (py "id", JStr (py "c2"))]))
          (Ingest.chat_fingerprint Examples.no_floats).
Proof.
  apply the_fingerprint_reads_four_keys.
  intros k [<-|[<-|[<-|[<-|[]]]]]; reflexivity.
Defined.

Lemma a_run_leaves_no_orphan_messages_witness :
  no_orphans
    (Store.store
       (snd (Ingest.ingest_export
               Examples.no_floats Examples.keep_order Examples.export_two_ids
               {| Store.store := Examples.stored_c1;
                  Store.budget := None |})))
  /\ length
       (Store.messages
          (Store.store
             (snd (Ingest.ingest_export
                     Examples.no_floats Examples.keep_order
                     Examples.export_two_ids
                     {| Store.store := Examples.stored_c1;
                        Store.budget := None |}))))
     = 2.
Proof.
  split; [|vm_compute; reflexivity].
  refine (proj1 (@a_run_leaves_no_orphan_messages
                   Examples.no_floats Examples.keep_order
                   Examples.export_two_ids
                   {| Store.store := Examples.stored_c1;
                      Store.budget := None |}
                   (snd (Ingest.ingest_export
                           Examples.no_floats Examples.keep_order
                           Examples.export_two_ids
                           {| Store.store := Examples.stored_c1;
                              Store.budget := None |}))
                   (fst (Ingest.ingest_export
                           Examples.no_floats Examples.keep_order
                           Examples.export_two_ids
                           {| Store.store := Examples.stored_c1;
                              Store.budget := None |}))
                   _ _)).
  - constructor; [left; reflexivity | constructor].
  - vm_compute. reflexivity.
Defined.
